(** * smolFlow: the node and flow execution engine

    A shallow embedding of the framework file (the [FlowFramework] module:
    warning channel, [shallowCopy], the [BaseNode] / [Node] / [BatchNode] /
    [Flow] / [BatchFlow] classes and their asynchronous counterparts) and the
    properties of it that the specification states.

    Modelling choices, all visible in the definitions below:
    - JavaScript numbers are the integers of magnitude below 2^53 ([Z]);
      [NaN], the infinities, fractions and symbols are not represented.  In
      particular [maxRetries] and [wait] are integers: what the loops do
      with [Infinity] or a fraction is outside the model.
    - A string is its sequence of code units, those below 256.
    - Objects with identity (nodes, the [successors] and [params] mappings)
      live in a heap indexed by references, so that aliasing after
      [shallowCopy] is the aliasing of the program.
    - A property read [o[k]] follows the prototype chain: a plain object
      inherits the members of [Object.prototype], a node those of its class
      and then those of [Object.prototype], and assigning a node to
      [__proto__] of a plain object makes the node its prototype.  What is
      found on a prototype is a function, or [Object.prototype] itself
      ([VNative]); the framework tests such a value for truth and for being
      a node, and fails when it calls [setParams] on it.  [Object.keys] and
      spread read own properties only.
    - The values a program hands to the framework are undefined, null,
      booleans, numbers, strings, arrays, plain objects and nodes.  A
      [VNative] value and a plain object that has a node for prototype come
      from the reads and the assignment above only: a program does not store
      them in an object, and does not hand them to the framework where a
      node is expected.
    - A user subclass overrides lifecycle methods and declares no other
      member; its constructor adds no attribute.
    - The overridable lifecycle methods (prep, exec, execFallback, post and
      their asynchronous versions) are user code.  They are functions that
      read the heap and the receiver and transform the shared context; they
      may return, throw or diverge.  They do not write to the heap.
    - Warning handlers are named sinks: calling one appends an event to the
      trace.  [console_warn] is the standard error stream.
    - [await] is sequencing: within one flow run the asynchronous methods
      execute in program order.  The two parallel batch classes start their
      branches concurrently; the join of AsyncParallelBatchNode is a
      parameter of the development and AsyncParallelBatchFlow's own
      asynchronous run is not embedded. *)

From stdpp Require Import gmap strings list fin_maps pretty.
From Stdlib Require Import ZArith.

Set Warnings "-register-all".

(** ** Values *)

Definition ref := nat.

(** What a property read can reach on a prototype chain. *)
Inductive native :=
| ObjectPrototype             (* [Object.prototype] itself, read as [o.__proto__] of a plain object *)
| Builtin (name : string)     (* the function [Object.prototype[name]]; [constructor] is [Object] *)
| Method (name : string).     (* a method of a node's class chain; [constructor] is the class *)

Inductive value : Type :=
| VUndefined
| VNull
| VBool (b : bool)
| VNum (n : Z)
| VStr (s : string)
| VArr (l : list value)
| VObj (m : gmap string value)   (* an object literal whose identity is never observed *)
| VRef (r : ref)                 (* an object of the heap *)
| VNative (x : native).          (* an object of the runtime *)

(** Truthiness, as used by [!x], [x || y] and [while (x)]. *)
Definition truthy (v : value) : bool :=
  match v with
  | VUndefined | VNull => false
  | VBool b => b
  | VNum n => negb (n =? 0)%Z
  | VStr s => match s with EmptyString => false | String _ _ => true end
  | VArr _ | VObj _ | VRef _ | VNative _ => true
  end.

Definition typeof (v : value) : string :=
  match v with
  | VUndefined => "undefined"
  | VBool _ => "boolean"
  | VNum _ => "number"
  | VStr _ => "string"
  | VNull | VArr _ | VObj _ | VRef _ => "object"
  | VNative ObjectPrototype => "object"
  | VNative (Builtin _ | Method _) => "function"
  end.

Definition isArray (v : value) : bool :=
  match v with VArr _ => true | _ => false end.

Definition is_null (v : value) : bool :=
  match v with VNull => true | _ => false end.

(** [String(v)]: the text of a template hole and the property key a value
    denotes.  A function of the runtime prints as native code; the source
    text that a method of a class prints as is not represented, the model
    keeps its name. *)
Fixpoint to_string (v : value) : string :=
  match v with
  | VUndefined => "undefined"
  | VNull => "null"
  | VBool true => "true"
  | VBool false => "false"
  | VNum n => pretty n
  | VStr s => s
  | VArr l =>
      (fix join (l : list value) : string :=
         match l with
         | [] => ""
         | x :: rest =>
             let sx := match x with
                       | VUndefined | VNull => ""
                       | _ => to_string x
                       end in
             match rest with
             | [] => sx
             | _ :: _ => sx +:+ "," +:+ join rest
             end
         end) l
  | VObj _ | VRef _ => "[object Object]"
  | VNative ObjectPrototype => "[object Object]"
  | VNative (Builtin name) =>
      "function " +:+ (if String.eqb name "constructor" then "Object" else name)
        +:+ "() { [native code] }"
  | VNative (Method name) => name
  end.

(** ** Heap objects *)

Inductive class :=
| BaseNode | Node | BatchNode | Flow | BatchFlow
| AsyncNode | AsyncBatchNode | AsyncParallelBatchNode
| AsyncFlow | AsyncBatchFlow | AsyncParallelBatchFlow.

(** A node object: its prototype ([cls]), the user subclass that supplies
    its overridable methods ([impl]), and the attributes the constructors
    assign.  [maxRetries], [wait] and [curRetry] are assigned by [Node] and
    by [AsyncFlow], [startNode] by [Flow]; the other classes never read them. *)
Record node := mk_node {
  cls : class;
  impl : nat;
  params : value;
  successors : ref;
  maxRetries : Z;
  wait : Z;
  curRetry : Z;
  startNode : value
}.

(** The objects of the heap: nodes, plain objects (prototype
    [Object.prototype]), and plain objects whose prototype has been replaced
    by the node at [proto] (what [o.__proto__ = node] does). *)
Inductive obj :=
| ONode (n : node)
| OMap (m : gmap string value)
| OLinked (m : gmap string value) (proto : ref).

Definition set_params (p : value) (n : node) : node :=
  mk_node (cls n) (impl n) p (successors n) (maxRetries n) (wait n) (curRetry n) (startNode n).

Definition set_curRetry (i : Z) (n : node) : node :=
  mk_node (cls n) (impl n) (params n) (successors n) (maxRetries n) (wait n) i (startNode n).


Definition set_wait (z : Z) (n : node) : node :=
  mk_node (cls n) (impl n) (params n) (successors n) (maxRetries n) z (curRetry n) (startNode n).

(** Which classes carry the retry attributes, and which the start node. *)
Definition has_retry_fields (c : class) : bool :=
  match c with
  | BaseNode | Flow | BatchFlow => false
  | _ => true
  end.

Definition has_startNode (c : class) : bool :=
  match c with
  | Flow | BatchFlow | AsyncFlow | AsyncBatchFlow | AsyncParallelBatchFlow => true
  | _ => false
  end.

(** The own enumerable attributes of a node object. *)
Definition own_props (n : node) : gmap string value :=
  let base : gmap string value :=
    <["params" := params n]> (<["successors" := VRef (successors n)]> ∅) in
  let withRetry : gmap string value :=
    if has_retry_fields (cls n)
    then <["maxRetries" := VNum (maxRetries n)]>
           (<["wait" := VNum (wait n)]> (<["curRetry" := VNum (curRetry n)]> base))
    else base in
  if has_startNode (cls n) then <["startNode" := startNode n]> withRetry else withRetry.

Definition index_entries (l : list value) : gmap string value :=
  list_to_map (imap (fun (i : nat) (x : value) => (pretty i, x)) l).

Definition chars (s : string) : list value :=
  map (fun c => VStr (String c EmptyString)) (String.list_ascii_of_string s).

(** The own enumerable entries of a value: what [{...v}] copies and
    [Object.keys(v)] lists. *)
Definition own_entries (h : gmap ref obj) (v : value) : gmap string value :=
  match v with
  | VObj m => m
  | VRef r =>
      match h !! r with
      | Some (OMap m) | Some (OLinked m _) => m
      | Some (ONode n) => own_props n
      | None => ∅
      end
  | VArr l => index_entries l
  | VStr s => index_entries (chars s)
  | _ => ∅
  end.

(** The own property names of [Object.prototype] that hold a function.  Its
    one other property is the accessor [__proto__]. *)
Definition Object_prototype_functions : list string :=
  ["constructor"; "hasOwnProperty"; "isPrototypeOf"; "propertyIsEnumerable";
   "toLocaleString"; "toString"; "valueOf";
   "__defineGetter__"; "__defineSetter__"; "__lookupGetter__"; "__lookupSetter__"].

(** The names a node finds on the prototypes of its class chain, from the
    [class] declarations and [applyMixins(AsyncFlow, [AsyncNode])]. *)
Definition BaseNode_members : list string :=
  ["constructor"; "setParams"; "next"; "prep"; "exec"; "post"; "_exec"; "_run"; "run";
   "connect"; "withTransition"].

Definition Node_members : list string := "execFallback" :: BaseNode_members.

Definition Flow_members : list string :=
  ["start"; "getNextNode"; "_orchestrate"] ++ BaseNode_members.

Definition AsyncNode_members : list string :=
  ["prepAsync"; "execAsync"; "execFallbackAsync"; "postAsync"; "runAsync"; "_runAsync"]
    ++ Node_members.

Definition AsyncFlow_members : list string :=
  ["prepAsync"; "postAsync"; "_orchestrateAsync"; "_runAsync"; "runAsync";
   "execAsync"; "execFallbackAsync"] ++ Flow_members.

Definition class_members (c : class) : list string :=
  match c with
  | BaseNode => BaseNode_members
  | Node | BatchNode => Node_members
  | Flow | BatchFlow => Flow_members
  | AsyncNode | AsyncBatchNode | AsyncParallelBatchNode => AsyncNode_members
  | AsyncFlow | AsyncBatchFlow | AsyncParallelBatchFlow => AsyncFlow_members
  end.

(** The end of every chain: [Object.prototype[k]], where [proto] is what the
    accessor [__proto__] gives for the receiver of the read. *)
Definition Object_prototype_get (proto : value) (k : string) : value :=
  if String.eqb k "__proto__" then proto
  else if bool_decide (k ∈ Object_prototype_functions) then VNative (Builtin k)
  else VUndefined.

(** [o[k]] for a plain object with own entries [m]. *)
Definition plain_get (m : gmap string value) (k : string) : value :=
  match m !! k with
  | Some v => v
  | None => Object_prototype_get (VNative ObjectPrototype) k
  end.

(** [o[k]] for a node: its attributes, then the members of its class chain,
    then those of [Object.prototype].  The prototype object of a class is
    not a value of the model: [__proto__] of a node, which the framework
    never reads, is undefined here. *)
Definition node_get (n : node) (k : string) : value :=
  match own_props n !! k with
  | Some v => v
  | None =>
      if bool_decide (k ∈ class_members (cls n)) then VNative (Method k)
      else Object_prototype_get VUndefined k
  end.

(** [v[k]], for the objects of the model: own properties first, then the
    prototype chain.  Of an array or a string only the index entries are
    read, and reading a property of null or undefined (a TypeError in the
    source) is undefined here: the framework does neither. *)
Definition get_prop (h : gmap ref obj) (v : value) (k : string) : value :=
  match v with
  | VObj m => plain_get m k
  | VRef r =>
      match h !! r with
      | Some (OMap m) => plain_get m k
      | Some (OLinked m p) =>
          match m !! k with
          | Some x => x
          | None =>
              if String.eqb k "__proto__" then VRef p
              else match h !! p with
                   | Some (ONode n) => node_get n k
                   | _ => VUndefined
                   end
          end
      | Some (ONode n) => node_get n k
      | None => VUndefined
      end
  | _ => default VUndefined (own_entries h v !! k)
  end.

Definition get_node (h : gmap ref obj) (r : ref) : option node :=
  match h !! r with
  | Some (ONode n) => Some n
  | _ => None
  end.

(** [v instanceof BaseNode], for the values a program hands to the
    framework: every class of the framework extends BaseNode, and no other
    object of the model is built by a class. *)
Definition instanceof_BaseNode (h : gmap ref obj) (v : value) : bool :=
  match v with
  | VRef r => match get_node h r with Some _ => true | None => false end
  | _ => false
  end.

Definition instanceof_AsyncNode (c : class) : bool :=
  match c with
  | AsyncNode | AsyncBatchNode | AsyncParallelBatchNode => true
  | _ => false
  end.

(** ** Errors, outcomes, events *)

Inductive exn :=
| TypeError (msg : string)
| Error (msg : string)
| Thrown (v : value).

Inductive result (A : Type) :=
| Ret (a : A)
| Throw (e : exn)
| Diverge.
Arguments Ret {A} a.
Arguments Throw {A} e.
Arguments Diverge {A}.

(** The warning channel carries texts.  The one message that embeds
    [JSON.stringify(Object.keys(curr.successors))] keeps its two holes as
    data: the label looked up and the set of registered labels. *)
Inductive message :=
| Text (s : string)
| FlowEnds (nextAction : string) (keys : gset string).

Inductive handler :=
| console_warn
| custom (id : nat).

Inductive phase :=
| Prep | Exec | ExecFallback | Post
| PrepAsync | ExecAsync | ExecFallbackAsync | PostAsync.

Inductive event :=
| EvCall (ph : phase) (this : ref) (attempt : Z) (args : list value)
| EvHandler (h : handler) (msg : message)
| EvSetTimeout (ms : Z)   (* setTimeout(() => { }, ms): a deferred no-op, the caller goes on *)
| EvSleep (ms : Z)        (* await new Promise(resolve => setTimeout(resolve, ms)) *)
| EvParallel (this : ref) (items : list value).

(** ** The world and the computation monad *)

Section Engine.

(** The shared context and whatever else user code keeps. *)
Context {U : Type}.

Record world := mk_world {
  heap : gmap ref obj;
  handlers : list handler;     (* warnings.handlers *)
  trace : list event;          (* what has been called and emitted so far, oldest first *)
  shared : U
}.

Definition with_heap (h : gmap ref obj) (w : world) : world :=
  mk_world h (handlers w) (trace w) (shared w).

Definition with_handlers (hs : list handler) (w : world) : world :=
  mk_world (heap w) hs (trace w) (shared w).

Definition with_shared (s : U) (w : world) : world :=
  mk_world (heap w) (handlers w) (trace w) s.

Definition emit (e : event) (w : world) : world :=
  mk_world (heap w) (handlers w) (trace w ++ [e]) (shared w).

Definition M (A : Type) : Type := world -> result A * world.

Definition ret {A : Type} (a : A) : M A := fun w => (Ret a, w).

Definition throw {A : Type} (e : exn) : M A := fun w => (Throw e, w).

Definition diverge {A : Type} : M A := fun w => (Diverge, w).

Definition bind {A B : Type} (m : M A) (k : A -> M B) : M B :=
  fun w =>
    match m w with
    | (Ret a, w') => k a w'
    | (Throw e, w') => (Throw e, w')
    | (Diverge, w') => (Diverge, w')
    end.

(** [try { m } catch (e) { h e }]. *)
Definition try_catch {A : Type} (m : M A) (h : exn -> M A) : M A :=
  fun w =>
    match m w with
    | (Throw e, w') => h e w'
    | other => other
    end.

Definition log (e : event) : M unit := fun w => (Ret tt, emit e w).

Definition when_ (b : bool) (m : M unit) : M unit := if b then m else ret tt.

Definition read {A : Type} (f : world -> A) : M A := fun w => (Ret (f w), w).

Notation "'let*' x ':=' m 'in' k" := (bind m (fun x => k))
  (at level 10, x name, m at level 100, k at level 200).
Notation "m ';;;' k" := (bind m (fun _ => k))
  (at level 100, k at level 200, right associativity).

(** ** The warning channel *)

(** [handlers: [console.warn]]. *)
Definition warnings_handlers_init : list handler := [console_warn].

(** [warn]: [this.handlers.forEach(handler => handler(message))]. *)
Definition warnings_warn (msg : message) : M unit :=
  fun w => (Ret tt, foldl (fun w' h => emit (EvHandler h msg) w') w (handlers w)).

(** [addHandler], for an argument that is a function. *)
Definition warnings_addHandler (h : handler) : M unit :=
  fun w => (Ret tt, with_handlers (handlers w ++ [h]) w).

(** [clearHandlers]: [this.handlers = []]. *)
Definition warnings_clearHandlers : M unit :=
  fun w => (Ret tt, with_handlers [] w).

(** ** Heap operations *)

(** [new]: a fresh reference holding [o]. *)
Definition alloc (o : obj) : M ref :=
  fun w =>
    let r := fresh (dom (heap w)) in
    (Ret r, with_heap (<[r := o]> (heap w)) w).

(** The receiver of a method call must be a node object. *)
Definition node_of (what : string) (v : value) : M (ref * node) :=
  fun w =>
    match v with
    | VRef r =>
        match get_node (heap w) r with
        | Some n => (Ret (r, n), w)
        | None => (Throw (TypeError (what +:+ " is not a function")), w)
        end
    | _ => (Throw (TypeError (what +:+ " is not a function")), w)
    end.

Definition this_node (what : string) (this : ref) : M node :=
  bind (node_of what (VRef this)) (fun rn => ret (snd rn)).

Definition update_node (r : ref) (f : node -> node) : M unit :=
  fun w =>
    match get_node (heap w) r with
    | Some n => (Ret tt, with_heap (<[r := ONode (f n)]> (heap w)) w)
    | None => (Ret tt, w)
    end.

(** What [o[k] = v] makes of a plain object: an own entry, except under
    the name [__proto__] when the object has no own entry of that name.
    The assignment then goes to the accessor of [Object.prototype], which
    makes a node the new prototype and ignores a primitive (the framework
    assigns nodes only; null and objects of other kinds do not arise). *)
Definition assigned (o : obj) (k : string) (v : value) : obj :=
  match o with
  | ONode n => ONode n
  | OMap m =>
      if String.eqb k "__proto__" && bool_decide (m !! k = None)
      then match v with VRef p => OLinked m p | _ => OMap m end
      else OMap (<[k := v]> m)
  | OLinked m q =>
      if String.eqb k "__proto__" && bool_decide (m !! k = None)
      then match v with VRef p => OLinked m p | _ => OLinked m q end
      else OLinked (<[k := v]> m) q
  end.

(** [o[k] = v] on the plain object at [r]. *)
Definition assign_prop (r : ref) (k : string) (v : value) : M unit :=
  fun w =>
    match heap w !! r with
    | Some o => (Ret tt, with_heap (<[r := assigned o k v]> (heap w)) w)
    | None => (Ret tt, w)
    end.

(** Defining the own entry [k] of the plain object at [r]: what [o[k] = v]
    comes to for every [k] other than an absent [__proto__]. *)
Definition set_prop (r : ref) (k : string) (v : value) : M unit :=
  fun w =>
    match heap w !! r with
    | Some (OMap m) => (Ret tt, with_heap (<[r := OMap (<[k := v]> m)]> (heap w)) w)
    | Some (OLinked m p) => (Ret tt, with_heap (<[r := OLinked (<[k := v]> m) p]> (heap w)) w)
    | _ => (Ret tt, w)
    end.

(** [shallowCopy]: primitives and functions are returned as they are; an
    object is copied one level deep into a new object with the same
    prototype, [Object.assign(Object.create(Object.getPrototypeOf(obj)), obj)]:
    every attribute of the copy holds the very value (for an object, the
    very reference) the original holds.  Arrays and by-value objects have
    no identity in the model, and the copy of [Object.prototype] is not
    told from it: neither has a [setParams]. *)
Definition shallowCopy (v : value) : M value :=
  fun w =>
    match v with
    | VRef r =>
        match heap w !! r with
        | Some o => bind (alloc o) (fun r' => ret (VRef r')) w
        | None => (Ret v, w)
        end
    | _ => (Ret v, w)
    end.

(** ** User code *)

Definition hook_fn (A : Type) : Type := ref -> gmap ref obj -> A -> U -> result value * U.

Record hooks := mk_hooks {
  prep : hook_fn unit;
  exec : hook_fn value;
  execFallback : hook_fn (value * exn);
  post : hook_fn (value * value);
  prepAsync : hook_fn unit;
  execAsync : hook_fn value;
  execFallbackAsync : hook_fn (value * exn);
  postAsync : hook_fn (value * value)
}.

(** The methods a subclass inherits when it overrides nothing. *)
Definition base_hooks : hooks :=
  {| prep := fun _ _ _ s => (Ret VNull, s);
     exec := fun _ _ _ s => (Ret VNull, s);
     execFallback := fun _ _ a s => (Throw (snd a), s);
     post := fun _ _ a s => (Ret (snd a), s);
     prepAsync := fun _ _ _ s => (Ret VNull, s);
     execAsync := fun _ _ _ s => (Ret VNull, s);
     execFallbackAsync := fun _ _ a s => (Throw (snd a), s);
     postAsync := fun _ _ a s => (Ret (snd a), s) |}.

(** The overridable methods of each user subclass. *)
Variable user_class : nat -> hooks.

(** The join of the branches AsyncParallelBatchNode starts concurrently:
    its outcome, the shared context it leaves and the attempt counter it
    leaves on the receiver. *)
Variable parallel_join : ref -> gmap ref obj -> list value -> U -> result value * U * Z.

(** Calling an overridable method of [this]: the call is recorded with the
    receiver's attempt counter at that moment, then the user code runs. *)
Definition call {A : Type} (ph : phase) (sel : hooks -> hook_fn A)
    (this : ref) (args : list value) (a : A) : M value :=
  fun w =>
    match get_node (heap w) this with
    | Some n =>
        let w1 := emit (EvCall ph this (curRetry n) args) w in
        let '(r, s) := sel (user_class (impl n)) this (heap w1) a (shared w1) in
        (r, with_shared s w1)
    | None => (Throw (TypeError "not a function"), w)
    end.

(** ** BaseNode *)

(** [setParams]: the [params] attribute is replaced wholesale. *)
Definition BaseNode_setParams (this : ref) (p : value) : M unit :=
  if is_null p || negb (String.eqb (typeof p) "object")
  then throw (TypeError "Parameters must be an object")
  else update_node this (set_params p).

Definition validateString (v : value) (name : string) : M string :=
  match v with
  | VStr s => ret s
  | _ => throw (TypeError (name +:+ " must be a string"))
  end.

(** [next(node, action = "default")]. *)
Definition BaseNode_next (this : ref) (nd action : value) : M value :=
  let action := match action with VUndefined => VStr "default" | _ => action end in
  let* n := this_node "next" this in
  let* h := read heap in
  if negb (truthy nd) || negb (instanceof_BaseNode h nd)
  then throw (TypeError "Node must be a BaseNode instance")
  else
    let* a := validateString action "Action" in
    when_ (truthy (get_prop h (VRef (successors n)) a))
      (warnings_warn (Text ("Overwriting successor for action '" +:+ a +:+ "'"))) ;;;
    assign_prop (successors n) a nd ;;;
    ret nd.

(** [connect(other)]: [return this.next(other)]. *)
Definition BaseNode_connect (this : ref) (other : value) : M value :=
  BaseNode_next this other VUndefined.

Record ConditionalTransition := mk_transition {
  src : ref;
  action : string
}.

(** [withTransition(action)]. *)
Definition BaseNode_withTransition (this : ref) (act : value) : M ConditionalTransition :=
  let* a := validateString act "Action" in
  ret (mk_transition this a).

(** [ConditionalTransition.connect(tgt)]: [return this.src.next(tgt, this.action)]. *)
Definition ConditionalTransition_connect (t : ConditionalTransition) (tgt : value) : M value :=
  BaseNode_next (src t) tgt (VStr (action t)).

(** [BaseNode._exec]: [return this.exec(prepRes)]. *)
Definition BaseNode__exec (this : ref) (prepRes : value) : M value :=
  call Exec exec this [prepRes] prepRes.

(** ** Node: bounded retry *)

Definition sync_wait_text : string :=
  "Synchronous wait in browser JS is not recommended. Consider using AsyncNode instead.".

(** The [for] loop of [Node._exec], entered with [this.curRetry] already
    set.  [budget] bounds the number of iterations; [Z.to_nat maxRetries]
    is enough (see [Node_exec_loop_total]). *)
Fixpoint Node__exec_loop (budget : nat) (this : ref) (prepRes : value) : M value :=
  let* n := this_node "_exec" this in
  if (curRetry n <? maxRetries n)%Z then
    match budget with
    | O => diverge
    | S budget' =>
        try_catch (call Exec exec this [prepRes] prepRes)
          (fun e =>
             if (curRetry n =? maxRetries n - 1)%Z
             then call ExecFallback execFallback this [prepRes] (prepRes, e)
             else
               when_ (wait n >? 0)%Z
                 (warnings_warn (Text sync_wait_text) ;;;
                  log (EvSetTimeout (wait n * 1000))) ;;;
               update_node this (fun n' => set_curRetry (curRetry n' + 1) n') ;;;
               Node__exec_loop budget' this prepRes)
    end
  else ret VUndefined.

Definition Node__exec (this : ref) (prepRes : value) : M value :=
  update_node this (set_curRetry 0) ;;;
  let* n := this_node "_exec" this in
  Node__exec_loop (Z.to_nat (maxRetries n)) this prepRes.

(** [AsyncNode._exec]: the same loop over the asynchronous methods, with a
    suspending wait. *)
Fixpoint AsyncNode__exec_loop (budget : nat) (this : ref) (prepRes : value) : M value :=
  let* n := this_node "_exec" this in
  if (curRetry n <? maxRetries n)%Z then
    match budget with
    | O => diverge
    | S budget' =>
        try_catch (call ExecAsync execAsync this [prepRes] prepRes)
          (fun e =>
             if (curRetry n =? maxRetries n - 1)%Z
             then call ExecFallbackAsync execFallbackAsync this [prepRes] (prepRes, e)
             else
               when_ (wait n >? 0)%Z (log (EvSleep (wait n * 1000))) ;;;
               update_node this (fun n' => set_curRetry (curRetry n' + 1) n') ;;;
               AsyncNode__exec_loop budget' this prepRes)
    end
  else ret VUndefined.

Definition AsyncNode__exec (this : ref) (prepRes : value) : M value :=
  update_node this (set_curRetry 0) ;;;
  let* n := this_node "_exec" this in
  AsyncNode__exec_loop (Z.to_nat (maxRetries n)) this prepRes.

(** ** Batch nodes *)

(** [items.map(f)], and the [for ... of] loop that pushes each result: the
    elements in order, stopping at the first that does not return. *)
Fixpoint mapM (f : value -> M value) (l : list value) : M (list value) :=
  match l with
  | [] => ret []
  | x :: rest =>
      let* y := f x in
      let* ys := mapM f rest in
      ret (y :: ys)
  end.

Definition BatchNode__exec (this : ref) (items : value) : M value :=
  if negb (truthy items) then ret (VArr [])
  else
    match items with
    | VArr l =>
        let* ys := mapM (Node__exec this) l in
        ret (VArr ys)
    | _ =>
        warnings_warn (Text ("BatchNode expected an array but received " +:+ typeof items)) ;;;
        let* y := Node__exec this items in
        ret (VArr [y])
    end.

Definition AsyncBatchNode__exec (this : ref) (items : value) : M value :=
  if negb (truthy items) then ret (VArr [])
  else
    match items with
    | VArr l =>
        let* ys := mapM (AsyncNode__exec this) l in
        ret (VArr ys)
    | _ =>
        warnings_warn (Text ("AsyncBatchNode expected an array but received " +:+ typeof items)) ;;;
        let* y := AsyncNode__exec this items in
        ret (VArr [y])
    end.

Definition AsyncParallelBatchNode__exec (this : ref) (items : value) : M value :=
  if negb (truthy items) then ret (VArr [])
  else
    match items with
    | VArr l =>
        log (EvParallel this l) ;;;
        fun w =>
          let '(r, s, i) := parallel_join this (heap w) l (shared w) in
          (r, snd (update_node this (set_curRetry i) (with_shared s w)))
    | _ =>
        warnings_warn (Text ("AsyncParallelBatchNode expected an array but received " +:+ typeof items)) ;;;
        let* y := AsyncNode__exec this items in
        ret (VArr [y])
    end.

(** [this._exec(p)], resolved along the prototype chain.  AsyncFlow and its
    subclasses receive AsyncNode's [_exec] from [applyMixins]. *)
Definition dispatch_exec (this : ref) (prepRes : value) : M value :=
  let* n := this_node "_exec" this in
  match cls n with
  | BaseNode | Flow | BatchFlow => BaseNode__exec this prepRes
  | Node => Node__exec this prepRes
  | BatchNode => BatchNode__exec this prepRes
  | AsyncNode | AsyncFlow | AsyncBatchFlow | AsyncParallelBatchFlow => AsyncNode__exec this prepRes
  | AsyncBatchNode => AsyncBatchNode__exec this prepRes
  | AsyncParallelBatchNode => AsyncParallelBatchNode__exec this prepRes
  end.

(** ** Lifecycle and flows *)

(** [BaseNode._run]: prep, then the class's [_exec], then post. *)
Definition BaseNode__run (this : ref) : M value :=
  let* p := call Prep prep this [] tt in
  let* e := dispatch_exec this p in
  call Post post this [p; e] (p, e).

(** [AsyncNode._runAsync]. *)
Definition AsyncNode__runAsync (this : ref) : M value :=
  let* p_res := call PrepAsync prepAsync this [] tt in
  let* e_res := dispatch_exec this p_res in
  call PostAsync postAsync this [p_res; e_res] (p_res, e_res).

(** [AsyncNode._run]: overridden to prevent synchronous execution. *)
Definition AsyncNode__run (this : ref) : M value :=
  throw (Error "AsyncNode cannot be run synchronously. Use runAsync().").


(** [Flow.getNextNode(curr, action)]. *)
Definition Flow_getNextNode (curr : value) (act : value) : M value :=
  let nextAction := if truthy act then act else VStr "default" in
  let* rn := node_of "curr.successors" curr in
  let* h := read heap in
  let succ := VRef (successors (snd rn)) in
  let next := get_prop h succ (to_string nextAction) in
  when_ (negb (truthy next) && (0 <? size (own_entries h succ))%nat)
    (warnings_warn (FlowEnds (to_string nextAction) (dom (own_entries h succ)))) ;;;
  ret next.

(** The calls through which the flow classes recurse: running a node
    ([_run], resolved by class) and one turn of the [while (curr)] loop of
    an orchestration ([async] tells which of the two loops). *)
Inductive invocation :=
| CRun (this : ref)
| CLoop (async : bool) (curr p lastAction : value).

Section Methods.

Variable rec : invocation -> M value.

(** The body of [while (curr) { ... }] in [_orchestrate] (and, with
    [async], in [_orchestrateAsync]) followed by the rest of the loop. *)
Definition orchestrate_loop (async : bool) (curr p lastAction : value) : M value :=
  if truthy curr then
    let* currentNode := shallowCopy curr in
    let* rn := node_of "currentNode.setParams" currentNode in
    BaseNode_setParams (fst rn) p ;;;
    let* lastAction' :=
      (if async && instanceof_AsyncNode (cls (snd rn))
       then AsyncNode__runAsync (fst rn)
       else rec (CRun (fst rn))) in
    let* next := Flow_getNextNode curr lastAction' in
    rec (CLoop async next p lastAction')
  else ret lastAction.

(** [let p = params || { ...this.params }]. *)
Definition merged_params (n : node) (override : value) : M value :=
  if truthy override then ret override
  else
    let* h := read heap in
    let* r := alloc (OMap (own_entries h (params n))) in
    ret (VRef r).

(** [Flow._orchestrate(shared, params = null)]. *)
Definition Flow__orchestrate (this : ref) (override : value) : M value :=
  let* n := this_node "_orchestrate" this in
  if negb (truthy (startNode n))
  then warnings_warn (Text "Flow has no start node") ;;; ret VNull
  else
    let* p := merged_params n override in
    rec (CLoop false (startNode n) p VNull).

(** [AsyncFlow._orchestrateAsync(shared, params = null)]. *)
Definition AsyncFlow__orchestrateAsync (this : ref) (override : value) : M value :=
  let* n := this_node "_orchestrateAsync" this in
  if negb (truthy (startNode n))
  then warnings_warn (Text "AsyncFlow has no start node") ;;; ret VNull
  else
    let* p := merged_params n override in
    rec (CLoop true (startNode n) p VNull).

(** [Flow._run]. *)
Definition Flow__run (this : ref) : M value :=
  let* p := call Prep prep this [] tt in
  let* o := Flow__orchestrate this VNull in
  call Post post this [p; o] (p, o).

(** [AsyncFlow._runAsync]. *)
Definition AsyncFlow__runAsync (this : ref) : M value :=
  let* p := call PrepAsync prepAsync this [] tt in
  let* o := AsyncFlow__orchestrateAsync this VNull in
  call PostAsync postAsync this [p; o] (p, o).

(** [{ ...this.params, ...bp }]: a new mapping, the entries of [bp] winning. *)
Definition batch_params (this : ref) (bp : value) : M value :=
  let* n := this_node "_run" this in
  let* h := read heap in
  let* r := alloc (OMap (own_entries h bp ∪ own_entries h (params n))) in
  ret (VRef r).

(** [for (const bp of pr) { body bp }]. *)
Fixpoint forEach (body : value -> M value) (l : list value) : M unit :=
  match l with
  | [] => ret tt
  | bp :: rest => body bp ;;; forEach body rest
  end.

(** [BatchFlow._run]. *)
Definition BatchFlow__run (this : ref) : M value :=
  let* pr0 := call Prep prep this [] tt in
  let pr := if truthy pr0 then pr0 else VArr [] in
  match pr with
  | VArr l =>
      forEach (fun bp => let* p := batch_params this bp in Flow__orchestrate this p) l ;;;
      call Post post this [pr; VNull] (pr, VNull)
  | _ =>
      warnings_warn (Text ("BatchFlow expected an array from prep() but received " +:+ typeof pr)) ;;;
      call Post post this [pr; VNull] (pr, VNull)
  end.

(** [AsyncBatchFlow._runAsync]. *)
Definition AsyncBatchFlow__runAsync (this : ref) : M value :=
  let* pr0 := call PrepAsync prepAsync this [] tt in
  let pr := if truthy pr0 then pr0 else VArr [] in
  match pr with
  | VArr l =>
      forEach (fun bp => let* p := batch_params this bp in AsyncFlow__orchestrateAsync this p) l ;;;
      call PostAsync postAsync this [pr; VNull] (pr, VNull)
  | _ =>
      warnings_warn (Text ("AsyncBatchFlow expected an array from prepAsync() but received " +:+ typeof pr)) ;;;
      call PostAsync postAsync this [pr; VNull] (pr, VNull)
  end.

(** [this._run(shared)], resolved along the prototype chain.  [applyMixins]
    copies AsyncNode's throwing [_run] onto AsyncFlow's prototype, which has
    none of its own, so the asynchronous flows throw too. *)
Definition dispatch_run (this : ref) : M value :=
  let* n := this_node "_run" this in
  match cls n with
  | BaseNode | Node | BatchNode => BaseNode__run this
  | Flow => Flow__run this
  | BatchFlow => BatchFlow__run this
  | AsyncNode | AsyncBatchNode | AsyncParallelBatchNode
  | AsyncFlow | AsyncBatchFlow | AsyncParallelBatchFlow => AsyncNode__run this
  end.

Definition invoke (c : invocation) : M value :=
  match c with
  | CRun this => dispatch_run this
  | CLoop async curr p lastAction => orchestrate_loop async curr p lastAction
  end.

End Methods.

(** Node graphs may have cycles and flows may nest, so a run need not end:
    [fuel] bounds the depth of pending invocations, and a run that exhausts
    it is reported as [Diverge] together with the world reached so far. *)
Fixpoint run_with (fuel : nat) (c : invocation) : M value :=
  match fuel with
  | O => diverge
  | S fuel' => invoke (run_with fuel') c
  end.

(** [BaseNode.run(shared)]. *)
Definition BaseNode_run (fuel : nat) (this : ref) : M value :=
  let* n := this_node "run" this in
  let* h := read heap in
  when_ (0 <? size (own_entries h (VRef (successors n))))%nat
    (warnings_warn (Text "Node won't run successors. Use Flow.")) ;;;
  dispatch_run (run_with fuel) this.

(** [AsyncNode.runAsync(shared)]. *)
Definition AsyncNode_runAsync (this : ref) : M value :=
  let* n := this_node "runAsync" this in
  let* h := read heap in
  when_ (0 <? size (own_entries h (VRef (successors n))))%nat
    (warnings_warn (Text "Node won't run successors. Use AsyncFlow.")) ;;;
  AsyncNode__runAsync this.

(** [AsyncFlow.runAsync(shared)]. *)
Definition AsyncFlow_runAsync (fuel : nat) (this : ref) : M value :=
  AsyncFlow__runAsync (run_with fuel) this.

End Engine.

Arguments world : clear implicits.
Arguments hooks : clear implicits.
Arguments hook_fn : clear implicits.
Arguments M : clear implicits.
Arguments own_entries : simpl never.
Arguments warnings_warn : simpl never.

Notation "'let*' x ':=' m 'in' k" := (bind m (fun x => k))
  (at level 10, x name, m at level 100, k at level 200).
Notation "m ';;;' k" := (bind m (fun _ => k))
  (at level 100, k at level 200, right associativity).


(** ** Constructors

    [new C(...)] for a user subclass [impl] of the framework class [c]: the
    two mappings are created first ([this.params = {}],
    [this.successors = {}]), then the attributes of the class.  Attributes a
    class does not assign are never read for that class; the record holds 0
    and null there.  No constructor validates its arguments.
    AsyncBatchNode's constructor, which also builds a private BatchNode, is
    not embedded. *)

Section Constructors.

Context {U : Type}.

(** [new BaseNode()]. *)
Definition BaseNode_new (impl : nat) : M U ref :=
  let* p := alloc (OMap ∅) in
  let* s := alloc (OMap ∅) in
  alloc (ONode (mk_node BaseNode impl (VRef p) s 0 0 0 VNull)).

(** [new Node(maxRetries = 1, wait = 0)], also for BatchNode, AsyncNode and
    AsyncParallelBatchNode, which declare no constructor of their own.  An
    omitted argument is [None]. *)
Definition Node_new (c : class) (impl : nat) (maxRetries wait : option Z) : M U ref :=
  let* p := alloc (OMap ∅) in
  let* s := alloc (OMap ∅) in
  alloc (ONode (mk_node c impl (VRef p) s (default 1%Z maxRetries) (default 0%Z wait) 0 VNull)).

(** [new Flow(startNode = null)], also for BatchFlow. *)
Definition Flow_new (c : class) (impl : nat) (startNode : value) : M U ref :=
  let start := match startNode with VUndefined => VNull | _ => startNode end in
  let* p := alloc (OMap ∅) in
  let* s := alloc (OMap ∅) in
  alloc (ONode (mk_node c impl (VRef p) s 0 0 0 start)).

(** [new AsyncFlow(startNode = null)], also for its two subclasses: the
    retry attributes are set to 0, 1 and 0. *)
Definition AsyncFlow_new (c : class) (impl : nat) (startNode : value) : M U ref :=
  let start := match startNode with VUndefined => VNull | _ => startNode end in
  let* p := alloc (OMap ∅) in
  let* s := alloc (OMap ∅) in
  alloc (ONode (mk_node c impl (VRef p) s 1 0 0 start)).

End Constructors.

(** ** Vocabulary of the statements *)

(** The overwrite warning of [next], delivered to each handler. *)
Definition overwrite_warning (hs : list handler) (s : string) : list event :=
  map (fun hd => EvHandler hd (Text ("Overwriting successor for action '" +:+ s +:+ "'"))) hs.

(** The events [next] emits on a table with own entries [m]: the warning,
    when the table already answers to the label. *)
Definition overwrite_events (hs : list handler) (m : gmap string value) (s : string) : list event :=
  if truthy (plain_get m s) then overwrite_warning hs s else [].

(** The names every plain object answers to without holding them: the
    members of [Object.prototype]. *)
Definition inherited (k : string) : bool :=
  String.eqb k "__proto__" || bool_decide (k ∈ Object_prototype_functions).

(** An action as the specification has it: a string, or a falsy value
    standing for no action. *)
Definition is_label (act : value) : bool :=
  match act with VStr _ => true | _ => negb (truthy act) end.

(** The label an action selects. *)
Definition label_of (act : value) : string :=
  if truthy act then to_string act else "default".

(** Which events are calls of lifecycle methods. *)
Definition is_call (e : event) : bool :=
  match e with EvCall _ _ _ _ => true | _ => false end.

Definition calls_of (evs : list event) : list event := List.filter is_call evs.

(** [count] consecutive calls of [exec] on [this], the attempt counter
    running from [from]. *)
Definition exec_calls (this : ref) (prepRes : value) (from : Z) (count : nat) : list event :=
  map (fun i : nat => EvCall Exec this (from + Z.of_nat i) [prepRes]) (seq 0 count).

(** What the synchronous loop does between two attempts: with a positive
    [wait], one warning and one timer whose callback is empty. *)
Definition wait_events (hs : list handler) (z : Z) : list event :=
  if (z >? 0)%Z
  then map (fun hd => EvHandler hd (Text sync_wait_text)) hs ++ [EvSetTimeout (z * 1000)]
  else [].

(** The heap in which attempt [i] of a retry loop on the node [this] runs:
    the heap [hp] in which [_exec] was called, with the attempt counter of
    [this] at [i]. *)
Definition attempt_heap (hp : gmap ref obj) (this : ref) (n : node) (i : Z) : gmap ref obj :=
  <[this := ONode (set_curRetry i n)]> hp.

(** The shared context in which attempt [i] (counted from 0) of a run of
    [_exec] starts, the earlier attempts having thrown: each attempt calls
    [f] on the prep result in the context the previous attempt left. *)
Fixpoint shared_before {U : Type} (f : hook_fn U value) (hp : gmap ref obj) (this : ref)
    (n : node) (p : value) (s : U) (i : nat) : U :=
  match i with
  | O => s
  | S j => snd (f this (attempt_heap hp this n (Z.of_nat j)) p (shared_before f hp this n p s j))
  end.

(** What attempt [i] of the run does: the outcome of [f] and the shared
    context it leaves. *)
Definition attempt {U : Type} (f : hook_fn U value) (hp : gmap ref obj) (this : ref)
    (n : node) (p : value) (s : U) (i : nat) : result value * U :=
  f this (attempt_heap hp this n (Z.of_nat i)) p (shared_before f hp this n p s i).

Definition throws {U : Type} (r : result value * U) : Prop := exists e, fst r = Throw e.

(** [count] failed attempts of exec on [this], the attempt counter running
    from [from], each followed by what the synchronous loop does before the
    next attempt. *)
Fixpoint failed_attempts (hs : list handler) (this : ref) (p : value) (z : Z) (from : Z)
    (count : nat) : list event :=
  match count with
  | O => []
  | S c => EvCall Exec this from [p] :: wait_events hs z
           ++ failed_attempts hs this p z (from + 1) c
  end.

(** The events of the synchronous classes: calls, warnings, timers.  A
    suspension is not one of them. *)
Definition sync_event (e : event) : bool :=
  match e with
  | EvCall _ _ _ _ | EvHandler _ _ | EvSetTimeout _ => true
  | EvSleep _ | EvParallel _ _ => false
  end.

(** The receiver's attempt counter, as user code reads it. *)
Definition attempt_of (hp : gmap ref obj) (this : ref) : option Z :=
  curRetry <$> get_node hp this.

(** The heap with the [wait] attribute of [this] replaced. *)
Definition rewait (this : ref) (z : Z) (hp : gmap ref obj) : gmap ref obj :=
  match get_node hp this with
  | Some n => <[this := ONode (set_wait z n)]> hp
  | None => hp
  end.

(** The events a synchronous retry can leave: calls of lifecycle methods,
    the warning about synchronous waiting, a timer with an empty callback. *)
Definition sync_retry_event (z : Z) (e : event) : Prop :=
  is_call e = true
  \/ e = EvSetTimeout (z * 1000)
  \/ exists hd, e = EvHandler hd (Text sync_wait_text).

(** User code that does not look at the [wait] attribute of its receiver. *)
Definition wait_blind {U : Type} (hk : hooks U) (this : ref) : Prop :=
  (forall hp z a s, exec hk this (rewait this z hp) a s = exec hk this hp a s)
  /\ (forall hp z a s, execFallback hk this (rewait this z hp) a s = execFallback hk this hp a s).

(** Two worlds apart in the [wait] attribute of [this] only, and in the
    warnings and timers left so far: same objects otherwise, same shared
    context, same calls of lifecycle methods. *)
Definition wait_apart {U : Type} (this : ref) (z : Z) (w wz : world U) : Prop :=
  heap wz = rewait this z (heap w)
  /\ shared wz = shared w
  /\ calls_of (trace wz) = calls_of (trace w).

(** The error of [AsyncNode._run]. *)
Definition sync_run_error : exn :=
  Error "AsyncNode cannot be run synchronously. Use runAsync().".

(** [f] applied to the elements of [xs] one after the other, each
    application returning the corresponding element of [ys], from world [w]
    to world [w']. *)
Fixpoint each_returns {U : Type} (f : value -> M U value) (xs ys : list value)
    (w w' : world U) : Prop :=
  match xs, ys with
  | [], [] => w' = w
  | x :: xs', y :: ys' => exists w1, f x w = (Ret y, w1) /\ each_returns f xs' ys' w1 w'
  | _, _ => False
  end.

(** The world after one warning has been delivered. *)
Definition warned {U : Type} (msg : message) (w : world U) : world U :=
  mk_world (heap w) (handlers w)
    (trace w ++ map (fun hd => EvHandler hd msg) (handlers w)) (shared w).

(** A result wrapped into a one-element array. *)
Definition singleton_result (r : result value) : result value :=
  match r with
  | Ret y => Ret (VArr [y])
  | Throw e => Throw e
  | Diverge => Diverge
  end.

(** A base mapping merged with a batch mapping, the batch's keys winning. *)
Definition merged_with (base bp : gmap string value) (k : string) : option value :=
  match bp !! k with
  | Some v => Some v
  | None => base !! k
  end.

(** One orchestration per element of [ps], in order: each is given a new
    mapping object holding the flow's own params merged with the element,
    each returns (its action label [a] is not used), and the next starts
    from the world the previous one left. *)
Fixpoint sub_runs {U : Type} (orch : value -> M U value) (this : ref) (ps : list value)
    (w w' : world U) : Prop :=
  match ps with
  | [] => w' = w
  | bp :: rest =>
      exists (n : node) (m : gmap string value) (a : value) (w1 : world U),
        get_node (heap w) this = Some n
        /\ (forall k, m !! k = merged_with (own_entries (heap w) (params n)) (own_entries (heap w) bp) k)
        /\ orch (VRef (fresh (dom (heap w))))
             (with_heap (<[fresh (dom (heap w)) := OMap m]> (heap w)) w) = (Ret a, w1)
        /\ sub_runs orch this rest w1 w'
  end.

(** Every object of [w] is still there, unchanged, in [w']. *)
Definition heap_kept {U : Type} (w w' : world U) : Prop :=
  forall x o, heap w !! x = Some o -> heap w' !! x = Some o.

(** The same object up to the attempt counter of a node. *)
Definition same_but_attempt (o o' : obj) : Prop :=
  match o, o' with
  | ONode n, ONode n' => exists i, n' = set_curRetry i n
  | ONode _, _ | _, ONode _ => False
  | _, _ => o' = o
  end.

(** Every object of [w] is still there in [w'], unchanged, except that the
    attempt counter of the node [this] may have moved. *)
Definition only_attempt {U : Type} (this : ref) (w w' : world U) : Prop :=
  forall x o, heap w !! x = Some o ->
    exists o', heap w' !! x = Some o'
               /\ if decide (x = this) then same_but_attempt o o' else o' = o.

(** A computation all of whose outcomes, normal or not, are related to the
    world it started from. *)
Definition preserves {U A : Type} (R : world U -> world U -> Prop) (m : M U A) : Prop :=
  forall w r w', m w = (r, w') -> R w w'.

(** What an invocation may change: running a node, the attempt counter of
    that node; a turn of an orchestration loop, nothing that exists. *)
Definition frame_of {U : Type} (c : invocation) : world U -> world U -> Prop :=
  match c with
  | CRun this => only_attempt this
  | CLoop _ _ _ _ => heap_kept
  end.

(** Every object of [w] other than [r] is still there, unchanged, in [w']. *)
Definition kept_except {U : Type} (r : ref) (w w' : world U) : Prop :=
  forall x o, x <> r -> heap w !! x = Some o -> heap w' !! x = Some o.

(** The values [setParams] accepts: non-null values whose [typeof] is
    [object] (arrays included). *)
Definition is_object (v : value) : bool :=
  match v with
  | VArr _ | VObj _ | VRef _ | VNative ObjectPrototype => true
  | _ => false
  end.


(** What the asynchronous loop does between two attempts: with a positive
    [wait], one suspension of [wait * 1000] ms. *)
Definition sleep_events (z : Z) : list event :=
  if (z >? 0)%Z then [EvSleep (z * 1000)] else [].

(** [count] failed attempts of execAsync on [this], each followed by the
    wait, the attempt counter running from [from]. *)
Fixpoint async_failed_attempts (this : ref) (p : value) (z : Z) (from : Z) (count : nat)
    : list event :=
  match count with
  | O => []
  | S c => EvCall ExecAsync this from [p] :: sleep_events z
           ++ async_failed_attempts this p z (from + 1) c
  end.

(** A constructor call, [new C(args)], for the four constructors embedded:
    [New_Node c] is for Node and the classes [c] that inherit its
    constructor unchanged, [New_Flow c] for Flow and BatchFlow,
    [New_AsyncFlow c] for AsyncFlow and its two subclasses. *)
Inductive ctor_call :=
| New_BaseNode
| New_Node (c : class) (maxRetries wait : option Z)
| New_Flow (c : class) (startNode : value)
| New_AsyncFlow (c : class) (startNode : value).

Definition construct {U : Type} (impl : nat) (k : ctor_call) : M U ref :=
  match k with
  | New_BaseNode => BaseNode_new impl
  | New_Node c mr wt => Node_new c impl mr wt
  | New_Flow c s => Flow_new c impl s
  | New_AsyncFlow c s => AsyncFlow_new c impl s
  end.

(** ** Concrete instances

    Small worlds and user subclasses on which the methods are evaluated. *)

(** A world as the module leaves it after loading: no object, the default
    handler list, nothing logged. *)
Definition world_init : world unit := mk_world ∅ warnings_handlers_init [] tt.

(** Two freshly constructed Node objects, [a] at 0 and [b] at 3, each with
    its own empty [successors] (1 and 4) and [params] (2 and 5) mappings. *)
Definition two_nodes : world unit :=
  mk_world
    (<[0 := ONode (mk_node Node 0 (VRef 2) 1 1 0 0 VNull)]>
       (<[1 := OMap ∅]>
          (<[2 := OMap ∅]>
             (<[3 := ONode (mk_node Node 0 (VRef 5) 4 1 0 0 VNull)]>
                (<[4 := OMap ∅]>
                   (<[5 := OMap ∅]> ∅))))))
    warnings_handlers_init [] tt.

(** Subclasses that override nothing, and a join that is never reached. *)
Definition no_overrides : nat -> hooks unit := fun _ => base_hooks.

Definition no_join : ref -> gmap ref obj -> list value -> unit -> result value * unit * Z :=
  fun _ _ _ s => (Ret (VArr []), s, 0%Z).

(** One BatchNode at 0 with [maxRetries = 2], nothing overridden. *)
Definition one_batch_node : world unit :=
  mk_world
    (<[0 := ONode (mk_node BatchNode 0 (VRef 2) 1 2 0 0 VNull)]>
       (<[1 := OMap ∅]> (<[2 := OMap ∅]> ∅)))
    warnings_handlers_init [] tt.

(** Retrying nodes.  The shared context counts the calls of exec.
    [hopeless] throws at every attempt; [flaky] throws at attempt 0 and
    returns at attempt 1; [counting] looks at the shared context only: it
    throws at its first two calls and returns at the third. *)
Definition hopeless : hooks nat :=
  {| prep := prep base_hooks;
     exec := fun _ _ _ s => (Throw (Error "down"), S s);
     execFallback := execFallback base_hooks;
     post := post base_hooks;
     prepAsync := prepAsync base_hooks;
     execAsync := execAsync base_hooks;
     execFallbackAsync := execFallbackAsync base_hooks;
     postAsync := postAsync base_hooks |}.

Definition flaky : hooks nat :=
  {| prep := prep base_hooks;
     exec := fun this hp _ s =>
       match attempt_of hp this with
       | Some i => if (i <? 1)%Z then (Throw (Error "transient"), S s)
                   else (Ret (VStr "done"), S s)
       | None => (Throw (Error "transient"), S s)
       end;
     execFallback := execFallback base_hooks;
     post := post base_hooks;
     prepAsync := prepAsync base_hooks;
     execAsync := execAsync base_hooks;
     execFallbackAsync := execFallbackAsync base_hooks;
     postAsync := postAsync base_hooks |}.

Definition counting : hooks nat :=
  {| prep := prep base_hooks;
     exec := fun _ _ _ s =>
       if (s <? 2)%nat then (Throw (Error "not yet"), S s) else (Ret (VStr "done"), S s);
     execFallback := execFallback base_hooks;
     post := post base_hooks;
     prepAsync := prepAsync base_hooks;
     execAsync := fun _ _ _ s =>
       if (s <? 2)%nat then (Throw (Error "not yet"), S s) else (Ret (VStr "done"), S s);
     execFallbackAsync := execFallbackAsync base_hooks;
     postAsync := postAsync base_hooks |}.

Definition retry_classes : nat -> hooks nat :=
  fun i => match i with 0 => hopeless | 1 => flaky | _ => counting end.

Definition retry_join : ref -> gmap ref obj -> list value -> nat -> result value * nat * Z :=
  fun _ _ _ s => (Ret (VArr []), s, 0%Z).

(** [new Node(3, 2)] of the first subclass at 0, [new Node(3, 0)] of the
    second at 3, an AsyncNode at 6, then of the third subclass a
    [new Node(3, 0)] at 9, a [new BatchNode(2, 1)] at 12 and a
    [new AsyncNode(3, 1)] at 15. *)
Definition hopeless_node : node := mk_node Node 0 (VRef 2) 1 3 2 0 VNull.
Definition flaky_node : node := mk_node Node 1 (VRef 5) 4 3 0 0 VNull.
Definition async_node : node := mk_node AsyncNode 1 (VRef 8) 7 3 0 0 VNull.
Definition counting_node : node := mk_node Node 2 (VRef 11) 10 3 0 0 VNull.
Definition counting_batch_node : node := mk_node BatchNode 2 (VRef 14) 13 2 1 0 VNull.
Definition counting_async_node : node := mk_node AsyncNode 2 (VRef 17) 16 3 1 0 VNull.

Definition retry_world : world nat :=
  mk_world
    (<[0 := ONode hopeless_node]>
       (<[1 := OMap ∅]>
          (<[2 := OMap ∅]>
             (<[3 := ONode flaky_node]>
                (<[4 := OMap ∅]>
                   (<[5 := OMap ∅]>
                      (<[6 := ONode async_node]>
                         (<[7 := OMap ∅]>
                            (<[8 := OMap ∅]>
    (<[9 := ONode counting_node]> (<[10 := OMap ∅]> (<[11 := OMap ∅]>
    (<[12 := ONode counting_batch_node]> (<[13 := OMap ∅]> (<[14 := OMap ∅]>
    (<[15 := ONode counting_async_node]> (<[16 := OMap ∅]> (<[17 := OMap ∅]> ∅))))))))))))))))))
    warnings_handlers_init [] 0.

(** A flow over three nodes.  The shared context lists the nodes whose
    exec has run.  [A] has successors [go -> B] and [default -> C], and its
    post returns the empty string. *)
Definition visit (name : string) (act : value) : hooks (list string) :=
  {| prep := prep base_hooks;
     exec := fun _ _ _ s => (Ret VNull, s ++ [name]);
     execFallback := execFallback base_hooks;
     post := fun _ _ _ s => (Ret act, s);
     prepAsync := prepAsync base_hooks;
     execAsync := execAsync base_hooks;
     execFallbackAsync := execFallbackAsync base_hooks;
     postAsync := postAsync base_hooks |}.

Definition fork_classes : nat -> hooks (list string) :=
  fun i =>
    match i with
    | 0 => visit "A" (VStr "")
    | 1 => visit "B" VNull
    | 2 => visit "C" VNull
    | 4 => visit "D" (VStr "toString")
    | _ => base_hooks
    end.

Definition fork_join : ref -> gmap ref obj -> list value -> list string
                       -> result value * list string * Z :=
  fun _ _ _ s => (Ret (VArr []), s, 0%Z).

Definition node_A : node := mk_node Node 0 (VRef 2) 1 1 0 0 VNull.
Definition node_B : node := mk_node Node 1 (VRef 5) 4 1 0 0 VNull.
Definition node_C : node := mk_node Node 2 (VRef 8) 7 1 0 0 VNull.
Definition fork_flow : node := mk_node Flow 3 (VRef 11) 10 0 0 0 (VRef 0).

Definition fork_world : world (list string) :=
  mk_world
    (<[0 := ONode node_A]>
       (<[1 := OMap (<["go" := VRef 3]> (<["default" := VRef 6]> ∅))]>
          (<[2 := OMap (<["mode" := VStr "original"]> ∅)]>
             (<[3 := ONode node_B]>
                (<[4 := OMap ∅]>
                   (<[5 := OMap ∅]>
                      (<[6 := ONode node_C]>
                         (<[7 := OMap ∅]>
                            (<[8 := OMap ∅]>
                               (<[9 := ONode fork_flow]>
                                  (<[10 := OMap ∅]>
                                     (<[11 := OMap ∅]> ∅))))))))))))
    warnings_handlers_init [] [].

(** A flow of one step.  [D] has the one successor [done -> C], and its
    post returns the action [toString], under which nothing is registered. *)
Definition node_D : node := mk_node Node 4 (VRef 2) 1 1 0 0 VNull.
Definition stray_flow : node := mk_node Flow 3 (VRef 8) 7 0 0 0 (VRef 0).

Definition stray_world : world (list string) :=
  mk_world
    (<[0 := ONode node_D]>
       (<[1 := OMap (<["done" := VRef 3]> ∅)]>
          (<[2 := OMap ∅]>
             (<[3 := ONode (mk_node Node 2 (VRef 5) 4 1 0 0 VNull)]>
                (<[4 := OMap ∅]>
                   (<[5 := OMap ∅]>
                      (<[6 := ONode stray_flow]>
                         (<[7 := OMap ∅]>
                            (<[8 := OMap ∅]> ∅)))))))))
    warnings_handlers_init [] [].

(** A batch flow over one node.  The node's exec records the [id] and the
    [base] entry of the parameters it runs with; the flow's prep yields
    three parameter mappings and its own params are [base = 7, id = 0]. *)
Definition params_of (hp : gmap ref obj) (this : ref) : value :=
  match get_node hp this with
  | Some n => params n
  | None => VUndefined
  end.

Definition recorder : hooks (list value) :=
  {| prep := prep base_hooks;
     exec := fun this hp _ s =>
       (Ret VNull, s ++ [get_prop hp (params_of hp this) "id";
                         get_prop hp (params_of hp this) "base"]);
     execFallback := execFallback base_hooks;
     post := post base_hooks;
     prepAsync := prepAsync base_hooks;
     execAsync := execAsync base_hooks;
     execFallbackAsync := execFallbackAsync base_hooks;
     postAsync := postAsync base_hooks |}.

Definition batch_items : list value :=
  [VObj (<["id" := VNum 1]> ∅); VObj (<["id" := VNum 2]> ∅); VObj (<["id" := VNum 3]> ∅)].

Definition three_ids : hooks (list value) :=
  {| prep := fun _ _ _ s => (Ret (VArr batch_items), s);
     exec := exec base_hooks;
     execFallback := execFallback base_hooks;
     post := post base_hooks;
     prepAsync := prepAsync base_hooks;
     execAsync := execAsync base_hooks;
     execFallbackAsync := execFallbackAsync base_hooks;
     postAsync := postAsync base_hooks |}.

Definition batch_classes : nat -> hooks (list value) :=
  fun i => match i with O => recorder | _ => three_ids end.

Definition batch_join : ref -> gmap ref obj -> list value -> list value
                        -> result value * list value * Z :=
  fun _ _ _ s => (Ret (VArr []), s, 0%Z).

Definition batch_worker : node := mk_node Node 0 (VRef 2) 1 1 0 0 VNull.
Definition batch_flow : node := mk_node BatchFlow 1 (VRef 5) 4 0 0 0 (VRef 0).

Definition batch_world : world (list value) :=
  mk_world
    (<[0 := ONode batch_worker]>
       (<[1 := OMap ∅]>
          (<[2 := OMap ∅]>
             (<[3 := ONode batch_flow]>
                (<[4 := OMap ∅]>
                   (<[5 := OMap (<["base" := VNum 7]> (<["id" := VNum 0]> ∅))]> ∅))))))
    warnings_handlers_init [] [].

(** A tour of the classes.  The shared context counts the calls of prep.
    [stepper] returns a different text from each method; its execAsync
    throws at attempt 0 and returns at attempt 1.  [empty_batches] is a
    batch flow whose prepAsync finds nothing to do. *)
Definition stepper : hooks nat :=
  {| prep := fun _ _ _ s => (Ret (VStr "p"), S s);
     exec := fun _ _ _ s => (Ret (VStr "e"), s);
     execFallback := execFallback base_hooks;
     post := fun _ _ _ s => (Ret (VStr "a"), s);
     prepAsync := fun _ _ _ s => (Ret (VStr "p"), S s);
     execAsync := fun this hp _ s =>
       match attempt_of hp this with
       | Some i => if (i <? 1)%Z then (Throw (Error "transient"), s)
                   else (Ret (VStr "done"), s)
       | None => (Throw (Error "transient"), s)
       end;
     execFallbackAsync := execFallbackAsync base_hooks;
     postAsync := fun _ _ _ s => (Ret (VStr "a"), s) |}.

Definition tour_classes : nat -> hooks nat :=
  fun i => match i with O => stepper | _ => base_hooks end.

Definition tour_join : ref -> gmap ref obj -> list value -> nat -> result value * nat * Z :=
  fun _ _ _ s => (Ret (VArr []), s, 0%Z).

Definition plain_node : node := mk_node BaseNode 0 (VRef 2) 1 0 0 0 VNull.
Definition idle_node : node := mk_node Node 1 (VRef 5) 4 0 0 0 VNull.
Definition async_batch_node : node := mk_node AsyncBatchNode 1 (VRef 8) 7 1 0 0 VNull.
Definition empty_flow : node := mk_node Flow 1 (VRef 11) 10 0 0 0 VNull.
Definition retrying_async_node : node := mk_node AsyncNode 0 (VRef 14) 13 3 1 0 VNull.
Definition wired_async_node : node := mk_node AsyncNode 1 (VRef 17) 16 1 0 0 VNull.
Definition short_flow : node := mk_node Flow 1 (VRef 20) 19 0 0 0 (VRef 0).
Definition async_flow : node := mk_node AsyncFlow 1 (VRef 23) 22 1 0 0 (VRef 0).
Definition empty_batches : node := mk_node AsyncBatchFlow 1 (VRef 26) 25 1 0 0 (VRef 0).

Definition tour_world : world nat :=
  mk_world
    (<[0 := ONode plain_node]> (<[1 := OMap ∅]> (<[2 := OMap ∅]>
    (<[3 := ONode idle_node]> (<[4 := OMap ∅]> (<[5 := OMap ∅]>
    (<[6 := ONode async_batch_node]> (<[7 := OMap ∅]> (<[8 := OMap ∅]>
    (<[9 := ONode empty_flow]> (<[10 := OMap ∅]> (<[11 := OMap ∅]>
    (<[12 := ONode retrying_async_node]> (<[13 := OMap ∅]> (<[14 := OMap ∅]>
    (<[15 := ONode wired_async_node]>
       (<[16 := OMap (<["default" := VRef 0]> ∅)]> (<[17 := OMap ∅]>
    (<[18 := ONode short_flow]> (<[19 := OMap ∅]> (<[20 := OMap ∅]>
    (<[21 := ONode async_flow]> (<[22 := OMap ∅]> (<[23 := OMap ∅]>
    (<[24 := ONode empty_batches]> (<[25 := OMap ∅]> (<[26 := OMap ∅]> ∅)))))))))))))))))))))))))))
    warnings_handlers_init [] 0.
(** ** Properties *)

Section Properties.

Context {U : Type}.
Variable user_class : nat -> hooks U.
Variable parallel_join : ref -> gmap ref obj -> list value -> U -> result value * U * Z.

Implicit Types (w : world U) (this : ref) (n : node) (v : value).

(** *** The monad *)

Lemma bind_Ret {A B : Type} (m : M U A) (k : A -> M U B) w a w1 :
  m w = (Ret a, w1) -> bind m k w = k a w1.
Proof. intros E. unfold bind. by rewrite E. Qed.

Lemma bind_Throw {A B : Type} (m : M U A) (k : A -> M U B) w e w1 :
  m w = (Throw e, w1) -> bind m k w = (Throw e, w1).
Proof. intros E. unfold bind. by rewrite E. Qed.

Lemma bind_Diverge {A B : Type} (m : M U A) (k : A -> M U B) w w1 :
  m w = (Diverge, w1) -> bind m k w = (Diverge, w1).
Proof. intros E. unfold bind. by rewrite E. Qed.

Lemma bind_inv {A B : Type} (m : M U A) (k : A -> M U B) w (r : result B) w' :
  bind m k w = (r, w') ->
  (exists a w1, m w = (Ret a, w1) /\ k a w1 = (r, w'))
  \/ (exists e, m w = (Throw e, w') /\ r = Throw e)
  \/ (m w = (Diverge, w') /\ r = Diverge).
Proof.
  unfold bind. destruct (m w) as [[a|e|] w1]; intros E.
  - left. eauto.
  - right. left. inversion E; subst. eauto.
  - right. right. inversion E; subst. eauto.
Qed.

(** *** The warning channel *)

Lemma foldl_emit (msg : message) (hs : list handler) w :
  foldl (fun w' h => emit (EvHandler h msg) w') w hs
  = mk_world (heap w) (handlers w) (trace w ++ map (fun h => EvHandler h msg) hs) (shared w).
Proof.
  revert w. induction hs as [|h hs IH]; intros w; simpl.
  - rewrite app_nil_r. by destruct w.
  - rewrite IH. simpl. by rewrite <- app_assoc.
Qed.

(** One emission reaches every registered handler once, in registration
    order, and does nothing else. *)
Lemma warnings_warn_eq (msg : message) w :
  warnings_warn msg w
  = (Ret tt, mk_world (heap w) (handlers w)
               (trace w ++ map (fun h => EvHandler h msg) (handlers w)) (shared w)).
Proof. unfold warnings_warn. by rewrite foldl_emit. Qed.

(** C9, as amended.  With the handler list the module starts with, a warning
    is written to the standard error stream; clearHandlers empties the list,
    and a warning emitted afterwards reaches no handler at all: it is
    dropped, not written to standard error, until a handler is added again. *)
Theorem warnings_after_clearHandlers (msg : message) w :
  trace (snd (warnings_warn msg (with_handlers warnings_handlers_init w)))
    = trace w ++ [EvHandler console_warn msg]
  /\ handlers (snd (warnings_clearHandlers w)) = []
  /\ warnings_warn msg (snd (warnings_clearHandlers w)) = (Ret tt, snd (warnings_clearHandlers w))
  /\ forall hd : handler,
       trace (snd (warnings_warn msg (snd (warnings_addHandler hd (snd (warnings_clearHandlers w))))))
       = trace w ++ [EvHandler hd msg].
Proof.
  repeat split; try (intros hd); rewrite ?warnings_warn_eq; simpl; try done.
Qed.


(** *** Successor lookup *)

Lemma node_of_ref (what : string) w (r : ref) n :
  get_node (heap w) r = Some n -> node_of what (VRef r) w = (Ret (r, n), w).
Proof. intros E. unfold node_of. by rewrite E. Qed.

Lemma this_node_ref (what : string) w (r : ref) n :
  get_node (heap w) r = Some n -> this_node what r w = (Ret n, w).
Proof. intros E. unfold this_node. by rewrite (bind_Ret _ _ _ _ _ (node_of_ref what w r n E)). Qed.

Lemma getNextNode_unfold w (r : ref) n act :
  get_node (heap w) r = Some n ->
  let succ := VRef (successors n) in
  let m := own_entries (heap w) succ in
  let label := label_of act in
  let next := get_prop (heap w) succ label in
  Flow_getNextNode (VRef r) act w
  = (Ret next,
     if negb (truthy next) && (0 <? size m)%nat
     then warned (FlowEnds label (dom m)) w
     else w).
Proof.
  intros E succ m label next. subst succ m label next. unfold Flow_getNextNode.
  rewrite (bind_Ret _ _ _ _ _ (node_of_ref _ w r n E)).
  unfold read, bind at 1. cbn [snd].
  assert (Hl : to_string (if truthy act then act else VStr "default") = label_of act).
  { unfold label_of. by destruct (truthy act). }
  rewrite !Hl.
  set (m := own_entries (heap w) (VRef (successors n))).
  set (next := get_prop (heap w) (VRef (successors n)) (label_of act)).
  destruct (negb (truthy next) && (0 <? size m)%nat); unfold when_, bind.
  - by rewrite warnings_warn_eq.
  - done.
Qed.

(** Reading a plain object. *)
Lemma get_prop_plain hp (x : ref) (m : gmap string value) (k : string) :
  hp !! x = Some (OMap m) -> get_prop hp (VRef x) k = plain_get m k.
Proof. intros E. unfold get_prop. by rewrite E. Qed.

Lemma plain_get_own (m : gmap string value) (k : string) (v : value) :
  m !! k = Some v -> plain_get m k = v.
Proof. intros E. unfold plain_get. by rewrite E. Qed.

Lemma plain_get_absent (m : gmap string value) (k : string) :
  m !! k = None -> inherited k = false -> plain_get m k = VUndefined.
Proof.
  intros E Hi. unfold plain_get, Object_prototype_get. rewrite E.
  unfold inherited in Hi. apply orb_false_iff in Hi as [-> ->]. done.
Qed.

Lemma plain_get_inherited (m : gmap string value) (k : string) :
  m !! k = None -> inherited k = true ->
  plain_get m k = (if String.eqb k "__proto__" then VNative ObjectPrototype
                   else VNative (Builtin k)).
Proof.
  intros E Hi. unfold plain_get, Object_prototype_get. rewrite E.
  unfold inherited in Hi. destruct (String.eqb k "__proto__"); [done|].
  cbn [orb] in Hi. by rewrite Hi.
Qed.

Lemma plain_get_insert (m : gmap string value) (k : string) (v : value) :
  plain_get (<[k := v]> m) k = v.
Proof. apply plain_get_own. apply lookup_insert_eq. Qed.

Lemma plain_get_insert_ne (m : gmap string value) (k k' : string) (v : value) :
  k <> k' -> plain_get (<[k := v]> m) k' = plain_get m k'.
Proof. intros Hne. unfold plain_get. by rewrite lookup_insert_ne. Qed.

Lemma size_pos_nonempty (m : gmap string value) : m <> ∅ -> (0 <? size m)%nat = true.
Proof.
  intros Hne. apply Nat.ltb_lt. destruct (size m) eqn:Hsz; [|lia].
  by apply map_size_empty_iff in Hsz.
Qed.

(** Successor lookup in a plain table, in closed form. *)
Lemma getNextNode_plain w (r : ref) n (m : gmap string value) act :
  get_node (heap w) r = Some n ->
  heap w !! successors n = Some (OMap m) ->
  Flow_getNextNode (VRef r) act w
  = (Ret (plain_get m (label_of act)),
     if negb (truthy (plain_get m (label_of act))) && (0 <? size m)%nat
     then warned (FlowEnds (label_of act) (dom m)) w
     else w).
Proof.
  intros E Hm. rewrite (getNextNode_unfold w r n act E). cbv zeta.
  rewrite (get_prop_plain _ _ m _ Hm). unfold own_entries. by rewrite Hm.
Qed.

Lemma label_of_string (act : value) :
  is_label act = true -> label_of act <> EmptyString.
Proof.
  unfold is_label, label_of. destruct act as [| |?|?|s|?|?|?|?]; cbn; try done.
  - by destruct b.
  - by destruct (n =? 0)%Z.
  - by destruct s.
Qed.

(** *** Wiring successors *)

Lemma get_node_Some hp (r : ref) n : get_node hp r = Some n <-> hp !! r = Some (ONode n).
Proof.
  unfold get_node. destruct (hp !! r) as [[?|?|? ?]|]; split; intros E; by inversion E.
Qed.

Lemma get_node_insert_map hp (r x : ref) n (m m' : gmap string value) :
  hp !! x = Some (OMap m) ->
  get_node hp r = Some n -> get_node (<[x := OMap m']> hp) r = Some n.
Proof.
  intros Hx Hr. apply get_node_Some in Hr. apply get_node_Some.
  rewrite lookup_insert_ne; [done|]. intros ->. congruence.
Qed.

Lemma get_node_insert_plain hp (r x : ref) n (m : gmap string value) (o : obj) :
  hp !! x = Some (OMap m) ->
  get_node hp r = Some n -> get_node (<[x := o]> hp) r = Some n.
Proof.
  intros Hx Hr. apply get_node_Some in Hr. apply get_node_Some.
  rewrite lookup_insert_ne; [done|]. intros ->. congruence.
Qed.

(** What the assignment makes of a plain table: an own entry, or, for a
    node under an absent [__proto__], a new prototype. *)
Lemma assigned_entry (m : gmap string value) (k : string) (v : value) :
  k <> "__proto__" \/ m !! k <> None -> assigned (OMap m) k v = OMap (<[k := v]> m).
Proof.
  intros H. unfold assigned.
  destruct (String.eqb k "__proto__" && bool_decide (m !! k = None)) eqn:E; [|done].
  apply andb_true_iff in E as [E1 E2]. apply String.eqb_eq in E1.
  apply bool_decide_eq_true in E2. by destruct H.
Qed.

Lemma assigned_proto (m : gmap string value) (p : ref) :
  m !! "__proto__" = None -> assigned (OMap m) "__proto__" (VRef p) = OLinked m p.
Proof. intros E. unfold assigned. cbn [String.eqb Ascii.eqb Bool.eqb andb]. by rewrite bool_decide_eq_true_2. Qed.

(** Whatever the label, the table answers to it with the node assigned. *)
Lemma get_prop_assigned hp (x : ref) (m : gmap string value) (k : string) (p : ref) :
  get_prop (<[x := assigned (OMap m) k (VRef p)]> hp) (VRef x) k = VRef p.
Proof.
  unfold get_prop. rewrite lookup_insert_eq. unfold assigned.
  destruct (String.eqb k "__proto__" && bool_decide (m !! k = None)) eqn:E.
  - apply andb_true_iff in E as [E1 E2]. apply bool_decide_eq_true in E2.
    by rewrite E2, E1.
  - apply plain_get_insert.
Qed.

Lemma BaseNode_next_eq w (a : ref) na (m : gmap string value) (tgt : value) (s : string) :
  get_node (heap w) a = Some na ->
  heap w !! successors na = Some (OMap m) ->
  instanceof_BaseNode (heap w) tgt = true ->
  BaseNode_next a tgt (VStr s) w
  = (Ret tgt,
     mk_world (<[successors na := assigned (OMap m) s tgt]> (heap w)) (handlers w)
       (trace w ++ overwrite_events (handlers w) m s) (shared w)).
Proof.
  intros Ha Hm Hb. unfold BaseNode_next.
  rewrite (bind_Ret _ _ _ _ _ (this_node_ref _ w a na Ha)).
  unfold read, bind at 1. cbn [snd].
  assert (Ht : truthy tgt = true).
  { destruct tgt; try discriminate Hb. done. }
  rewrite Ht, Hb. cbn [negb orb validateString].
  unfold ret at 1, bind at 1.
  rewrite (get_prop_plain _ _ m _ Hm). unfold overwrite_events.
  destruct (truthy (plain_get m s)); unfold when_, bind.
  - rewrite warnings_warn_eq. unfold assign_prop, ret. cbn [heap]. by rewrite Hm.
  - unfold ret, assign_prop. rewrite Hm. by rewrite app_nil_r.
Qed.

(** The same for a label stored as an own entry: every label but an absent
    [__proto__]. *)
Lemma BaseNode_next_entry w (a : ref) na (m : gmap string value) (tgt : value) (s : string) :
  get_node (heap w) a = Some na ->
  heap w !! successors na = Some (OMap m) ->
  instanceof_BaseNode (heap w) tgt = true ->
  s <> "__proto__" \/ m !! s <> None ->
  BaseNode_next a tgt (VStr s) w
  = (Ret tgt,
     mk_world (<[successors na := OMap (<[s := tgt]> m)]> (heap w)) (handlers w)
       (trace w ++ overwrite_events (handlers w) m s) (shared w)).
Proof.
  intros Ha Hm Hb Hs. rewrite (BaseNode_next_eq w a na m tgt s Ha Hm Hb).
  by rewrite (assigned_entry m s tgt Hs).
Qed.

Lemma get_prop_insert_map hp (x : ref) (m : gmap string value) (k : string) (v : value) :
  get_prop (<[x := OMap (<[k := v]> m)]> hp) (VRef x) k = v.
Proof.
  unfold get_prop. rewrite lookup_insert_eq. apply plain_get_insert.
Qed.

Lemma get_prop_insert_other hp (x y : ref) (o : obj) (m : gmap string value) (k : string) :
  x <> y -> hp !! y = Some (OMap m) ->
  get_prop (<[x := o]> hp) (VRef y) k = get_prop hp (VRef y) k.
Proof.
  intros Hne Hy. unfold get_prop. rewrite lookup_insert_ne by done. by rewrite Hy.
Qed.

(** C10.  [a.next(b, s)] stores [b] under [s] in the successor table of [a]
    and returns [b], the successor; so do [a.connect(b)] (under [default])
    and [a.withTransition(s).connect(b)].  Hence [a.connect(b).connect(c)]
    registers [c] in the table of [b], and [a] keeps [b]. *)
Theorem next_returns_successor w (a b c : ref) na nb (ma mb : gmap string value) (s : string) :
  get_node (heap w) a = Some na ->
  get_node (heap w) b = Some nb ->
  heap w !! successors na = Some (OMap ma) ->
  heap w !! successors nb = Some (OMap mb) ->
  instanceof_BaseNode (heap w) (VRef c) = true ->
  (exists w1, BaseNode_next a (VRef b) (VStr s) w = (Ret (VRef b), w1)
              /\ get_prop (heap w1) (VRef (successors na)) s = VRef b)
  /\ (exists w1, BaseNode_connect a (VRef b) w = (Ret (VRef b), w1)
              /\ get_prop (heap w1) (VRef (successors na)) "default" = VRef b)
  /\ (exists t w1, BaseNode_withTransition a (VStr s) w = (Ret t, w)
              /\ ConditionalTransition_connect t (VRef b) w = (Ret (VRef b), w1)
              /\ get_prop (heap w1) (VRef (successors na)) s = VRef b)
  /\ (exists w2,
        (let* x := BaseNode_connect a (VRef b) in
         let* rn := node_of "connect" x in
         BaseNode_connect (fst rn) (VRef c)) w = (Ret (VRef c), w2)
        /\ get_prop (heap w2) (VRef (successors nb)) "default" = VRef c
        /\ (successors na <> successors nb ->
            get_prop (heap w2) (VRef (successors na)) "default" = VRef b)).
Proof.
  intros Ha Hb Hma Hmb Hc.
  assert (Hib : instanceof_BaseNode (heap w) (VRef b) = true).
  { unfold instanceof_BaseNode. by rewrite Hb. }
  assert (Hdef : "default" <> "__proto__" \/ ma !! "default" <> None) by (left; discriminate).
  split; [|split; [|split]].
  - eexists. split; [by apply (BaseNode_next_eq w a na ma)|].
    cbn [heap]. apply get_prop_assigned.
  - eexists. split; [by apply (BaseNode_next_entry w a na ma)|].
    cbn [heap]. apply get_prop_insert_map.
  - exists (mk_transition a s). eexists. split; [done|]. split.
    + unfold ConditionalTransition_connect. cbn [src action].
      by apply (BaseNode_next_eq w a na ma).
    + cbn [heap]. apply get_prop_assigned.
  - unfold BaseNode_connect at 1.
    pose proof (BaseNode_next_entry w a na ma (VRef b) "default" Ha Hma Hib Hdef) as E1.
    set (w1 := mk_world (<[successors na := OMap (<["default" := VRef b]> ma)]> (heap w))
                 (handlers w) (trace w ++ overwrite_events (handlers w) ma "default") (shared w)) in *.
    assert (Hb1 : get_node (heap w1) b = Some nb).
    { by apply (get_node_insert_map _ _ _ _ ma). }
    assert (Hc1 : instanceof_BaseNode (heap w1) (VRef c) = true).
    { unfold instanceof_BaseNode in *. destruct (get_node (heap w) c) as [nc|] eqn:Ec; [|done].
      unfold w1. cbn [heap]. by rewrite (get_node_insert_map _ _ _ _ ma _ Hma Ec). }
    destruct (decide (successors na = successors nb)) as [Heq|Hne].
    + assert (Hmb1 : heap w1 !! successors nb = Some (OMap (<["default" := VRef b]> ma))).
      { cbn [heap w1]. rewrite <- Heq. apply lookup_insert_eq. }
      eexists. split; [|split].
      * rewrite (bind_Ret _ _ _ _ _ E1).
        rewrite (bind_Ret _ _ _ _ _ (node_of_ref _ w1 b nb Hb1)). cbn [fst].
        unfold BaseNode_connect.
        apply (BaseNode_next_entry w1 b nb (<["default" := VRef b]> ma) (VRef c) "default");
          [done|done|done|left; discriminate].
      * cbn [heap]. apply get_prop_insert_map.
      * intros Hne. by destruct Hne.
    + assert (Hmb1 : heap w1 !! successors nb = Some (OMap mb)).
      { cbn [heap w1]. by rewrite lookup_insert_ne. }
      eexists. split; [|split].
      * rewrite (bind_Ret _ _ _ _ _ E1).
        rewrite (bind_Ret _ _ _ _ _ (node_of_ref _ w1 b nb Hb1)). cbn [fst].
        unfold BaseNode_connect.
        apply (BaseNode_next_entry w1 b nb mb (VRef c) "default");
          [done|done|done|left; discriminate].
      * cbn [heap]. apply get_prop_insert_map.
      * intros _. cbn [heap].
        rewrite (get_prop_insert_other _ _ _ _ (<["default" := VRef b]> ma)); [|done|].
        -- cbn [heap w1]. apply get_prop_insert_map.
        -- cbn [heap w1]. apply lookup_insert_eq.
Qed.

(** *** The per-step clone *)

Lemma fresh_not_in_heap (hp : gmap ref obj) : hp !! fresh (dom hp) = None.
Proof. apply not_elem_of_dom. apply is_fresh. Qed.

Lemma shallowCopy_object w (r : ref) (o : obj) :
  heap w !! r = Some o ->
  shallowCopy (VRef r) w
  = (Ret (VRef (fresh (dom (heap w)))), with_heap (<[fresh (dom (heap w)) := o]> (heap w)) w).
Proof. intros E. unfold shallowCopy. rewrite E. done. Qed.

Lemma insert_fresh_keeps (hp : gmap ref obj) (o : obj) (x : ref) (ox : obj) :
  hp !! x = Some ox -> <[fresh (dom hp) := o]> hp !! x = Some ox.
Proof.
  intros E. rewrite lookup_insert_ne; [done|].
  intros <-. rewrite fresh_not_in_heap in E. discriminate.
Qed.

Lemma BaseNode_setParams_eq w (r : ref) n (p : value) :
  get_node (heap w) r = Some n ->
  is_null p || negb (String.eqb (typeof p) "object") = false ->
  BaseNode_setParams r p w = (Ret tt, with_heap (<[r := ONode (set_params p n)]> (heap w)) w).
Proof.
  intros E Hp. unfold BaseNode_setParams. rewrite Hp. unfold update_node. by rewrite E.
Qed.

(** C8, as amended.  The clone is a new object whose attributes hold the
    very values the original holds: its [successors] and [params] refer to
    the same mappings as the original's, nothing is duplicated.  Replacing
    the clone's [params] by setParams leaves every existing object as it
    was, while an entry written through the clone's [successors] (or, before
    setParams, through its [params]) is read back through the original. *)
Theorem shallowCopy_shares_mappings w (r : ref) n :
  get_node (heap w) r = Some n ->
  exists (r' : ref) (w1 : world U),
    shallowCopy (VRef r) w = (Ret (VRef r'), w1)
    /\ heap w !! r' = None
    /\ get_node (heap w1) r' = Some n
    /\ (forall x o, heap w !! x = Some o -> heap w1 !! x = Some o)
    /\ (forall p, is_null p || negb (String.eqb (typeof p) "object") = false ->
          exists w2, BaseNode_setParams r' p w1 = (Ret tt, w2)
                     /\ get_node (heap w2) r' = Some (set_params p n)
                     /\ forall x o, heap w !! x = Some o -> heap w2 !! x = Some o)
    /\ (forall nc (m : gmap string value) (k : string) (v : value),
          get_node (heap w1) r' = Some nc ->
          heap w !! successors n = Some (OMap m) ->
          exists w2, set_prop (successors nc) k v w1 = (Ret tt, w2)
                     /\ get_prop (heap w2) (VRef (successors n)) k = v)
    /\ (forall nc (pr : ref) (m : gmap string value) (k : string) (v : value),
          get_node (heap w1) r' = Some nc ->
          params n = VRef pr ->
          heap w !! pr = Some (OMap m) ->
          exists w2, params nc = VRef pr
                     /\ set_prop pr k v w1 = (Ret tt, w2)
                     /\ get_prop (heap w2) (params n) k = v).
Proof.
  intros E. apply get_node_Some in E.
  exists (fresh (dom (heap w))). eexists.
  split; [by apply shallowCopy_object|].
  split; [apply fresh_not_in_heap|].
  assert (Hc : get_node (heap (with_heap (<[fresh (dom (heap w)) := ONode n]> (heap w)) w))
                 (fresh (dom (heap w))) = Some n).
  { apply get_node_Some. cbn [heap with_heap]. apply lookup_insert_eq. }
  split; [done|].
  split; [intros x o Hx; cbn [heap with_heap]; by apply insert_fresh_keeps|].
  split; [|split].
  - intros p Hp. eexists. split; [by apply BaseNode_setParams_eq|].
    cbn [heap with_heap]. split.
    + apply get_node_Some. apply lookup_insert_eq.
    + intros x o Hx. rewrite insert_insert_eq. by apply insert_fresh_keeps.
  - intros nc m k v Hnc Hm. rewrite Hc in Hnc. inversion Hnc; subst nc.
    eexists. split.
    + unfold set_prop. cbn [heap with_heap].
      rewrite (insert_fresh_keeps _ _ _ _ Hm). done.
    + cbn [heap with_heap]. apply get_prop_insert_map.
  - intros nc pr m k v Hnc Hp Hm. rewrite Hc in Hnc. inversion Hnc; subst nc.
    eexists. split; [done|]. split.
    + unfold set_prop. cbn [heap with_heap].
      rewrite (insert_fresh_keeps _ _ _ _ Hm). done.
    + cbn [heap with_heap]. rewrite Hp. apply get_prop_insert_map.
Qed.

(** *** Asynchronous nodes on the synchronous path *)

Lemma dispatch_run_async (rec : invocation -> M U value) w this n :
  get_node (heap w) this = Some n ->
  instanceof_AsyncNode (cls n) = true \/ cls n = AsyncFlow \/ cls n = AsyncBatchFlow
    \/ cls n = AsyncParallelBatchFlow ->
  dispatch_run user_class parallel_join rec this w = (Throw sync_run_error, w).
Proof.
  intros E Hc. unfold dispatch_run.
  rewrite (bind_Ret _ _ _ _ _ (this_node_ref _ w this n E)).
  destruct (cls n); try done; destruct Hc as [Hc|[Hc|[Hc|Hc]]]; discriminate Hc.
Qed.

(** C7.  An AsyncNode, or an instance of one of its subclasses, rejects the
    synchronous entry: [_run] throws and leaves the world as it was, so no
    lifecycle method has been called; the public [run] throws the same
    error after, at most, its warning about unreachable successors. *)
Theorem AsyncNode_run_rejects (fuel : nat) w this n :
  get_node (heap w) this = Some n ->
  instanceof_AsyncNode (cls n) = true ->
  run_with user_class parallel_join (S fuel) (CRun this) w = (Throw sync_run_error, w)
  /\ exists evs,
       BaseNode_run user_class parallel_join fuel this w
       = (Throw sync_run_error, mk_world (heap w) (handlers w) (trace w ++ evs) (shared w))
       /\ forall e, e ∈ evs ->
            exists hd, e = EvHandler hd (Text "Node won't run successors. Use Flow.").
Proof.
  intros E Hc. split.
  - cbn [run_with invoke]. apply (dispatch_run_async _ w this n E). by left.
  - unfold BaseNode_run.
    rewrite (bind_Ret _ _ _ _ _ (this_node_ref _ w this n E)).
    unfold read, bind at 1. cbn [snd].
    destruct (0 <? size (own_entries (heap w) (VRef (successors n))))%nat;
      unfold when_, bind.
    + rewrite warnings_warn_eq.
      eexists. split.
      * rewrite (dispatch_run_async _ _ this n); [reflexivity|done|by left].
      * intros e He. apply list_elem_of_fmap in He as [hd [-> _]]. by exists hd.
    + exists []. split.
      * unfold ret. rewrite (dispatch_run_async _ _ this n); [|done|by left].
        rewrite app_nil_r. by destruct w.
      * intros e He. by apply elem_of_nil in He.
Qed.

(** The asynchronous flows inherit the same throwing [_run] through
    [applyMixins]: as a node of another flow they cannot be run. *)
Lemma AsyncFlow_run_rejects (fuel : nat) w this n :
  get_node (heap w) this = Some n ->
  cls n = AsyncFlow \/ cls n = AsyncBatchFlow \/ cls n = AsyncParallelBatchFlow ->
  run_with user_class parallel_join (S fuel) (CRun this) w = (Throw sync_run_error, w).
Proof.
  intros E Hc. cbn [run_with invoke]. apply (dispatch_run_async _ w this n E). by right.
Qed.

(** *** The retry loop *)

Lemma call_eq {A : Type} (ph : phase) (sel : hooks U -> hook_fn U A) w this n
    (args : list value) (a : A) :
  get_node (heap w) this = Some n ->
  call user_class ph sel this args a w
  = (fst (sel (user_class (impl n)) this (heap w) a (shared w)),
     mk_world (heap w) (handlers w) (trace w ++ [EvCall ph this (curRetry n) args])
       (snd (sel (user_class (impl n)) this (heap w) a (shared w)))).
Proof.
  intros E. unfold call. rewrite E. cbn [emit heap shared].
  by destruct (sel (user_class (impl n)) this (heap w) a (shared w)).
Qed.

Lemma Node_exec_loop_done (budget : nat) w this n (p : value) :
  get_node (heap w) this = Some n ->
  (maxRetries n <= curRetry n)%Z ->
  Node__exec_loop user_class budget this p w = (Ret VUndefined, w).
Proof.
  intros E Hle. destruct budget; cbn [Node__exec_loop];
    rewrite (bind_Ret _ _ _ _ _ (this_node_ref _ w this n E));
    (destruct (curRetry n <? maxRetries n)%Z eqn:Hlt; [apply Z.ltb_lt in Hlt; lia|done]).
Qed.

(** One turn of the loop whose attempt returns. *)
Lemma Node_exec_loop_returns (budget : nat) w this n (p v : value) (s' : U) :
  get_node (heap w) this = Some n ->
  (curRetry n < maxRetries n)%Z ->
  exec (user_class (impl n)) this (heap w) p (shared w) = (Ret v, s') ->
  Node__exec_loop user_class (S budget) this p w
  = (Ret v, mk_world (heap w) (handlers w) (trace w ++ [EvCall Exec this (curRetry n) [p]]) s').
Proof.
  intros E Hlt Hx. cbn [Node__exec_loop].
  rewrite (bind_Ret _ _ _ _ _ (this_node_ref _ w this n E)).
  apply Z.ltb_lt in Hlt. rewrite Hlt.
  unfold try_catch. rewrite (call_eq Exec exec w this n _ _ E). by rewrite Hx.
Qed.

(** One turn whose attempt throws on the last permitted attempt. *)
Lemma Node_exec_loop_exhausted (budget : nat) w this n (p : value) (e : exn) (s' : U) :
  get_node (heap w) this = Some n ->
  (curRetry n < maxRetries n)%Z ->
  curRetry n = (maxRetries n - 1)%Z ->
  exec (user_class (impl n)) this (heap w) p (shared w) = (Throw e, s') ->
  Node__exec_loop user_class (S budget) this p w
  = call user_class ExecFallback execFallback this [p] (p, e)
      (mk_world (heap w) (handlers w) (trace w ++ [EvCall Exec this (curRetry n) [p]]) s').
Proof.
  intros E Hlt Hlast Hx. cbn [Node__exec_loop].
  rewrite (bind_Ret _ _ _ _ _ (this_node_ref _ w this n E)).
  apply Z.ltb_lt in Hlt. rewrite Hlt.
  unfold try_catch. rewrite (call_eq Exec exec w this n _ _ E). rewrite Hx. cbn [fst snd].
  apply Z.eqb_eq in Hlast. by rewrite Hlast.
Qed.

(** One turn whose attempt throws with attempts left: the wait, the
    increment, and the rest of the loop. *)
Lemma Node_exec_loop_retries (budget : nat) w this n (p : value) (e : exn) (s' : U) :
  get_node (heap w) this = Some n ->
  (curRetry n < maxRetries n)%Z ->
  curRetry n <> (maxRetries n - 1)%Z ->
  exec (user_class (impl n)) this (heap w) p (shared w) = (Throw e, s') ->
  Node__exec_loop user_class (S budget) this p w
  = Node__exec_loop user_class budget this p
      (mk_world (<[this := ONode (set_curRetry (curRetry n + 1) n)]> (heap w)) (handlers w)
         (trace w ++ [EvCall Exec this (curRetry n) [p]] ++ wait_events (handlers w) (wait n)) s').
Proof.
  intros E Hlt Hlast Hx. cbn [Node__exec_loop].
  rewrite (bind_Ret _ _ _ _ _ (this_node_ref _ w this n E)).
  apply Z.ltb_lt in Hlt. rewrite Hlt.
  unfold try_catch. rewrite (call_eq Exec exec w this n _ _ E). rewrite Hx. cbn [fst snd].
  apply Z.eqb_neq in Hlast. rewrite Hlast.
  unfold wait_events.
  destruct (wait n >? 0)%Z; unfold when_.
  - unfold bind at 1. unfold bind at 1. rewrite warnings_warn_eq. cbn [heap handlers trace shared].
    unfold log, emit. cbn [heap handlers trace shared].
    unfold bind at 1. unfold update_node. cbn [heap]. rewrite E.
    unfold with_heap. cbn [heap handlers trace shared].
    by rewrite <- !app_assoc.
  - unfold bind at 1. unfold ret at 1. unfold bind at 1. unfold update_node. cbn [heap]. rewrite E.
    unfold with_heap. cbn [heap handlers trace shared]. by rewrite app_nil_r.
Qed.

Lemma set_curRetry_same n : set_curRetry (curRetry n) n = n.
Proof. by destruct n. Qed.

Lemma exec_calls_S this (p : value) (c : Z) (m : nat) :
  exec_calls this p c (S m) = EvCall Exec this c [p] :: exec_calls this p (c + 1) m.
Proof.
  unfold exec_calls. cbn [seq map]. rewrite Z.add_0_r. f_equal.
  rewrite <- seq_shift, map_map. apply map_ext. intros i. f_equal. lia.
Qed.

Lemma calls_of_app (l1 l2 : list event) : calls_of (l1 ++ l2) = calls_of l1 ++ calls_of l2.
Proof. apply List.filter_app. Qed.

Lemma calls_of_wait_events (hs : list handler) (z : Z) : calls_of (wait_events hs z) = [].
Proof.
  unfold wait_events. destruct (z >? 0)%Z; [|done].
  rewrite calls_of_app. cbn. rewrite app_nil_r.
  induction hs as [|hd hs IH]; [done|]. by cbn.
Qed.

Lemma get_node_insert_same hp (r : ref) n : get_node (<[r := ONode n]> hp) r = Some n.
Proof. apply get_node_Some. apply lookup_insert_eq. Qed.

Lemma attempt_of_node hp this n : get_node hp this = Some n -> attempt_of hp this = Some (curRetry n).
Proof. intros E. unfold attempt_of. by rewrite E. Qed.

Lemma Node_exec_unfold w this n (p : value) :
  get_node (heap w) this = Some n ->
  Node__exec user_class this p w
  = Node__exec_loop user_class (Z.to_nat (maxRetries n)) this p
      (with_heap (<[this := ONode (set_curRetry 0 n)]> (heap w)) w).
Proof.
  intros E. unfold Node__exec. unfold bind at 1. unfold update_node. rewrite E.
  set (w1 := with_heap (<[this := ONode (set_curRetry 0 n)]> (heap w)) w).
  assert (E1 : get_node (heap w1) this = Some (set_curRetry 0 n)).
  { apply get_node_insert_same. }
  by rewrite (bind_Ret _ _ _ _ _ (this_node_ref _ w1 this _ E1)).
Qed.

Lemma dispatch_exec_Node w this n (p : value) :
  get_node (heap w) this = Some n -> cls n = Node ->
  dispatch_exec user_class parallel_join this p w = Node__exec user_class this p w.
Proof.
  intros E Hc. unfold dispatch_exec.
  rewrite (bind_Ret _ _ _ _ _ (this_node_ref _ w this n E)). by rewrite Hc.
Qed.

Lemma Node_exec_loop_step (budget : nat) w this n (p : value) :
  get_node (heap w) this = Some n ->
  (curRetry n < maxRetries n)%Z ->
  Node__exec_loop user_class (S budget) this p w
  = let x := exec (user_class (impl n)) this (heap w) p (shared w) in
    let w1 := mk_world (heap w) (handlers w) (trace w ++ [EvCall Exec this (curRetry n) [p]]) (snd x) in
    match fst x with
    | Ret v => (Ret v, w1)
    | Throw e =>
        if (curRetry n =? maxRetries n - 1)%Z
        then call user_class ExecFallback execFallback this [p] (p, e) w1
        else Node__exec_loop user_class budget this p
               (mk_world (<[this := ONode (set_curRetry (curRetry n + 1) n)]> (heap w)) (handlers w)
                  (trace w ++ [EvCall Exec this (curRetry n) [p]] ++ wait_events (handlers w) (wait n))
                  (snd x))
    | Diverge => (Diverge, w1)
    end.
Proof.
  intros E Hlt.
  destruct (exec (user_class (impl n)) this (heap w) p (shared w)) as [[v|e|] s'] eqn:Hx;
    cbn [fst snd].
  - by apply Node_exec_loop_returns.
  - destruct (curRetry n =? maxRetries n - 1)%Z eqn:Hl.
    + apply Z.eqb_eq in Hl. by apply (Node_exec_loop_exhausted budget w this n p e s').
    + apply Z.eqb_neq in Hl. by apply (Node_exec_loop_retries budget w this n p e s').
  - cbn [Node__exec_loop].
    rewrite (bind_Ret _ _ _ _ _ (this_node_ref _ w this n E)).
    apply Z.ltb_lt in Hlt. rewrite Hlt.
    unfold try_catch. rewrite (call_eq Exec exec w this n _ _ E). by rewrite Hx.
Qed.

Lemma calls_of_failed_attempts (hs : list handler) this (p : value) (z : Z) (d : nat) :
  forall c : Z, calls_of (failed_attempts hs this p z c d) = exec_calls this p c d.
Proof.
  induction d as [|d IH]; intros c; [done|].
  cbn [failed_attempts]. rewrite exec_calls_S.
  change (EvCall Exec this c [p] :: wait_events hs z ++ failed_attempts hs this p z (c + 1) d)
    with ([EvCall Exec this c [p]] ++ wait_events hs z ++ failed_attempts hs this p z (c + 1) d).
  rewrite !calls_of_app, calls_of_wait_events, IH. done.
Qed.

Lemma exec_calls_snoc this (p : value) (d : nat) :
  exec_calls this p 0 d ++ [EvCall Exec this (Z.of_nat d) [p]] = exec_calls this p 0 (S d).
Proof.
  unfold exec_calls. rewrite seq_S, map_app. cbn [map]. by rewrite Nat.add_0_l, !Z.add_0_l.
Qed.

Lemma failed_attempts_snoc (hs : list handler) this (p : value) (z : Z) (k : nat) :
  forall c : Z,
    failed_attempts hs this p z c k ++ [EvCall Exec this (c + Z.of_nat k) [p]] ++ wait_events hs z
    = failed_attempts hs this p z c (S k).
Proof.
  induction k as [|k IHk]; intros c.
  - cbn [failed_attempts app]. by rewrite Z.add_0_r, app_nil_r.
  - change (failed_attempts hs this p z c (S (S k)))
      with (EvCall Exec this c [p] :: wait_events hs z ++ failed_attempts hs this p z (c + 1) (S k)).
    rewrite <- (IHk (c + 1)%Z).
    change (failed_attempts hs this p z c (S k))
      with (EvCall Exec this c [p] :: wait_events hs z ++ failed_attempts hs this p z (c + 1) k).
    replace (c + 1 + Z.of_nat k)%Z with (c + Z.of_nat (S k))%Z by lia.
    cbn [app]. by rewrite <- !app_assoc.
Qed.

Lemma attempt_heap_node hp this n (i : Z) :
  get_node (attempt_heap hp this n i) this = Some (set_curRetry i n).
Proof. apply get_node_insert_same. Qed.

(** The loop through [d] attempts that throw, none of them the last one
    permitted: after each, the wait of the synchronous loop and the
    increment of the counter; then the loop is at attempt [i + d], in the
    shared context those attempts have left. *)
Lemma Node_exec_loop_steps this (p : value) hp n (s : U) (d : nat) :
  forall (i budget : nat) wi,
    heap wi = attempt_heap hp this n (Z.of_nat i) ->
    shared wi = shared_before (exec (user_class (impl n))) hp this n p s i ->
    (Z.of_nat (i + d) < maxRetries n)%Z ->
    (forall i', (i <= i' < i + d)%nat ->
       throws (attempt (exec (user_class (impl n))) hp this n p s i')) ->
    Node__exec_loop user_class (d + budget) this p wi
    = Node__exec_loop user_class budget this p
        (mk_world (attempt_heap hp this n (Z.of_nat (i + d))) (handlers wi)
           (trace wi ++ failed_attempts (handlers wi) this p (wait n) (Z.of_nat i) d)
           (shared_before (exec (user_class (impl n))) hp this n p s (i + d))).
Proof.
  induction d as [|d IH]; intros i budget wi Hh Hs Hlt Hfail.
  - cbn [failed_attempts Nat.add]. rewrite Nat.add_0_r, app_nil_r, <- Hh, <- Hs. by destruct wi.
  - destruct (Hfail i ltac:(lia)) as [e He].
    assert (Ei : get_node (heap wi) this = Some (set_curRetry (Z.of_nat i) n)).
    { rewrite Hh. apply attempt_heap_node. }
    assert (Hx : exec (user_class (impl n)) this (heap wi) p (shared wi)
                 = (Throw e, shared_before (exec (user_class (impl n))) hp this n p s (S i))).
    { rewrite Hh, Hs. cbn [shared_before].
      unfold attempt in He.
      by destruct (exec (user_class (impl n)) this (attempt_heap hp this n (Z.of_nat i)) p
                     (shared_before (exec (user_class (impl n))) hp this n p s i)) as [r s'];
        cbn [fst snd] in *; subst r. }
    cbn [Nat.add].
    rewrite (Node_exec_loop_retries (d + budget) wi this _ p e _ Ei
               ltac:(cbn; lia) ltac:(cbn; lia) Hx).
    cbn [curRetry maxRetries wait set_curRetry].
    set (w2 := mk_world _ _ _ _).
    rewrite (IH (S i) budget w2).
    + cbn [handlers trace w2 failed_attempts].
      replace (S i + d)%nat with (i + S d)%nat by lia.
      replace (Z.of_nat (S i)) with (Z.of_nat i + 1)%Z by lia.
      by rewrite <- !app_assoc.
    + cbn [heap w2]. rewrite Hh. unfold attempt_heap. rewrite insert_insert_eq.
      by replace (Z.of_nat (S i)) with (Z.of_nat i + 1)%Z by lia.
    + done.
    + lia.
    + intros i' Hi'. apply Hfail. lia.
Qed.

(** The run of [_exec] up to and including attempt [d], the earlier
    attempts having thrown: what remains is the outcome of that attempt. *)
Lemma Node_exec_run w this n (p : value) (d : nat) :
  get_node (heap w) this = Some n ->
  (Z.of_nat d < maxRetries n)%Z ->
  let hk := user_class (impl n) in
  let att := attempt (exec hk) (heap w) this n p (shared w) in
  (forall i, (i < d)%nat -> throws (att i)) ->
  let wd := mk_world (attempt_heap (heap w) this n (Z.of_nat d)) (handlers w)
              (trace w ++ failed_attempts (handlers w) this p (wait n) 0 d
                 ++ [EvCall Exec this (Z.of_nat d) [p]])
              (snd (att d)) in
  Node__exec user_class this p w
  = match fst (att d) with
    | Ret v => (Ret v, wd)
    | Throw e =>
        if (Z.of_nat d =? maxRetries n - 1)%Z
        then call user_class ExecFallback execFallback this [p] (p, e) wd
        else Node__exec_loop user_class (Z.to_nat (maxRetries n) - S d) this p
               (mk_world (attempt_heap (heap w) this n (Z.of_nat (S d))) (handlers w)
                  (trace w ++ failed_attempts (handlers w) this p (wait n) 0 (S d))
                  (snd (att d)))
    | Diverge => (Diverge, wd)
    end.
Proof.
  intros E Hlt hk att Hfail wd.
  rewrite (Node_exec_unfold w this n p E).
  set (w1 := with_heap (<[this := ONode (set_curRetry 0 n)]> (heap w)) w).
  assert (Hb : Z.to_nat (maxRetries n) = (d + S (Z.to_nat (maxRetries n) - S d))%nat) by lia.
  rewrite Hb at 1. clear Hb.
  rewrite (Node_exec_loop_steps this p (heap w) n (shared w) d 0 _ w1); try done.
  2: { intros i' Hi'. apply Hfail. lia. }
  cbn [Nat.add handlers trace w1 with_heap].
  set (w2 := mk_world _ _ _ _).
  assert (E2 : get_node (heap w2) this = Some (set_curRetry (Z.of_nat d) n)).
  { apply attempt_heap_node. }
  rewrite (Node_exec_loop_step _ w2 this _ p E2) by (cbn; lia).
  cbn [impl curRetry maxRetries wait set_curRetry heap shared handlers trace w2].
  fold hk. change (exec hk this (attempt_heap (heap w) this n (Z.of_nat d)) p
                     (shared_before (exec hk) (heap w) this n p (shared w) d)) with (att d).
  cbv zeta. unfold wd.
  destruct (fst (att d)) as [v|e|]; rewrite <- ?app_assoc; try done.
  destruct (Z.of_nat d =? maxRetries n - 1)%Z; [done|].
  unfold attempt_heap. rewrite insert_insert_eq.
  replace (Z.of_nat (S d)) with (Z.of_nat d + 1)%Z by lia.
  pose proof (failed_attempts_snoc (handlers w) this p (wait n) d 0%Z) as Hsnoc.
  rewrite Z.add_0_l in Hsnoc. change (Z.of_nat 0) with 0%Z. by rewrite <- Hsnoc.
Qed.

(** C1.  A Node with [maxRetries = k >= 1], driven through [_exec],
    whatever exec depends on.  If every one of the [k] attempts of the run
    throws, exec is called exactly [k] times, with the attempt counter
    running from 0 to [k - 1]; then execFallback is called once, the
    counter standing at [k - 1], with the error of the last attempt, and
    the inherited execFallback throws that error again.  If the attempts
    throw until the [j]-th, [j <= k], which returns [v], exec is called
    exactly [j] times, [_exec] returns [v], and no other lifecycle method
    (so no execFallback) is called. *)
Theorem Node_exec_retry_count w this n (p : value) (k : nat) :
  get_node (heap w) this = Some n ->
  cls n = Node ->
  maxRetries n = Z.of_nat k ->
  (1 <= k)%nat ->
  let hk := user_class (impl n) in
  let run := dispatch_exec user_class parallel_join this p w in
  let att := attempt (exec hk) (heap w) this n p (shared w) in
  ((forall i, (i < k)%nat -> throws (att i)) ->
     exists evs e wf,
       run = call user_class ExecFallback execFallback this [p] (p, e) wf
       /\ trace wf = trace w ++ evs
       /\ calls_of evs = exec_calls this p 0 k
       /\ attempt_of (heap wf) this = Some (Z.of_nat k - 1)%Z
       /\ att (k - 1)%nat = (Throw e, shared wf)
       /\ trace (snd run) = trace wf ++ [EvCall ExecFallback this (Z.of_nat k - 1) [p]]
       /\ (execFallback hk = execFallback base_hooks -> fst run = Throw e))
  /\ (forall (j : nat) (v : value),
        (1 <= j <= k)%nat ->
        (forall i, (i < j - 1)%nat -> throws (att i)) ->
        fst (att (j - 1)%nat) = Ret v ->
        exists evs,
          fst run = Ret v
          /\ trace (snd run) = trace w ++ evs
          /\ calls_of evs = exec_calls this p 0 j).
Proof.
  intros E Hc Hk Hk1 hk run att.
  assert (Hrun : run = Node__exec user_class this p w).
  { unfold run. by apply (dispatch_exec_Node w this n p E Hc). }
  rewrite Hrun. clear Hrun run. split.
  - intros Hfail.
    destruct (Hfail (k - 1)%nat ltac:(lia)) as [e He].
    rewrite (Node_exec_run w this n p (k - 1) E) by (try lia; intros i Hi; apply Hfail; lia).
    fold hk att. rewrite He.
    replace (Z.of_nat (k - 1) =? maxRetries n - 1)%Z with true
      by (symmetry; apply Z.eqb_eq; lia).
    set (wf := mk_world _ _ _ _).
    assert (Ef : get_node (heap wf) this = Some (set_curRetry (Z.of_nat (k - 1)) n)).
    { apply attempt_heap_node. }
    exists (failed_attempts (handlers w) this p (wait n) 0 (k - 1)
              ++ [EvCall Exec this (Z.of_nat (k - 1)) [p]]), e, wf.
    split; [done|]. split; [done|]. split.
    { rewrite calls_of_app, calls_of_failed_attempts. cbn [calls_of List.filter is_call].
      rewrite exec_calls_snoc. by replace (S (k - 1)) with k by lia. }
    split.
    { rewrite (attempt_of_node _ _ _ Ef). cbn [curRetry set_curRetry]. f_equal. lia. }
    split.
    { cbn [shared wf]. by destruct (att (k - 1)%nat) as [r s']; cbn [fst snd] in *; subst r. }
    rewrite (call_eq ExecFallback execFallback wf this _ _ _ Ef).
    cbn [fst snd trace curRetry set_curRetry impl].
    split; [by replace (Z.of_nat (k - 1)) with (Z.of_nat k - 1)%Z by lia|].
    intros Hdef. fold hk. by rewrite Hdef.
  - intros j v Hj Hfail Hok.
    rewrite (Node_exec_run w this n p (j - 1) E) by (try lia; done).
    fold hk att. rewrite Hok. cbn [fst snd trace].
    eexists. split; [done|]. split; [done|].
    rewrite calls_of_app, calls_of_failed_attempts. cbn [calls_of List.filter is_call].
    rewrite exec_calls_snoc. by replace (S (j - 1)) with j by lia.
Qed.

(** *** The synchronous wait *)

(** The budget [Z.to_nat maxRetries] always suffices: the loop diverges only
    if user code does. *)
Lemma Node_exec_loop_total this (p : value) (budget : nat) :
  forall n w,
    get_node (heap w) this = Some n ->
    (maxRetries n - curRetry n <= Z.of_nat budget)%Z ->
    (forall hp a s, fst (exec (user_class (impl n)) this hp a s) <> Diverge) ->
    (forall hp a s, fst (execFallback (user_class (impl n)) this hp a s) <> Diverge) ->
    fst (Node__exec_loop user_class budget this p w) <> Diverge.
Proof.
  induction budget as [|budget IH]; intros n w E Hb Hx Hf.
  - rewrite (Node_exec_loop_done 0 w this n p E); [done|lia].
  - destruct (Z.lt_ge_cases (curRetry n) (maxRetries n)) as [Hlt|Hge].
    + rewrite (Node_exec_loop_step budget w this n p E Hlt).
      pose proof (Hx (heap w) p (shared w)) as Hx0.
      destruct (exec (user_class (impl n)) this (heap w) p (shared w)) as [[v|e|] s'];
        cbv zeta; cbn [fst snd] in *; try done.
      destruct (curRetry n =? maxRetries n - 1)%Z.
      * set (wa := mk_world (heap w) _ _ _).
        assert (Ea : get_node (heap wa) this = Some n) by done.
        rewrite (call_eq ExecFallback execFallback wa this n _ _ Ea). cbn [fst]. apply Hf.
      * apply (IH (set_curRetry (curRetry n + 1) n)); try done.
        -- apply get_node_insert_same.
        -- cbn. lia.
    + by rewrite (Node_exec_loop_done (S budget) w this n p E Hge).
Qed.

Lemma rewait_node hp this n (z : Z) :
  get_node hp this = Some n -> get_node (rewait this z hp) this = Some (set_wait z n).
Proof. intros E. unfold rewait. rewrite E. apply get_node_insert_same. Qed.

Lemma rewait_insert hp this n n' (z : Z) :
  get_node hp this = Some n ->
  <[this := ONode (set_wait z n')]> (rewait this z hp) = rewait this z (<[this := ONode n']> hp).
Proof.
  intros E. unfold rewait. rewrite E, get_node_insert_same.
  by rewrite !insert_insert_eq.
Qed.

Lemma Node_exec_loop_wait_irrelevant this (p : value) (z : Z) (budget : nat) :
  forall n w wz,
    get_node (heap w) this = Some n ->
    wait_blind (user_class (impl n)) this ->
    heap wz = rewait this z (heap w) ->
    shared wz = shared w ->
    calls_of (trace wz) = calls_of (trace w) ->
    let r := Node__exec_loop user_class budget this p w in
    let rz := Node__exec_loop user_class budget this p wz in
    fst rz = fst r
    /\ shared (snd rz) = shared (snd r)
    /\ calls_of (trace (snd rz)) = calls_of (trace (snd r))
    /\ heap (snd rz) = rewait this z (heap (snd r)).
Proof.
  induction budget as [|budget IH]; intros n w wz E [Hbx Hbf] Hh Hs Ht r rz; subst r rz.
  - cbn [Node__exec_loop].
    assert (Ez : get_node (heap wz) this = Some (set_wait z n)).
    { rewrite Hh. by apply rewait_node. }
    rewrite (bind_Ret _ _ _ _ _ (this_node_ref _ w this n E)).
    rewrite (bind_Ret _ _ _ _ _ (this_node_ref _ wz this _ Ez)).
    cbn [curRetry maxRetries set_wait].
    destruct (curRetry n <? maxRetries n)%Z; cbn [diverge ret fst snd]; done.
  - assert (Ez : get_node (heap wz) this = Some (set_wait z n)).
    { rewrite Hh. by apply rewait_node. }
    destruct (Z.lt_ge_cases (curRetry n) (maxRetries n)) as [Hlt|Hge].
    + rewrite (Node_exec_loop_step budget w this n p E Hlt).
      rewrite (Node_exec_loop_step budget wz this (set_wait z n) p Ez Hlt).
      cbn [impl curRetry maxRetries wait set_wait].
      rewrite Hh, Hs, Hbx.
      destruct (exec (user_class (impl n)) this (heap w) p (shared w)) as [[v|e|] s'];
        cbv zeta; cbn [fst snd heap trace shared].
      * rewrite !calls_of_app, Ht. done.
      * destruct (curRetry n =? maxRetries n - 1)%Z.
        -- set (wa := mk_world (heap w) _ _ _). set (wb := mk_world (rewait this z (heap w)) _ _ _).
           assert (Ea : get_node (heap wa) this = Some n) by done.
           assert (Eb : get_node (heap wb) this = Some (set_wait z n)) by (by apply rewait_node).
           rewrite (call_eq ExecFallback execFallback wa this n _ _ Ea).
           rewrite (call_eq ExecFallback execFallback wb this _ _ _ Eb).
           cbn [impl curRetry set_wait heap shared trace wa wb fst snd].
           rewrite Hbf. rewrite !calls_of_app, Ht. done.
        -- apply (IH (set_curRetry (curRetry n + 1) n)).
           ++ apply get_node_insert_same.
           ++ done.
           ++ cbn [heap].
              change (set_curRetry (curRetry n + 1) (set_wait z n))
                with (set_wait z (set_curRetry (curRetry n + 1) n)).
              by apply (rewait_insert _ _ n).
           ++ done.
           ++ cbn [trace]. rewrite !calls_of_app, !calls_of_wait_events, Ht. done.
      * rewrite !calls_of_app, Ht. done.
    + rewrite (Node_exec_loop_done (S budget) w this n p E Hge).
      rewrite (Node_exec_loop_done (S budget) wz this _ p Ez Hge). done.
Qed.

Lemma Node_exec_loop_events this (p : value) (budget : nat) :
  forall n w,
    get_node (heap w) this = Some n ->
    exists evs,
      trace (snd (Node__exec_loop user_class budget this p w)) = trace w ++ evs
      /\ Forall (sync_retry_event (wait n)) evs.
Proof.
  induction budget as [|budget IH]; intros n w E.
  - exists []. split; [|done]. rewrite app_nil_r. cbn [Node__exec_loop].
    rewrite (bind_Ret _ _ _ _ _ (this_node_ref _ w this n E)).
    by destruct (curRetry n <? maxRetries n)%Z.
  - destruct (Z.lt_ge_cases (curRetry n) (maxRetries n)) as [Hlt|Hge].
    + rewrite (Node_exec_loop_step budget w this n p E Hlt).
      assert (Hcall : forall ph a args, sync_retry_event (wait n) (EvCall ph this a args)).
      { intros. by left. }
      destruct (exec (user_class (impl n)) this (heap w) p (shared w)) as [[v|e|] s'];
        cbv zeta; cbn [fst snd].
      * eexists. split; [reflexivity|]. by repeat constructor.
      * destruct (curRetry n =? maxRetries n - 1)%Z.
        -- set (wa := mk_world (heap w) _ _ _).
           assert (Ea : get_node (heap wa) this = Some n) by done.
           rewrite (call_eq ExecFallback execFallback wa this n _ _ Ea). cbn [snd trace wa].
           eexists. rewrite <- app_assoc. split; [reflexivity|]. by repeat constructor.
        -- set (w2 := mk_world _ _ _ _).
           destruct (IH (set_curRetry (curRetry n + 1) n) w2) as (evs & Htr & Hall).
           { apply get_node_insert_same. }
           rewrite Htr. cbn [trace w2]. eexists. rewrite <- !app_assoc.
           split; [reflexivity|].
           apply Forall_app. split; [by repeat constructor|].
           apply Forall_app. split; [|done].
           unfold wait_events. destruct (wait n >? 0)%Z; [|done].
           apply Forall_app. split.
           ++ apply Forall_fmap. apply Forall_forall. intros hd _. right. right. by exists hd.
           ++ apply Forall_cons. split; [|apply Forall_nil_2]. right. by left.
      * eexists. split; [reflexivity|]. by repeat constructor.
    + rewrite (Node_exec_loop_done (S budget) w this n p E Hge).
      exists []. by rewrite app_nil_r.
Qed.

(** *** Batch nodes *)

Lemma mapM_returns (f : value -> M U value) (xs : list value) :
  forall (ys : list value) w w',
    mapM f xs w = (Ret ys, w') <-> each_returns f xs ys w w'.
Proof.
  induction xs as [|x xs IH]; intros ys w w'; cbn [mapM each_returns].
  - unfold ret. destruct ys; split; intros H; try done; try (by inversion H); by subst.
  - split.
    + intros H. apply bind_inv in H as [(y & w1 & Hx & H)|[(e & _ & He)|[_ He]]]; try done.
      apply bind_inv in H as [(ys' & w2 & Hr & H)|[(e & _ & He)|[_ He]]]; try done.
      unfold ret in H. inversion H; subst. exists w1. split; [done|]. by apply IH.
    + destruct ys as [|y ys]; [done|]. intros (w1 & Hx & Hr).
      rewrite (bind_Ret _ _ _ _ _ Hx). apply IH in Hr.
      by rewrite (bind_Ret _ _ _ _ _ Hr).
Qed.

Lemma each_returns_length (f : value -> M U value) (xs : list value) :
  forall (ys : list value) w w', each_returns f xs ys w w' -> length ys = length xs.
Proof.
  induction xs as [|x xs IH]; intros [|y ys] w w' H; cbn in *; try done.
  destruct H as (w1 & _ & H). f_equal. by apply (IH _ _ _ H).
Qed.

(** Every run of the inherited retry logic starts its attempts at 0,
    whatever the counter was left at. *)
Lemma Node_exec_first_attempt w this n (x : value) :
  get_node (heap w) this = Some n ->
  (1 <= maxRetries n)%Z ->
  exists evs,
    trace (snd (Node__exec user_class this x w)) = trace w ++ EvCall Exec this 0 [x] :: evs.
Proof.
  intros E Hk. rewrite (Node_exec_unfold w this n x E).
  set (w1 := with_heap _ w).
  assert (E1 : get_node (heap w1) this = Some (set_curRetry 0 n)) by apply get_node_insert_same.
  destruct (Z.to_nat (maxRetries n)) as [|budget] eqn:Hb; [lia|].
  rewrite (Node_exec_loop_step budget w1 this _ x E1); [|cbn; lia].
  cbn [impl curRetry maxRetries wait set_curRetry].
  destruct (exec (user_class (impl n)) this (heap w1) x (shared w1)) as [[v|e|] s'];
    cbv zeta; cbn [fst snd trace].
  - by exists [].
  - destruct (0 =? maxRetries n - 1)%Z.
    + set (wa := mk_world (heap w1) _ _ _).
      assert (Ea : get_node (heap wa) this = Some (set_curRetry 0 n)) by done.
      rewrite (call_eq ExecFallback execFallback wa this _ _ _ Ea). cbn [snd trace wa].
      eexists. by rewrite <- app_assoc.
    + set (w2 := mk_world _ _ _ _).
      destruct (Node_exec_loop_events this x budget (set_curRetry (0 + 1) n) w2) as (evs & Htr & _).
      { apply get_node_insert_same. }
      rewrite Htr. cbn [trace w2]. eexists. by rewrite <- !app_assoc.
  - by exists [].
Qed.

Lemma dispatch_exec_BatchNode w this n (items : value) :
  get_node (heap w) this = Some n -> cls n = BatchNode ->
  dispatch_exec user_class parallel_join this items w = BatchNode__exec user_class this items w.
Proof.
  intros E Hc. unfold dispatch_exec.
  rewrite (bind_Ret _ _ _ _ _ (this_node_ref _ w this n E)). by rewrite Hc.
Qed.

(** C5, as amended.  A BatchNode given an array runs each element through
    the inherited retry logic, one after the other, each starting at
    attempt 0, and returns the results in input order.  Given a truthy value
    that is not an array it emits one warning and returns the one-element
    array of the retried result of that value.  Given a falsy value (null,
    undefined, false, 0, the empty string) it returns the empty array at
    once: no warning, no call of exec. *)
Theorem BatchNode_exec_spec w this n (items : value) :
  get_node (heap w) this = Some n ->
  cls n = BatchNode ->
  let run := dispatch_exec user_class parallel_join this items w in
  (forall xs, items = VArr xs ->
     (forall ys w', run = (Ret (VArr ys), w') <-> each_returns (Node__exec user_class this) xs ys w w')
     /\ (forall v w', run = (Ret v, w') -> exists ys, v = VArr ys /\ length ys = length xs)
     /\ (forall x w0 n0, get_node (heap w0) this = Some n0 -> (1 <= maxRetries n0)%Z ->
           exists evs, trace (snd (Node__exec user_class this x w0))
                       = trace w0 ++ EvCall Exec this 0 [x] :: evs))
  /\ (isArray items = false -> truthy items = true ->
        let w1 := warned (Text ("BatchNode expected an array but received " +:+ typeof items)) w in
        fst run = singleton_result (fst (Node__exec user_class this items w1))
        /\ snd run = snd (Node__exec user_class this items w1))
  /\ (truthy items = false -> run = (Ret (VArr []), w)).
Proof.
  intros E Hc run. subst run. rewrite (dispatch_exec_BatchNode w this n items E Hc).
  split; [|split].
  - intros xs ->. unfold BatchNode__exec. cbn [truthy negb]. repeat split.
    + intros H. apply bind_inv in H as [(ys' & w1 & Hm & H)|[(e & _ & He)|[_ He]]]; try done.
      unfold ret in H. inversion H; subst. by apply mapM_returns.
    + intros H. apply mapM_returns in H. by rewrite (bind_Ret _ _ _ _ _ H).
    + intros v w' H.
      apply bind_inv in H as [(ys' & w1 & Hm & H)|[(e & _ & He)|[_ He]]]; try done.
      unfold ret in H. inversion H; subst. exists ys'. split; [done|].
      apply mapM_returns in Hm. by apply (each_returns_length _ _ _ _ _ Hm).
    + intros x w0 n0 E0 Hk. by apply (Node_exec_first_attempt w0 this n0).
  - intros Ha Ht w1. unfold BatchNode__exec. rewrite Ht. cbn [negb].
    assert (Hrun : forall k : M U value,
               (warnings_warn (Text ("BatchNode expected an array but received " +:+ typeof items));;; k) w
               = k w1).
    { intros k. unfold bind. by rewrite warnings_warn_eq. }
    destruct items; try discriminate Ha; try discriminate Ht; rewrite Hrun;
      unfold bind, ret; by destruct (Node__exec user_class this _ w1) as [[y|e|] w2].
  - intros Hf. unfold BatchNode__exec. by rewrite Hf.
Qed.

(** *** Batch flows *)

Lemma lookup_merged (base bp : gmap string value) (k : string) :
  (bp ∪ base) !! k = merged_with base bp k.
Proof.
  unfold merged_with. rewrite lookup_union. destruct (bp !! k), (base !! k); done.
Qed.

Lemma batch_params_eq w this n (bp : value) :
  get_node (heap w) this = Some n ->
  batch_params this bp w
  = (Ret (VRef (fresh (dom (heap w)))),
     with_heap (<[fresh (dom (heap w)) := OMap (own_entries (heap w) bp ∪ own_entries (heap w) (params n))]>
                  (heap w)) w).
Proof.
  intros E. unfold batch_params.
  by rewrite (bind_Ret _ _ _ _ _ (this_node_ref _ w this n E)).
Qed.

Lemma batch_params_inv w this (bp : value) (r : result value) w' :
  batch_params this bp w = (r, w') ->
  (exists n, get_node (heap w) this = Some n) \/ (exists e, r = Throw e).
Proof.
  intros H. destruct (get_node (heap w) this) as [n|] eqn:E; [left; by exists n|right].
  unfold batch_params, this_node, bind, node_of in H. rewrite E in H.
  inversion H. eauto.
Qed.

Lemma forEach_sub_runs (orch : value -> M U value) this (ps : list value) :
  forall w w',
    forEach (fun bp => let* p := batch_params this bp in orch p) ps w = (Ret tt, w')
    <-> sub_runs orch this ps w w'.
Proof.
  induction ps as [|bp ps IH]; intros w w'; cbn [forEach sub_runs].
  - unfold ret. split; intros H; [by inversion H|by subst].
  - split.
    + intros H. apply bind_inv in H as [(a & w1 & Hb & H)|[(e & _ & He)|[_ He]]]; try done.
      apply bind_inv in Hb as [(pv & w0 & Hp & Hb)|[(e & _ & He)|[_ He]]]; try done.
      destruct (batch_params_inv _ _ _ _ _ Hp) as [[n E]|[e He]]; [|done].
      rewrite (batch_params_eq w this n bp E) in Hp. inversion Hp; subst pv w0.
      exists n, (own_entries (heap w) bp ∪ own_entries (heap w) (params n)), a, w1.
      split; [done|]. split; [intros k; apply lookup_merged|]. split; [done|].
      by apply IH.
    + intros (n & m & a & w1 & E & Hm & Ho & Hr).
      assert (m = own_entries (heap w) bp ∪ own_entries (heap w) (params n)) as ->.
      { apply map_eq. intros k. by rewrite Hm, lookup_merged. }
      unfold bind at 1. unfold bind at 1.
      rewrite (batch_params_eq w this n bp E), Ho. by apply IH.
Qed.

Lemma dispatch_run_BatchFlow (rec : invocation -> M U value) w this n :
  get_node (heap w) this = Some n -> cls n = BatchFlow ->
  dispatch_run user_class parallel_join rec this w
  = BatchFlow__run user_class rec this w.
Proof.
  intros E Hc. unfold dispatch_run.
  rewrite (bind_Ret _ _ _ _ _ (this_node_ref _ w this n E)). by rewrite Hc.
Qed.

(** C4.  A BatchFlow whose prep returns the array [ps] runs its
    orchestration once per element, in order and one after the other, each
    time on a new mapping holding its own params merged with the element
    (the element's keys winning), ignores what each returns, and ends by
    calling post with [ps] and null; a run that returns has made exactly
    these orchestrations.  Whatever prep returns, the execution result
    given to post is null. *)
Theorem BatchFlow_run_spec (rec : invocation -> M U value) w this n (pr0 : value) (s1 : U) :
  get_node (heap w) this = Some n ->
  cls n = BatchFlow ->
  prep (user_class (impl n)) this (heap w) tt (shared w) = (Ret pr0, s1) ->
  let run := dispatch_run user_class parallel_join rec this w in
  let orch := Flow__orchestrate rec this in
  let w1 := mk_world (heap w) (handlers w) (trace w ++ [EvCall Prep this (curRetry n) []]) s1 in
  (forall ps, pr0 = VArr ps ->
     (forall w2, sub_runs orch this ps w1 w2 ->
        run = call user_class Post post this [VArr ps; VNull] (VArr ps, VNull) w2)
     /\ (forall v w', run = (Ret v, w') ->
           exists w2, sub_runs orch this ps w1 w2
                      /\ call user_class Post post this [VArr ps; VNull] (VArr ps, VNull) w2 = (Ret v, w')))
  /\ (truthy pr0 = false ->
        run = call user_class Post post this [VArr []; VNull] (VArr [], VNull) w1)
  /\ (truthy pr0 = true -> isArray pr0 = false ->
        run = call user_class Post post this [pr0; VNull] (pr0, VNull)
                (warned (Text ("BatchFlow expected an array from prep() but received " +:+ typeof pr0)) w1)).
Proof.
  intros E Hc Hp run orch w1.
  assert (Hrun : run =
    (let pr := if truthy pr0 then pr0 else VArr [] in
     match pr with
     | VArr l =>
         forEach (fun bp => let* p := batch_params this bp in orch p) l ;;;
         call user_class Post post this [pr; VNull] (pr, VNull)
     | _ =>
         warnings_warn (Text ("BatchFlow expected an array from prep() but received " +:+ typeof pr)) ;;;
         call user_class Post post this [pr; VNull] (pr, VNull)
     end) w1).
  { unfold run. rewrite (dispatch_run_BatchFlow rec w this n E Hc). unfold BatchFlow__run.
    unfold bind at 1. by rewrite (call_eq Prep prep w this n _ _ E), Hp. }
  rewrite Hrun. clear Hrun. cbv zeta.
  split; [|split].
  - intros ps ->. cbn [truthy]. split.
    + intros w2 Hs. apply forEach_sub_runs in Hs.
      by rewrite (bind_Ret _ _ _ _ _ Hs).
    + intros v w' H.
      apply bind_inv in H as [([] & w2 & Hf & H)|[(e & _ & He)|[_ He]]]; try done.
      exists w2. split; [apply forEach_sub_runs; exact Hf|exact H].
  - intros Hf. rewrite Hf. cbn [forEach]. unfold bind, ret. done.
  - intros Ht Ha. rewrite Ht.
    destruct pr0; try discriminate Ha; try discriminate Ht;
      unfold bind; by rewrite warnings_warn_eq.
Qed.

(** *** What a run leaves untouched *)

Lemma heap_kept_refl w : heap_kept w w.
Proof. by intros x o H. Qed.

Lemma heap_kept_trans w1 w2 w3 : heap_kept w1 w2 -> heap_kept w2 w3 -> heap_kept w1 w3.
Proof. intros H1 H2 x o H. by apply H2, H1. Qed.

Lemma heap_kept_same_heap w w' : heap w' = heap w -> heap_kept w w'.
Proof. intros E x o H. by rewrite E. Qed.

Lemma same_but_attempt_refl (o : obj) : same_but_attempt o o.
Proof. destruct o as [n|m|m p]; cbn; [|done..]. exists (curRetry n). by rewrite set_curRetry_same. Qed.

Lemma same_but_attempt_trans (o1 o2 o3 : obj) :
  same_but_attempt o1 o2 -> same_but_attempt o2 o3 -> same_but_attempt o1 o3.
Proof.
  destruct o1, o2, o3; cbn; try done; try congruence.
  intros [i ->] [j ->]. by exists j.
Qed.

Lemma only_attempt_refl this w : only_attempt this w w.
Proof.
  intros x o H. exists o. split; [done|]. destruct (decide (x = this)); [|done].
  apply same_but_attempt_refl.
Qed.

Lemma only_attempt_trans this w1 w2 w3 :
  only_attempt this w1 w2 -> only_attempt this w2 w3 -> only_attempt this w1 w3.
Proof.
  intros H1 H2 x o H. destruct (H1 x o H) as (o2 & Ho2 & R12).
  destruct (H2 x o2 Ho2) as (o3 & Ho3 & R23). exists o3. split; [done|].
  destruct (decide (x = this)); [by eapply same_but_attempt_trans|by subst].
Qed.

Lemma heap_kept_only_attempt this w w' : heap_kept w w' -> only_attempt this w w'.
Proof.
  intros Hk x o H. exists o. split; [by apply Hk|].
  destruct (decide (x = this)); [apply same_but_attempt_refl|done].
Qed.

(** What happens to a freshly allocated node does not concern the objects
    that existed before. *)
Lemma heap_kept_through_fresh w w2 w3 (r' : ref) :
  heap_kept w w2 -> heap w !! r' = None -> only_attempt r' w2 w3 -> heap_kept w w3.
Proof.
  intros Hk Hf Ho x o H. destruct (Ho x o (Hk x o H)) as (o' & Ho' & R).
  destruct (decide (x = r')) as [->|_]; [congruence|by subst].
Qed.

Lemma preserves_bind {A B : Type} (R : world U -> world U -> Prop)
    (m : M U A) (k : A -> M U B) :
  (forall w1 w2 w3, R w1 w2 -> R w2 w3 -> R w1 w3) ->
  preserves R m -> (forall a, preserves R (k a)) -> preserves R (bind m k).
Proof.
  intros Ht Hm Hk w r w' H.
  apply bind_inv in H as [(a & w1 & Ha & H)|[(e & He & _)|[He _]]].
  - eapply Ht; [by eapply Hm|by eapply Hk].
  - by eapply Hm.
  - by eapply Hm.
Qed.

Lemma preserves_try_catch {A : Type} (R : world U -> world U -> Prop)
    (m : M U A) (hd : exn -> M U A) :
  (forall w1 w2 w3, R w1 w2 -> R w2 w3 -> R w1 w3) ->
  preserves R m -> (forall e, preserves R (hd e)) -> preserves R (try_catch m hd).
Proof.
  intros Ht Hm Hh w r w' H. unfold try_catch in H.
  destruct (m w) as [[a|e|] w1] eqn:Em.
  - inversion H; subst. by eapply Hm.
  - eapply Ht; [by eapply Hm|by eapply Hh].
  - inversion H; subst. by eapply Hm.
Qed.

Lemma preserves_weaken {A : Type} (R R' : world U -> world U -> Prop) (m : M U A) :
  (forall w w', R w w' -> R' w w') -> preserves R m -> preserves R' m.
Proof. intros Hw Hm w r w' H. by eapply Hw, Hm. Qed.

Lemma preserves_same_heap {A : Type} (m : M U A) :
  (forall w, heap (snd (m w)) = heap w) -> preserves heap_kept m.
Proof.
  intros Hm w r w' H. apply heap_kept_same_heap. specialize (Hm w). by rewrite H in Hm.
Qed.

Lemma preserves_ret {A : Type} (a : A) : preserves heap_kept (ret (U := U) a).
Proof. by apply preserves_same_heap. Qed.

Lemma preserves_throw {A : Type} (e : exn) : preserves heap_kept (throw (U := U) (A := A) e).
Proof. by apply preserves_same_heap. Qed.

Lemma preserves_diverge {A : Type} : preserves heap_kept (diverge (U := U) (A := A)).
Proof. by apply preserves_same_heap. Qed.

Lemma preserves_read {A : Type} (f : world U -> A) : preserves heap_kept (read f).
Proof. by apply preserves_same_heap. Qed.

Lemma preserves_warn (msg : message) : preserves heap_kept (warnings_warn (U := U) msg).
Proof. apply preserves_same_heap. intros w. by rewrite warnings_warn_eq. Qed.

Lemma preserves_log (e : event) : preserves heap_kept (log (U := U) e).
Proof. by apply preserves_same_heap. Qed.

Lemma preserves_node_of (what : string) v : preserves heap_kept (node_of (U := U) what v).
Proof.
  apply preserves_same_heap. intros w. unfold node_of.
  destruct v; try done. by destruct (get_node (heap w) r).
Qed.

Lemma preserves_this_node (what : string) this : preserves heap_kept (this_node (U := U) what this).
Proof.
  apply preserves_bind; [apply heap_kept_trans|apply preserves_node_of|].
  intros a. apply preserves_ret.
Qed.

Lemma preserves_call {A : Type} (ph : phase) (sel : hooks U -> hook_fn U A) this
    (args : list value) (a : A) :
  preserves heap_kept (call user_class ph sel this args a).
Proof.
  apply preserves_same_heap. intros w. unfold call.
  destruct (get_node (heap w) this) as [n|]; [|done].
  by destruct (sel (user_class (impl n)) this (heap (emit _ w)) a (shared (emit _ w))).
Qed.

Lemma preserves_alloc (o : obj) : preserves heap_kept (alloc (U := U) o).
Proof.
  intros w r w' H. unfold alloc in H. inversion H; subst.
  intros x ox Hx. cbn [heap with_heap]. by apply insert_fresh_keeps.
Qed.

Lemma preserves_set_curRetry this (f : node -> Z) :
  preserves (only_attempt this) (update_node (U := U) this (fun n => set_curRetry (f n) n)).
Proof.
  intros w r w' H. unfold update_node in H.
  destruct (get_node (heap w) this) as [n|] eqn:E; inversion H; subst;
    [|apply only_attempt_refl].
  apply get_node_Some in E.
  intros x o Hx. cbn [heap with_heap].
  destruct (decide (x = this)) as [->|Hne].
  - rewrite lookup_insert_eq. eexists. split; [done|].
    rewrite E in Hx. inversion Hx; subst. cbn. by eexists.
  - rewrite lookup_insert_ne; [|done]. by exists o.
Qed.

Create HintDb pres.

Ltac kept :=
  repeat first
    [ solve [auto 1 with pres nocore]
    | apply preserves_ret | apply preserves_throw | apply preserves_diverge
    | apply preserves_read | apply preserves_warn | apply preserves_log
    | apply preserves_node_of | apply preserves_this_node
    | apply preserves_call | apply preserves_alloc
    | (apply preserves_bind; [apply heap_kept_trans | | intros ?]) ].

Ltac attempt_only :=
  repeat first
    [ solve [auto 1 with pres nocore]
    | apply preserves_set_curRetry
    | (apply (preserves_weaken heap_kept); [apply heap_kept_only_attempt | solve [kept]])
    | (apply preserves_bind; [apply only_attempt_trans | | intros ?])
    | (apply preserves_try_catch; [apply only_attempt_trans | | intros ?]) ].

Lemma preserves_when (R : world U -> world U -> Prop) (b : bool) (m : M U unit) :
  (forall w, R w w) -> preserves R m -> preserves R (when_ b m).
Proof.
  intros Hr Hm. destruct b; [done|]. intros w r w' H. inversion H; subst. apply Hr.
Qed.

Lemma preserves_Node_exec_loop this (p : value) (budget : nat) :
  preserves (only_attempt this) (Node__exec_loop user_class budget this p).
Proof.
  induction budget as [|budget IH]; cbn [Node__exec_loop].
  - attempt_only. destruct (curRetry _ <? maxRetries _)%Z; attempt_only.
  - attempt_only. destruct (curRetry _ <? maxRetries _)%Z; attempt_only.
    destruct (curRetry _ =? maxRetries _ - 1)%Z; attempt_only; try exact IH.
    apply preserves_when; [apply only_attempt_refl|]. attempt_only.
Qed.
#[local] Hint Resolve preserves_Node_exec_loop : pres.

Lemma preserves_Node_exec this (p : value) :
  preserves (only_attempt this) (Node__exec user_class this p).
Proof.
  unfold Node__exec. attempt_only.
Qed.
#[local] Hint Resolve preserves_Node_exec : pres.

(** *** The synchronous wait, for Node and BatchNode *)

Lemma Node_exec_keeps_node w this n (x : value) :
  get_node (heap w) this = Some n ->
  exists i, get_node (heap (snd (Node__exec user_class this x w))) this = Some (set_curRetry i n).
Proof.
  intros E. destruct (Node__exec user_class this x w) as [r w'] eqn:H.
  apply preserves_Node_exec in H. apply get_node_Some in E.
  destruct (H this _ E) as (o' & Ho & Hs). rewrite decide_True in Hs by done.
  destruct o' as [n'| |]; try done. destruct Hs as [i ->].
  exists i. by apply get_node_Some.
Qed.

Lemma Node_exec_wait_irrelevant this (x : value) (z : Z) n w wz :
  get_node (heap w) this = Some n ->
  wait_blind (user_class (impl n)) this ->
  wait_apart this z w wz ->
  fst (Node__exec user_class this x wz) = fst (Node__exec user_class this x w)
  /\ wait_apart this z (snd (Node__exec user_class this x w)) (snd (Node__exec user_class this x wz)).
Proof.
  intros E Hblind (Hh & Hs & Ht).
  assert (Ez : get_node (heap wz) this = Some (set_wait z n)).
  { rewrite Hh. by apply rewait_node. }
  rewrite (Node_exec_unfold w this n x E).
  rewrite (Node_exec_unfold wz this (set_wait z n) x Ez).
  cbn [maxRetries set_wait].
  set (w1 := with_heap (<[this := ONode (set_curRetry 0 n)]> (heap w)) w).
  set (wz1 := with_heap (<[this := ONode (set_curRetry 0 (set_wait z n))]> (heap wz)) wz).
  assert (E1 : get_node (heap w1) this = Some (set_curRetry 0 n)) by apply get_node_insert_same.
  destruct (Node_exec_loop_wait_irrelevant this x z (Z.to_nat (maxRetries n))
              (set_curRetry 0 n) w1 wz1) as (H1 & H2 & H3 & H4); try done.
  cbn [heap wz1 w1 with_heap]. rewrite Hh.
  change (set_curRetry 0 (set_wait z n)) with (set_wait z (set_curRetry 0 n)).
  by apply (rewait_insert _ _ n).
Qed.

Lemma mapM_wait_irrelevant this (z : Z) (xs : list value) :
  forall n w wz,
    get_node (heap w) this = Some n ->
    wait_blind (user_class (impl n)) this ->
    wait_apart this z w wz ->
    fst (mapM (Node__exec user_class this) xs wz) = fst (mapM (Node__exec user_class this) xs w)
    /\ wait_apart this z (snd (mapM (Node__exec user_class this) xs w))
         (snd (mapM (Node__exec user_class this) xs wz)).
Proof.
  induction xs as [|x xs IH]; intros n w wz E Hblind Hw; [done|].
  cbn [mapM]. unfold bind at 1 3 5 7.
  destruct (Node_exec_wait_irrelevant this x z n w wz E Hblind Hw) as [H1 H2].
  destruct (Node_exec_keeps_node w this n x E) as [i Ei].
  destruct (Node__exec user_class this x w) as [[y|e|] w1],
           (Node__exec user_class this x wz) as [[yz|ez|] wz1];
    cbn [fst snd] in *; try done; try (by inversion H1).
  inversion H1; subst yz.
  destruct (IH _ w1 wz1 Ei Hblind H2) as [H3 H4].
  unfold bind, ret.
  destruct (mapM (Node__exec user_class this) xs w1) as [[ys|e|] w2],
           (mapM (Node__exec user_class this) xs wz1) as [[ysz|ez|] wz2];
    cbn [fst snd] in *; try done; by inversion H3.
Qed.

Lemma sync_retry_event_sync (z : Z) (e : event) : sync_retry_event z e -> sync_event e = true.
Proof. intros [Hc|[->|[hd ->]]]; [by destruct e|done|done]. Qed.

Lemma Node_exec_sync_events w this n (x : value) :
  get_node (heap w) this = Some n ->
  exists evs,
    trace (snd (Node__exec user_class this x w)) = trace w ++ evs
    /\ Forall (fun e => sync_event e = true) evs.
Proof.
  intros E. rewrite (Node_exec_unfold w this n x E).
  set (w1 := with_heap _ w).
  destruct (Node_exec_loop_events this x (Z.to_nat (maxRetries n)) (set_curRetry 0 n) w1)
    as (evs & Htr & Hall); [apply get_node_insert_same|].
  exists evs. split; [done|].
  eapply Forall_impl; [exact Hall|]. intros e. apply sync_retry_event_sync.
Qed.

Lemma mapM_sync_events this (xs : list value) :
  forall n w,
    get_node (heap w) this = Some n ->
    exists evs,
      trace (snd (mapM (Node__exec user_class this) xs w)) = trace w ++ evs
      /\ Forall (fun e => sync_event e = true) evs.
Proof.
  induction xs as [|x xs IH]; intros n w E.
  - exists []. by rewrite app_nil_r.
  - cbn [mapM]. unfold bind at 1.
    destruct (Node_exec_sync_events w this n x E) as (evs & Htr & Hall).
    destruct (Node_exec_keeps_node w this n x E) as [i Ei].
    destruct (Node__exec user_class this x w) as [[y|e|] w1]; cbn [fst snd] in *;
      try (by exists evs).
    destruct (IH _ w1 Ei) as (evs' & Htr' & Hall').
    unfold bind, ret.
    destruct (mapM (Node__exec user_class this) xs w1) as [[ys|e|] w2]; cbn [fst snd] in *;
      exists (evs ++ evs'); rewrite Htr', Htr, <- app_assoc; (split; [done|]);
      by apply Forall_app.
Qed.

(** The events of the retry logic up to attempt [d], the earlier attempts
    having thrown. *)
Lemma Node_exec_failed_prefix w this n (x : value) (d : nat) :
  get_node (heap w) this = Some n ->
  (Z.of_nat d < maxRetries n)%Z ->
  (forall i, (i < d)%nat ->
     throws (attempt (exec (user_class (impl n))) (heap w) this n x (shared w) i)) ->
  exists rest,
    trace (snd (Node__exec user_class this x w))
    = trace w ++ failed_attempts (handlers w) this x (wait n) 0 d
        ++ EvCall Exec this (Z.of_nat d) [x] :: rest.
Proof.
  intros E Hlt Hfail.
  rewrite (Node_exec_run w this n x d E Hlt Hfail).
  destruct (fst (attempt (exec (user_class (impl n))) (heap w) this n x (shared w) d))
    as [v|e|]; cbn [snd trace].
  - by exists [].
  - destruct (Z.of_nat d =? maxRetries n - 1)%Z.
    + set (wd := mk_world _ _ _ _).
      assert (Ed : get_node (heap wd) this = Some (set_curRetry (Z.of_nat d) n))
        by apply attempt_heap_node.
      rewrite (call_eq ExecFallback execFallback wd this _ _ _ Ed). cbn [snd trace wd].
      eexists. by rewrite <- !app_assoc.
    + set (w2 := mk_world _ _ _ _).
      destruct (Node_exec_loop_events this x (Z.to_nat (maxRetries n) - S d)
                  (set_curRetry (Z.of_nat (S d)) n) w2) as (evs & Htr & _);
        [apply attempt_heap_node|].
      rewrite Htr. cbn [trace w2].
      pose proof (failed_attempts_snoc (handlers w) this x (wait n) d 0%Z) as Hsnoc.
      rewrite Z.add_0_l in Hsnoc. rewrite <- Hsnoc.
      eexists. rewrite <- !app_assoc. cbn [app]. reflexivity.
  - by exists [].
Qed.

(** C6.  The synchronous family, Node and BatchNode, driven through
    [_exec].  (1) Whatever [wait] is replaced by, the run returns the same
    outcome, leaves the same shared context and makes the same calls of
    exec and execFallback in the same order.  (2) The run leaves calls,
    warnings and timers only: it never suspends.  (3) A Node runs the retry
    logic on the prep result; a BatchNode given an array runs it on each
    element in turn.  (4) In the retry logic, after each of the first [d]
    attempts, when they throw and are not the last one permitted, a
    positive [wait] emits the warning about synchronous waiting and sets
    one timer of [wait * 1000] ms whose callback is empty, and the next
    call of exec follows at once (with [wait <= 0] it follows directly):
    the pause before a retry is not taken. *)
Theorem Node_sync_wait_not_honoured w this n (p : value) (z : Z) :
  get_node (heap w) this = Some n ->
  cls n = Node \/ cls n = BatchNode ->
  wait_blind (user_class (impl n)) this ->
  let run := dispatch_exec user_class parallel_join this p w in
  let run_z := dispatch_exec user_class parallel_join this p
                 (with_heap (rewait this z (heap w)) w) in
  let retried := Node__exec user_class this in
  (fst run_z = fst run
   /\ shared (snd run_z) = shared (snd run)
   /\ calls_of (trace (snd run_z)) = calls_of (trace (snd run)))
  /\ (exists evs,
        trace (snd run) = trace w ++ evs
        /\ Forall (fun e => sync_event e = true) evs
        /\ forall ms, EvSleep ms ∉ evs)
  /\ (cls n = Node -> run = retried p w)
  /\ (cls n = BatchNode -> forall xs, p = VArr xs ->
        forall ys w', run = (Ret (VArr ys), w') <-> each_returns retried xs ys w w')
  /\ (forall (x : value) w0 n0 (d : nat),
        get_node (heap w0) this = Some n0 ->
        (Z.of_nat d < maxRetries n0)%Z ->
        (forall i, (i < d)%nat ->
           throws (attempt (exec (user_class (impl n0))) (heap w0) this n0 x (shared w0) i)) ->
        exists rest,
          trace (snd (retried x w0))
          = trace w0 ++ failed_attempts (handlers w0) this x (wait n0) 0 d
              ++ EvCall Exec this (Z.of_nat d) [x] :: rest).
Proof.
  intros E Hc Hblind run run_z retried. subst run run_z retried.
  set (wz := with_heap (rewait this z (heap w)) w).
  assert (Ez : get_node (heap wz) this = Some (set_wait z n)).
  { cbn [heap wz with_heap]. by apply rewait_node. }
  assert (Hw : wait_apart this z w wz) by done.
  assert (Hsleep : forall evs : list event,
             Forall (fun e => sync_event e = true) evs -> forall ms, EvSleep ms ∉ evs).
  { intros evs Hall ms Hin. rewrite Forall_forall in Hall. by apply Hall in Hin. }
  split; [|split; [|split; [|split]]].
  - destruct Hc as [Hc|Hc].
    + rewrite (dispatch_exec_Node w this n p E Hc).
      rewrite (dispatch_exec_Node wz this (set_wait z n) p Ez Hc).
      destruct (Node_exec_wait_irrelevant this p z n w wz E Hblind Hw) as (H1 & _ & H2 & H3).
      done.
    + rewrite (dispatch_exec_BatchNode w this n p E Hc).
      rewrite (dispatch_exec_BatchNode wz this (set_wait z n) p Ez Hc).
      unfold BatchNode__exec. destruct (truthy p) eqn:Ht; cbn [negb]; [|done].
      assert (Hone : forall (w1 wz1 : world U),
                 get_node (heap w1) this = Some n -> wait_apart this z w1 wz1 ->
                 let r := (let* y := Node__exec user_class this p in ret (VArr [y])) w1 in
                 let rz := (let* y := Node__exec user_class this p in ret (VArr [y])) wz1 in
                 fst rz = fst r /\ shared (snd rz) = shared (snd r)
                 /\ calls_of (trace (snd rz)) = calls_of (trace (snd r))).
      { intros w1 wz1 E1 Hw1. unfold bind, ret.
        destruct (Node_exec_wait_irrelevant this p z n w1 wz1 E1 Hblind Hw1) as (H1 & _ & H2 & H3).
        destruct (Node__exec user_class this p w1) as [[y|e|] w2],
                 (Node__exec user_class this p wz1) as [[yz|ez|] wz2];
          cbn [fst snd] in *; try done; by inversion H1. }
      assert (Hwarn : forall msg (k : M U value) (w1 : world U), (warnings_warn msg;;; k) w1 = k (warned msg w1)).
      { intros msg k w1. unfold bind. by rewrite warnings_warn_eq. }
      assert (Hwa : forall msg, wait_apart this z (warned msg w) (warned msg wz)).
      { intros msg. repeat split; cbn [warned heap shared trace wz with_heap handlers]; done. }
      destruct p as [| |b|k|s|xs|m|r|x]; try discriminate Ht;
        try (rewrite !Hwarn; apply Hone; [done | apply Hwa]).
      destruct (mapM_wait_irrelevant this z xs n w wz E Hblind Hw) as (H1 & _ & H2 & H3).
      unfold bind, ret.
      destruct (mapM (Node__exec user_class this) xs w) as [[ys|e|] w2],
               (mapM (Node__exec user_class this) xs wz) as [[ysz|ez|] wz2];
        cbn [fst snd] in *; try done; by inversion H1.
  - assert (Hev : exists evs, trace (snd (dispatch_exec user_class parallel_join this p w))
                              = trace w ++ evs /\ Forall (fun e => sync_event e = true) evs).
    { destruct Hc as [Hc|Hc].
      + rewrite (dispatch_exec_Node w this n p E Hc). by apply (Node_exec_sync_events w this n).
      + rewrite (dispatch_exec_BatchNode w this n p E Hc).
        unfold BatchNode__exec. destruct (truthy p) eqn:Ht; cbn [negb].
        2: { exists []. by rewrite app_nil_r. }
        assert (Hone : forall msg,
                   exists evs,
                     trace (snd ((warnings_warn msg;;;
                                  let* y := Node__exec user_class this p in ret (VArr [y])) w))
                     = trace w ++ evs /\ Forall (fun e => sync_event e = true) evs).
        { intros msg. unfold bind at 1. rewrite warnings_warn_eq.
          set (w1 := mk_world _ _ _ _).
          destruct (Node_exec_sync_events w1 this n p E) as (evs & Htr & Hall).
          exists (map (fun hd => EvHandler hd msg) (handlers w) ++ evs).
          split.
          - unfold bind, ret.
            destruct (Node__exec user_class this p w1) as [[y|e|] w2]; cbn [fst snd] in *;
              rewrite Htr; cbn [trace w1]; by rewrite <- app_assoc.
          - apply Forall_app. split; [|done]. apply Forall_fmap. by apply Forall_forall. }
        destruct p as [| |b|k|s|xs|m|r|x]; try discriminate Ht; try apply Hone.
        destruct (mapM_sync_events this xs n w E) as (evs & Htr & Hall).
        exists evs. split; [|done]. unfold bind, ret.
        by destruct (mapM (Node__exec user_class this) xs w) as [[ys|e|] w2]. }
    destruct Hev as (evs & Htr & Hall). exists evs. split; [done|]. split; [done|].
    by apply Hsleep.
  - intros Hn. by apply (dispatch_exec_Node w this n p E).
  - intros Hb xs -> ys w'. rewrite (dispatch_exec_BatchNode w this n _ E Hb).
    unfold BatchNode__exec. cbn [truthy negb]. split.
    + intros H. apply bind_inv in H as [(ys' & w1 & Hm & H)|[(e & _ & He)|[_ He]]]; try done.
      unfold ret in H. inversion H; subst. by apply mapM_returns.
    + intros H. apply mapM_returns in H. by rewrite (bind_Ret _ _ _ _ _ H).
  - intros x w0 n0 d E0 Hlt Hfail. by apply (Node_exec_failed_prefix w0 this n0 x d).
Qed.

Lemma preserves_AsyncNode_exec_loop this (p : value) (budget : nat) :
  preserves (only_attempt this) (AsyncNode__exec_loop user_class budget this p).
Proof.
  induction budget as [|budget IH]; cbn [AsyncNode__exec_loop].
  - attempt_only. destruct (curRetry _ <? maxRetries _)%Z; attempt_only.
  - attempt_only. destruct (curRetry _ <? maxRetries _)%Z; attempt_only.
    destruct (curRetry _ =? maxRetries _ - 1)%Z; attempt_only; try exact IH.
    apply preserves_when; [apply only_attempt_refl|]. attempt_only.
Qed.
#[local] Hint Resolve preserves_AsyncNode_exec_loop : pres.

Lemma preserves_AsyncNode_exec this (p : value) :
  preserves (only_attempt this) (AsyncNode__exec user_class this p).
Proof.
  unfold AsyncNode__exec. attempt_only.
Qed.
#[local] Hint Resolve preserves_AsyncNode_exec : pres.

Lemma preserves_mapM (R : world U -> world U -> Prop) (f : value -> M U value) (l : list value) :
  (forall w, R w w) ->
  (forall w1 w2 w3, R w1 w2 -> R w2 w3 -> R w1 w3) ->
  (forall x, preserves R (f x)) -> preserves R (mapM f l).
Proof.
  intros Hr Ht Hf. induction l as [|x l IH]; cbn [mapM].
  - intros w r w' H. inversion H; subst. apply Hr.
  - apply preserves_bind; [done|apply Hf|]. intros y.
    apply preserves_bind; [done|apply IH|]. intros ys.
    intros w r w' H. inversion H; subst. apply Hr.
Qed.

Lemma preserves_forEach (R : world U -> world U -> Prop) (f : value -> M U value) (l : list value) :
  (forall w, R w w) ->
  (forall w1 w2 w3, R w1 w2 -> R w2 w3 -> R w1 w3) ->
  (forall x, preserves R (f x)) -> preserves R (forEach f l).
Proof.
  intros Hr Ht Hf. induction l as [|x l IH]; cbn [forEach].
  - intros w r w' H. inversion H; subst. apply Hr.
  - apply preserves_bind; [done|apply Hf|]. intros _. apply IH.
Qed.

Lemma preserves_BatchNode_exec this (p : value) :
  preserves (only_attempt this) (BatchNode__exec user_class this p).
Proof.
  unfold BatchNode__exec. destruct (negb (truthy p)); attempt_only.
  destruct p; attempt_only.
  apply preserves_mapM;
    [apply only_attempt_refl|apply only_attempt_trans|intros x; apply preserves_Node_exec].
Qed.
#[local] Hint Resolve preserves_BatchNode_exec : pres.

Lemma preserves_AsyncBatchNode_exec this (p : value) :
  preserves (only_attempt this) (AsyncBatchNode__exec user_class this p).
Proof.
  unfold AsyncBatchNode__exec. destruct (negb (truthy p)); attempt_only.
  destruct p; attempt_only.
  apply preserves_mapM;
    [apply only_attempt_refl|apply only_attempt_trans|intros x; apply preserves_AsyncNode_exec].
Qed.
#[local] Hint Resolve preserves_AsyncBatchNode_exec : pres.

Lemma preserves_AsyncParallelBatchNode_exec this (p : value) :
  preserves (only_attempt this) (AsyncParallelBatchNode__exec user_class parallel_join this p).
Proof.
  unfold AsyncParallelBatchNode__exec. destruct (negb (truthy p)); attempt_only.
  destruct p; attempt_only.
  intros w r w' H.
  destruct (parallel_join this (heap w) l (shared w)) as [[r0 s] i].
  inversion H; subst.
  destruct (update_node this (set_curRetry i) (with_shared s w)) as [r1 w1] eqn:Eu.
  cbn [snd].
  pose proof (preserves_set_curRetry this (fun _ => i) _ _ _ Eu) as Ho.
  intros x o Hx. by apply Ho.
Qed.
#[local] Hint Resolve preserves_AsyncParallelBatchNode_exec : pres.

Lemma preserves_dispatch_exec this (p : value) :
  preserves (only_attempt this) (dispatch_exec user_class parallel_join this p).
Proof.
  unfold dispatch_exec. attempt_only.
  destruct (cls _); unfold BaseNode__exec; attempt_only.
Qed.
#[local] Hint Resolve preserves_dispatch_exec : pres.

Lemma preserves_BaseNode_run this :
  preserves (only_attempt this) (BaseNode__run user_class parallel_join this).
Proof. unfold BaseNode__run. attempt_only. Qed.
#[local] Hint Resolve preserves_BaseNode_run : pres.

Lemma preserves_AsyncNode_runAsync this :
  preserves (only_attempt this) (AsyncNode__runAsync user_class parallel_join this).
Proof. unfold AsyncNode__runAsync. attempt_only. Qed.
#[local] Hint Resolve preserves_AsyncNode_runAsync : pres.

Lemma preserves_getNextNode (curr act : value) :
  preserves heap_kept (Flow_getNextNode (U := U) curr act).
Proof.
  unfold Flow_getNextNode. kept.
  apply preserves_when; [apply heap_kept_refl|]. kept.
Qed.
#[local] Hint Resolve preserves_getNextNode : pres.

Lemma kept_except_refl (r : ref) w : kept_except r w w.
Proof. by intros x o _ H. Qed.

Lemma kept_except_trans (r : ref) w1 w2 w3 :
  kept_except r w1 w2 -> kept_except r w2 w3 -> kept_except r w1 w3.
Proof. intros H1 H2 x o Hne H. by apply H2, H1. Qed.

Lemma heap_kept_kept_except (r : ref) w w' : heap_kept w w' -> kept_except r w w'.
Proof. intros Hk x o _ H. by apply Hk. Qed.

Lemma only_attempt_kept_except (r : ref) w w' : only_attempt r w w' -> kept_except r w w'.
Proof.
  intros Ho x o Hne H. destruct (Ho x o H) as (o' & Ho' & R).
  destruct (decide (x = r)); [done|by subst].
Qed.

Lemma preserves_setParams (r : ref) (p : value) :
  preserves (kept_except r) (BaseNode_setParams (U := U) r p).
Proof.
  intros w res w' H. unfold BaseNode_setParams in H.
  destruct (is_null p || negb (String.eqb (typeof p) "object")).
  - inversion H; subst. apply kept_except_refl.
  - unfold update_node in H. destruct (get_node (heap w) r); inversion H; subst.
    + intros x o Hne Hx. cbn [heap with_heap]. by rewrite lookup_insert_ne.
    + apply kept_except_refl.
Qed.

Lemma node_of_inv (what : string) v w (rn : ref * node) w' :
  node_of what v w = (Ret rn, w') ->
  v = VRef (fst rn) /\ get_node (heap w) (fst rn) = Some (snd rn) /\ w' = w.
Proof.
  unfold node_of. destruct v; try done.
  destruct (get_node (heap w) r) as [n|] eqn:E; [|done].
  intros H. inversion H; subst. done.
Qed.

Lemma shallowCopy_inv (curr : value) w (res : result value) w' :
  shallowCopy curr w = (res, w') ->
  (exists r0 o, curr = VRef r0 /\ heap w !! r0 = Some o
                /\ res = Ret (VRef (fresh (dom (heap w))))
                /\ w' = with_heap (<[fresh (dom (heap w)) := o]> (heap w)) w)
  \/ (res = Ret curr /\ w' = w /\ forall r0, curr = VRef r0 -> heap w !! r0 = None).
Proof.
  unfold shallowCopy. destruct curr; try (intros H; inversion H; subst; right; by repeat split).
  destruct (heap w !! r) as [o|] eqn:E.
  - intros H. left. exists r, o. inversion H; subst. done.
  - intros H. inversion H; subst. right. repeat split. intros r0 Hr. by inversion Hr; subst.
Qed.

Section Frame.

Variable rec : invocation -> M U value.
Hypothesis rec_frame : forall c, preserves (frame_of c) (rec c).

(** The turn of the loop after the clone [r'] has been made. *)
Lemma preserves_loop_tail (async : bool) (curr p : value) (r' : ref) (n' : node) :
  preserves (kept_except r')
    (BaseNode_setParams r' p ;;;
     let* lastAction' :=
       (if async && instanceof_AsyncNode (cls n')
        then AsyncNode__runAsync user_class parallel_join r'
        else rec (CRun r')) in
     let* next := Flow_getNextNode curr lastAction' in
     rec (CLoop async next p lastAction')).
Proof.
  apply preserves_bind; [apply kept_except_trans|apply preserves_setParams|intros _].
  apply preserves_bind; [apply kept_except_trans| |intros la].
  { apply (preserves_weaken (only_attempt r')); [apply only_attempt_kept_except|].
    destruct (async && instanceof_AsyncNode (cls n')).
    - apply preserves_AsyncNode_runAsync.
    - apply (rec_frame (CRun r')). }
  apply preserves_bind; [apply kept_except_trans| |intros next].
  { apply (preserves_weaken heap_kept); [apply heap_kept_kept_except|].
    apply preserves_getNextNode. }
  apply (preserves_weaken heap_kept); [apply heap_kept_kept_except|].
  apply (rec_frame (CLoop async next p la)).
Qed.

Lemma preserves_loop_turn (async : bool) (curr p : value) (r' : ref) :
  preserves (kept_except r')
    (let* rn := node_of "currentNode.setParams" (VRef r') in
     BaseNode_setParams (fst rn) p ;;;
     let* lastAction' :=
       (if async && instanceof_AsyncNode (cls (snd rn))
        then AsyncNode__runAsync user_class parallel_join (fst rn)
        else rec (CRun (fst rn))) in
     let* next := Flow_getNextNode curr lastAction' in
     rec (CLoop async next p lastAction')).
Proof.
  intros w res w' H.
  apply bind_inv in H as [(rn & w1 & Hn & H)|[(e & Hn & _)|[Hn _]]].
  - apply node_of_inv in Hn as (Hv & _ & ->). destruct rn as [r1 n1].
    cbn [fst snd] in *. inversion Hv; subst r1.
    exact (preserves_loop_tail async curr p r' n1 _ _ _ H).
  - apply heap_kept_kept_except. by apply (preserves_node_of _ _ _ _ _ Hn).
  - apply heap_kept_kept_except. by apply (preserves_node_of _ _ _ _ _ Hn).
Qed.

Lemma preserves_orchestrate_loop (async : bool) (curr p lastAction : value) :
  preserves heap_kept
    (orchestrate_loop user_class parallel_join rec async curr p lastAction).
Proof.
  intros w res w' H. unfold orchestrate_loop in H.
  destruct (truthy curr); [|inversion H; subst; apply heap_kept_refl].
  apply bind_inv in H as [(cn & w1 & Hsc & H)|[(e & Hsc & _)|[Hsc _]]].
  - apply shallowCopy_inv in Hsc as [(r0 & o & -> & Ho & Hcn & ->)|(Hcn & -> & Hnone)].
    + inversion Hcn; subst cn.
      pose proof (preserves_loop_turn async (VRef r0) p _ _ _ _ H) as Hk.
      intros x ox Hx. apply Hk.
      * intros ->. rewrite fresh_not_in_heap in Hx. discriminate.
      * cbn [heap with_heap]. by apply insert_fresh_keeps.
    + inversion Hcn; subst cn.
      unfold bind, node_of in H. destruct curr; try (inversion H; subst; apply heap_kept_refl).
      unfold get_node in H. rewrite (Hnone r eq_refl) in H.
      inversion H; subst; apply heap_kept_refl.
  - apply shallowCopy_inv in Hsc as [(r0 & o & _ & _ & Hcn & _)|(Hcn & _)]; discriminate.
  - apply shallowCopy_inv in Hsc as [(r0 & o & _ & _ & Hcn & _)|(Hcn & _)]; discriminate.
Qed.

Lemma preserves_merged_params n (override : value) :
  preserves heap_kept (merged_params (U := U) n override).
Proof. unfold merged_params. destruct (truthy override); kept. Qed.
#[local] Hint Resolve preserves_merged_params : pres.

Lemma preserves_Flow_orchestrate this (override : value) :
  preserves heap_kept (Flow__orchestrate rec this override).
Proof.
  unfold Flow__orchestrate. kept. destruct (negb (truthy (startNode _))); kept.
  apply (rec_frame (CLoop false _ _ _)).
Qed.
#[local] Hint Resolve preserves_Flow_orchestrate : pres.

Lemma preserves_AsyncFlow_orchestrateAsync this (override : value) :
  preserves heap_kept (AsyncFlow__orchestrateAsync rec this override).
Proof.
  unfold AsyncFlow__orchestrateAsync. kept. destruct (negb (truthy (startNode _))); kept.
  apply (rec_frame (CLoop true _ _ _)).
Qed.
#[local] Hint Resolve preserves_AsyncFlow_orchestrateAsync : pres.

Lemma preserves_batch_params this (bp : value) :
  preserves heap_kept (batch_params (U := U) this bp).
Proof. unfold batch_params. kept. Qed.
#[local] Hint Resolve preserves_batch_params : pres.

Lemma preserves_Flow_run this : preserves heap_kept (Flow__run user_class rec this).
Proof. unfold Flow__run. kept. Qed.
#[local] Hint Resolve preserves_Flow_run : pres.

Lemma preserves_AsyncFlow_runAsync this :
  preserves heap_kept (AsyncFlow__runAsync user_class rec this).
Proof. unfold AsyncFlow__runAsync. kept. Qed.

Lemma preserves_BatchFlow_run this : preserves heap_kept (BatchFlow__run user_class rec this).
Proof.
  unfold BatchFlow__run. kept.
  destruct (if truthy _ then _ else _); kept.
  apply preserves_forEach; [apply heap_kept_refl|apply heap_kept_trans|intros bp].
  kept.
Qed.
#[local] Hint Resolve preserves_BatchFlow_run : pres.

Lemma preserves_AsyncBatchFlow_runAsync this :
  preserves heap_kept (AsyncBatchFlow__runAsync user_class rec this).
Proof.
  unfold AsyncBatchFlow__runAsync. kept.
  destruct (if truthy _ then _ else _); kept.
  apply preserves_forEach; [apply heap_kept_refl|apply heap_kept_trans|intros bp].
  kept.
Qed.

Lemma preserves_dispatch_run this :
  preserves (only_attempt this) (dispatch_run user_class parallel_join rec this).
Proof.
  unfold dispatch_run. attempt_only.
  destruct (cls _); attempt_only.
Qed.

Lemma preserves_invoke (c : invocation) :
  preserves (frame_of c) (invoke user_class parallel_join rec c).
Proof.
  destruct c as [this|async curr p la]; cbn [invoke frame_of].
  - apply preserves_dispatch_run.
  - apply preserves_orchestrate_loop.
Qed.

End Frame.

Lemma preserves_run_with (fuel : nat) :
  forall c, preserves (frame_of c) (run_with user_class parallel_join fuel c).
Proof.
  induction fuel as [|fuel IH]; intros c; cbn [run_with].
  - destruct c; cbn [frame_of].
    + apply (preserves_weaken heap_kept); [apply heap_kept_only_attempt|apply preserves_diverge].
    + apply preserves_diverge.
  - by apply preserves_invoke.
Qed.

Lemma preserves_orchestrate (async : bool) (fuel : nat) this (ov : value) :
  preserves heap_kept
    (if async
     then AsyncFlow__orchestrateAsync (run_with user_class parallel_join fuel) this ov
     else Flow__orchestrate (run_with user_class parallel_join fuel) this ov).
Proof.
  destruct async.
  - apply preserves_AsyncFlow_orchestrateAsync. apply preserves_run_with.
  - apply preserves_Flow_orchestrate. apply preserves_run_with.
Qed.

Lemma heap_kept_node w w' (x : ref) n :
  heap_kept w w' -> get_node (heap w) x = Some n ->
  get_node (heap w') x = Some n
  /\ forall (pr : ref) (m : gmap string value),
       params n = VRef pr -> heap w !! pr = Some (OMap m) ->
       own_entries (heap w') (params n) = m.
Proof.
  intros Hk E. split.
  - apply get_node_Some. apply Hk. by apply get_node_Some.
  - intros pr m Hp Hm. rewrite Hp. unfold own_entries. by rewrite (Hk _ _ Hm).
Qed.

(** The turn of an orchestration loop at a node [r0]: the parameters go to
    a new object, the clone, on which the lifecycle then runs; [r0] itself
    is as before. *)
Lemma orchestrate_loop_turn (rec : invocation -> M U value) (async : bool) w (r0 : ref) n
    (p lastAction : value) :
  get_node (heap w) r0 = Some n ->
  is_null p || negb (String.eqb (typeof p) "object") = false ->
  let r' := fresh (dom (heap w)) in
  let wc := with_heap (<[r' := ONode (set_params p n)]> (heap w)) w in
  heap w !! r' = None
  /\ get_node (heap wc) r0 = Some n
  /\ get_node (heap wc) r' = Some (set_params p n)
  /\ orchestrate_loop user_class parallel_join rec async (VRef r0) p lastAction w
     = (let* lastAction' :=
          (if async && instanceof_AsyncNode (cls n)
           then AsyncNode__runAsync user_class parallel_join r'
           else rec (CRun r')) in
        let* next := Flow_getNextNode (VRef r0) lastAction' in
        rec (CLoop async next p lastAction')) wc.
Proof.
  intros E Hp r' wc. pose proof (fresh_not_in_heap (heap w)) as Hf. fold r' in Hf.
  assert (E0 : heap w !! r0 = Some (ONode n)) by (by apply get_node_Some).
  split; [done|]. split; [|split].
  - apply get_node_Some. cbn [heap wc with_heap]. by apply insert_fresh_keeps.
  - apply get_node_insert_same.
  - unfold orchestrate_loop. cbn [truthy].
    rewrite (bind_Ret _ _ _ _ _ (shallowCopy_object w r0 _ E0)). fold r'.
    set (w1 := with_heap (<[r' := ONode n]> (heap w)) w).
    assert (E1 : get_node (heap w1) r' = Some n) by apply get_node_insert_same.
    rewrite (bind_Ret _ _ _ _ _ (node_of_ref _ w1 r' n E1)). cbn [fst snd].
    rewrite (bind_Ret _ _ _ _ _ (BaseNode_setParams_eq w1 r' n p E1 Hp)).
    unfold wc, w1. cbn [heap with_heap]. by rewrite insert_insert_eq.
Qed.

(** C3.  An orchestration, synchronous or asynchronous, over any graph and
    with any override parameters leaves every object that existed before as
    it was, however far the run gets: each original node keeps its [params]
    attribute and the mapping it refers to keeps its entries.  The same
    holds after a second run with another shared context and other
    overrides.  The per-run parameters are assigned to the clone made at
    each turn, a new object, and the lifecycle runs on that clone. *)
Theorem orchestrate_keeps_original_nodes w this :
  let orch (async : bool) (fuel : nat) (ov : value) : M U value :=
    if async
    then AsyncFlow__orchestrateAsync (run_with user_class parallel_join fuel) this ov
    else Flow__orchestrate (run_with user_class parallel_join fuel) this ov in
  (forall async fuel ov x o,
     heap w !! x = Some o -> heap (snd (orch async fuel ov w)) !! x = Some o)
  /\ (forall async fuel ov x n,
        get_node (heap w) x = Some n ->
        let w' := snd (orch async fuel ov w) in
        get_node (heap w') x = Some n
        /\ forall (pr : ref) (m : gmap string value),
             params n = VRef pr -> heap w !! pr = Some (OMap m) ->
             own_entries (heap w') (params n) = m)
  /\ (forall async fuel1 fuel2 ov1 ov2 (s2 : U) x n,
        get_node (heap w) x = Some n ->
        let w1 := snd (orch async fuel1 ov1 w) in
        let w2 := snd (orch async fuel2 ov2 (with_shared s2 w1)) in
        get_node (heap w2) x = Some n
        /\ forall (pr : ref) (m : gmap string value),
             params n = VRef pr -> heap w !! pr = Some (OMap m) ->
             own_entries (heap w2) (params n) = m)
  /\ (forall (rec : invocation -> M U value) async (r0 : ref) n (p lastAction : value),
        get_node (heap w) r0 = Some n ->
        is_null p || negb (String.eqb (typeof p) "object") = false ->
        let r' := fresh (dom (heap w)) in
        let wc := with_heap (<[r' := ONode (set_params p n)]> (heap w)) w in
        heap w !! r' = None
        /\ get_node (heap wc) r0 = Some n
        /\ get_node (heap wc) r' = Some (set_params p n)
        /\ orchestrate_loop user_class parallel_join rec async (VRef r0) p lastAction w
           = (let* lastAction' :=
                (if async && instanceof_AsyncNode (cls n)
                 then AsyncNode__runAsync user_class parallel_join r'
                 else rec (CRun r')) in
              let* next := Flow_getNextNode (VRef r0) lastAction' in
              rec (CLoop async next p lastAction')) wc).
Proof.
  intros orch.
  assert (Hk : forall async fuel ov w0, heap_kept w0 (snd (orch async fuel ov w0))).
  { intros async fuel ov w0. destruct (orch async fuel ov w0) as [r w'] eqn:Ho.
    exact (preserves_orchestrate async fuel this ov _ _ _ Ho). }
  split; [|split; [|split]].
  - intros async fuel ov x o Hx. by apply Hk.
  - intros async fuel ov x n E w'. apply (heap_kept_node w w'); [apply Hk|done].
  - intros async fuel1 fuel2 ov1 ov2 s2 x n E w1 w2.
    apply (heap_kept_node w w2); [|done].
    apply (heap_kept_trans w (with_shared s2 w1) w2); [|apply Hk].
    intros y o Hy. cbn [heap with_shared]. by apply Hk.
  - intros rec async r0 n p la E Hp. by apply orchestrate_loop_turn.
Qed.

Lemma attempt_of_rewait hp this (z : Z) : attempt_of (rewait this z hp) this = attempt_of hp this.
Proof.
  unfold attempt_of, rewait. destruct (get_node hp this) as [n|] eqn:E.
  - by rewrite get_node_insert_same.
  - by rewrite E.
Qed.

(** *** Further properties: the warning channel *)

(** X2.  [addHandler] appends: the new handler is called after all the
    handlers registered before it, and nothing is deduplicated, so a handler
    added twice is called twice for each warning. *)
Theorem warnings_addHandler_appends (hd : handler) (msg : message) w :
  let w1 := snd (warnings_addHandler hd w) in
  let w2 := snd (warnings_addHandler hd w1) in
  trace (snd (warnings_warn msg w1))
    = trace w ++ map (fun h => EvHandler h msg) (handlers w) ++ [EvHandler hd msg]
  /\ trace (snd (warnings_warn msg w2))
    = trace w ++ map (fun h => EvHandler h msg) (handlers w) ++ [EvHandler hd msg; EvHandler hd msg].
Proof.
  cbv zeta. rewrite !warnings_warn_eq. cbn [fst snd trace handlers warnings_addHandler with_handlers].
  rewrite !map_app. cbn [map]. split; [done|]. by rewrite <- !app_assoc.
Qed.

(** *** Further properties: parameters and wiring *)

Lemma setParams_guard (p : value) :
  is_null p || negb (String.eqb (typeof p) "object") = negb (is_object p).
Proof. by destruct p as [| |?|?|?|?|?|?|[]]. Qed.

(** X3.  [setParams] accepts exactly the non-null objects, arrays included.
    Anything else (null, undefined, a boolean, a number, a string) raises a
    TypeError and leaves the world as it was.  An accepted value replaces the
    [params] attribute wholesale, all other attributes and objects staying
    as they are, so of two successive calls only the second counts. *)
Theorem BaseNode_setParams_spec w this n (p : value) :
  get_node (heap w) this = Some n ->
  (is_object p = false ->
     BaseNode_setParams this p w = (Throw (TypeError "Parameters must be an object"), w))
  /\ (is_object p = true ->
        BaseNode_setParams this p w
        = (Ret tt, with_heap (<[this := ONode (set_params p n)]> (heap w)) w)
        /\ forall q, is_object q = true ->
             snd (BaseNode_setParams this q (snd (BaseNode_setParams this p w)))
             = snd (BaseNode_setParams this q w)).
Proof.
  intros E. split.
  - intros Hp. unfold BaseNode_setParams. by rewrite setParams_guard, Hp.
  - intros Hp.
    assert (Hg : forall q, is_object q = true ->
                   is_null q || negb (String.eqb (typeof q) "object") = false).
    { intros q Hq. by rewrite setParams_guard, Hq. }
    rewrite (BaseNode_setParams_eq w this n p E (Hg p Hp)). split; [done|].
    intros q Hq. cbn [snd].
    set (w1 := with_heap _ w).
    assert (E1 : get_node (heap w1) this = Some (set_params p n)) by apply get_node_insert_same.
    rewrite (BaseNode_setParams_eq w1 this _ q E1 (Hg q Hq)).
    rewrite (BaseNode_setParams_eq w this n q E (Hg q Hq)).
    cbn [snd heap w1 with_heap]. unfold with_heap. cbn. by rewrite insert_insert_eq.
Qed.


Lemma instanceof_truthy hp (v : value) : instanceof_BaseNode hp v = true -> truthy v = true.
Proof. destruct v; try discriminate; done. Qed.

Lemma instanceof_insert_map hp (x : ref) (m m' : gmap string value) (v : value) :
  hp !! x = Some (OMap m) ->
  instanceof_BaseNode hp v = true -> instanceof_BaseNode (<[x := OMap m']> hp) v = true.
Proof.
  intros Hx. unfold instanceof_BaseNode. destruct v; try done.
  destruct (get_node hp r) as [nr|] eqn:E; [|done]. intros _.
  by rewrite (get_node_insert_map _ _ _ _ m _ Hx E).
Qed.

Lemma instanceof_insert_plain hp (x : ref) (m : gmap string value) (o : obj) (v : value) :
  hp !! x = Some (OMap m) ->
  instanceof_BaseNode hp v = true -> instanceof_BaseNode (<[x := o]> hp) v = true.
Proof.
  intros Hx. unfold instanceof_BaseNode. destruct v; try done.
  destruct (get_node hp r) as [nr|] eqn:E; [|done]. intros _.
  by rewrite (get_node_insert_plain _ _ _ _ m o Hx E).
Qed.

Lemma instanceof_ref hp (v : value) :
  instanceof_BaseNode hp v = true -> exists p, v = VRef p.
Proof. destruct v; try discriminate. by eexists. Qed.

(** [next] on a table whose prototype has been replaced. *)
Lemma BaseNode_next_linked w (a : ref) na (m : gmap string value) (q p : ref) :
  get_node (heap w) a = Some na ->
  heap w !! successors na = Some (OLinked m q) ->
  instanceof_BaseNode (heap w) (VRef p) = true ->
  m !! "__proto__" = None ->
  BaseNode_next a (VRef p) (VStr "__proto__") w
  = (Ret (VRef p),
     mk_world (<[successors na := OLinked m p]> (heap w)) (handlers w)
       (trace w ++ overwrite_warning (handlers w) "__proto__") (shared w)).
Proof.
  intros Ha Hm Hb Hown. unfold BaseNode_next.
  rewrite (bind_Ret _ _ _ _ _ (this_node_ref _ w a na Ha)).
  unfold read, bind at 1. cbn [snd truthy]. rewrite Hb. cbn [negb orb validateString].
  unfold ret at 1, bind at 1.
  assert (Hg : get_prop (heap w) (VRef (successors na)) "__proto__" = VRef q).
  { unfold get_prop. by rewrite Hm, Hown. }
  rewrite Hg. cbn [truthy]. unfold when_, bind. rewrite warnings_warn_eq.
  unfold assign_prop, ret. cbn [heap]. rewrite Hm. unfold assigned.
  cbn [String.eqb Ascii.eqb Bool.eqb andb]. by rewrite (bool_decide_eq_true_2 _ Hown).
Qed.

(** X5.  Registering a successor under a label of which the table holds
    no entry is silent exactly when the label is not a member of
    [Object.prototype]: then no warning is emitted, the table gains exactly
    that entry and no other object changes.  Under a name such as
    [toString] or [constructor] the first registration already emits the
    overwrite warning, the test reading the inherited member; the entry is
    stored all the same.  Under [__proto__] the warning is emitted and no
    entry is stored: the node becomes the prototype of the table, which
    then answers to [__proto__] with that node. *)
Theorem next_fresh_label_silent w (a : ref) na (m : gmap string value) (tgt : value) (s : string) :
  get_node (heap w) a = Some na ->
  heap w !! successors na = Some (OMap m) ->
  instanceof_BaseNode (heap w) tgt = true ->
  m !! s = None ->
  exists w',
    BaseNode_next a tgt (VStr s) w = (Ret tgt, w')
    /\ trace w' = trace w ++ (if inherited s then overwrite_warning (handlers w) s else [])
    /\ own_entries (heap w') (VRef (successors na))
       = (if String.eqb s "__proto__" then m else <[s := tgt]> m)
    /\ get_prop (heap w') (VRef (successors na)) s = tgt
    /\ forall x, x <> successors na -> heap w' !! x = heap w !! x.
Proof.
  intros Ha Hm Hi Hs. destruct (instanceof_ref _ _ Hi) as [p ->].
  eexists. split; [by apply (BaseNode_next_eq w a na m)|].
  cbn [trace heap]. split; [|split; [|split]].
  - unfold overwrite_events. destruct (inherited s) eqn:Hin.
    + rewrite (plain_get_inherited m s Hs Hin). by destruct (String.eqb s "__proto__").
    + rewrite (plain_get_absent m s Hs Hin). cbn [truthy]. done.
  - unfold own_entries. rewrite lookup_insert_eq.
    destruct (String.eqb s "__proto__") eqn:Heq.
    + apply String.eqb_eq in Heq. subst s. by rewrite (assigned_proto m p Hs).
    + apply String.eqb_neq in Heq. by rewrite (assigned_entry m s (VRef p) (or_introl Heq)).
  - apply get_prop_assigned.
  - intros x Hx. by rewrite lookup_insert_ne.
Qed.

(** X6.  Registering twice under the same label: the last target wins, the
    second call emits the overwrite warning once per handler and nothing
    else, the table keeps its size, and every other label keeps its own
    entry.  Unless the label is [__proto__], the table also answers to
    every other label as before the two calls. *)
Theorem next_overwrite_last_wins w (a : ref) na (m : gmap string value) (b c : value) (s : string) :
  get_node (heap w) a = Some na ->
  heap w !! successors na = Some (OMap m) ->
  instanceof_BaseNode (heap w) b = true ->
  instanceof_BaseNode (heap w) c = true ->
  let w1 := snd (BaseNode_next a b (VStr s) w) in
  let w2 := snd (BaseNode_next a c (VStr s) w1) in
  let succ := VRef (successors na) in
  fst (BaseNode_next a c (VStr s) w1) = Ret c
  /\ get_prop (heap w2) succ s = c
  /\ trace w2 = trace w1 ++ overwrite_warning (handlers w) s
  /\ size (own_entries (heap w2) succ) = size (own_entries (heap w1) succ)
  /\ (forall s', s' <> s ->
        own_entries (heap w2) succ !! s' = own_entries (heap w) succ !! s')
  /\ (s <> "__proto__" ->
      forall s', s' <> s -> get_prop (heap w2) succ s' = get_prop (heap w) succ s').
Proof.
  intros Ha Hm Hb Hc w1 w2 succ. subst w2 w1.
  destruct (instanceof_ref _ _ Hb) as [pb ->]. destruct (instanceof_ref _ _ Hc) as [pc ->].
  rewrite (BaseNode_next_eq w a na m (VRef pb) s Ha Hm Hb). cbn [snd].
  set (w1 := mk_world _ _ _ _).
  assert (Ha1 : get_node (heap w1) a = Some na) by (by apply (get_node_insert_plain _ _ _ _ m)).
  assert (Hc1 : instanceof_BaseNode (heap w1) (VRef pc) = true).
  { by apply (instanceof_insert_plain _ _ m). }
  destruct (decide (s = "__proto__" /\ m !! s = None)) as [[-> Hown]|Hentry].
  - assert (Hm1 : heap w1 !! successors na = Some (OLinked m pb)).
    { unfold w1. cbn [heap]. rewrite lookup_insert_eq. by rewrite (assigned_proto m pb Hown). }
    rewrite (BaseNode_next_linked w1 a na m pb pc Ha1 Hm1 Hc1 Hown).
    cbn [fst snd heap trace handlers w1]. subst succ. unfold own_entries, get_prop.
    rewrite !lookup_insert_eq, Hm, Hown, (assigned_proto m pb Hown).
    repeat split; done.
  - assert (Hs : s <> "__proto__" \/ m !! s <> None).
    { destruct (decide (s = "__proto__")) as [->|Hne]; [|by left].
      right. intros Hown. by apply Hentry. }
    assert (Hm1 : heap w1 !! successors na = Some (OMap (<[s := VRef pb]> m))).
    { unfold w1. cbn [heap]. rewrite lookup_insert_eq. by rewrite (assigned_entry m s _ Hs). }
    assert (Hs1 : s <> "__proto__" \/ <[s := VRef pb]> m !! s <> None).
    { right. by rewrite lookup_insert_eq. }
    rewrite (BaseNode_next_entry w1 a na _ (VRef pc) s Ha1 Hm1 Hc1 Hs1).
    cbn [fst snd heap trace handlers w1].
    split; [done|]. split; [apply get_prop_insert_map|]. split; [|split; [|split]].
    + unfold overwrite_events. by rewrite plain_get_insert.
    + subst succ. unfold own_entries. rewrite !lookup_insert_eq.
      rewrite (assigned_entry m s _ Hs). rewrite insert_insert_eq.
      rewrite !map_size_insert. by destruct (m !! s).
    + intros s' Hne. subst succ. unfold own_entries.
      rewrite lookup_insert_eq, Hm. by rewrite !lookup_insert_ne.
    + intros _ s' Hne. subst succ. unfold get_prop.
      rewrite lookup_insert_eq, Hm. by rewrite !plain_get_insert_ne.
Qed.

(** *** Further properties: the lifecycle of one node *)

Lemma dispatch_run_BaseNode (rec : invocation -> M U value) w this n :
  get_node (heap w) this = Some n ->
  cls n = BaseNode \/ cls n = Node \/ cls n = BatchNode ->
  dispatch_run user_class parallel_join rec this w = BaseNode__run user_class parallel_join this w.
Proof.
  intros E Hc. unfold dispatch_run.
  rewrite (bind_Ret _ _ _ _ _ (this_node_ref _ w this n E)).
  by destruct Hc as [->|[->| ->]].
Qed.

Lemma dispatch_exec_BaseNode w this n (p : value) :
  get_node (heap w) this = Some n -> cls n = BaseNode ->
  dispatch_exec user_class parallel_join this p w
  = call user_class Exec exec this [p] p w.
Proof.
  intros E Hc. unfold dispatch_exec.
  rewrite (bind_Ret _ _ _ _ _ (this_node_ref _ w this n E)). by rewrite Hc.
Qed.

(** X7.  The lifecycle of a plain BaseNode: prep, then exec on what prep
    returned, then post on both results, each called once and in this order,
    the value of post being the value of the run.  An error in prep stops
    the run before exec, an error in exec stops it before post; for a
    BaseNode there is neither retry nor fallback. *)
Theorem BaseNode_lifecycle_order (rec : invocation -> M U value) w this n :
  get_node (heap w) this = Some n ->
  cls n = BaseNode ->
  let hk := user_class (impl n) in
  let run := dispatch_run user_class parallel_join rec this w in
  let ev_prep := EvCall Prep this (curRetry n) [] in
  let ev_exec p := EvCall Exec this (curRetry n) [p] in
  let ev_post p e := EvCall Post this (curRetry n) [p; e] in
  (forall p s1 e s2 a s3,
     prep hk this (heap w) tt (shared w) = (Ret p, s1) ->
     exec hk this (heap w) p s1 = (Ret e, s2) ->
     post hk this (heap w) (p, e) s2 = (Ret a, s3) ->
     run = (Ret a, mk_world (heap w) (handlers w)
                     (trace w ++ [ev_prep; ev_exec p; ev_post p e]) s3))
  /\ (forall er s1,
        prep hk this (heap w) tt (shared w) = (Throw er, s1) ->
        run = (Throw er, mk_world (heap w) (handlers w) (trace w ++ [ev_prep]) s1))
  /\ (forall p s1 er s2,
        prep hk this (heap w) tt (shared w) = (Ret p, s1) ->
        exec hk this (heap w) p s1 = (Throw er, s2) ->
        run = (Throw er, mk_world (heap w) (handlers w) (trace w ++ [ev_prep; ev_exec p]) s2)).
Proof.
  intros E Hc hk run ev_prep ev_exec ev_post.
  assert (Hrun : run = BaseNode__run user_class parallel_join this w).
  { unfold run. apply (dispatch_run_BaseNode rec w this n E). by left. }
  rewrite Hrun. clear Hrun run. unfold BaseNode__run.
  assert (Hprep : forall x s1,
            prep hk this (heap w) tt (shared w) = (x, s1) ->
            call user_class Prep prep this [] tt w
            = (x, mk_world (heap w) (handlers w) (trace w ++ [ev_prep]) s1)).
  { intros x s1 Hp. rewrite (call_eq Prep prep w this n _ _ E). fold hk. by rewrite Hp. }
  assert (Hexec : forall p s1 x s2,
            exec hk this (heap w) p s1 = (x, s2) ->
            dispatch_exec user_class parallel_join this p
              (mk_world (heap w) (handlers w) (trace w ++ [ev_prep]) s1)
            = (x, mk_world (heap w) (handlers w) (trace w ++ [ev_prep; ev_exec p]) s2)).
  { intros p s1 x s2 Hx. set (w1 := mk_world _ _ _ s1).
    assert (E1 : get_node (heap w1) this = Some n) by done.
    rewrite (dispatch_exec_BaseNode w1 this n p E1 Hc).
    rewrite (call_eq Exec exec w1 this n _ _ E1). fold hk. cbn [heap shared trace handlers w1].
    rewrite Hx. cbn [fst snd]. by rewrite <- app_assoc. }
  split; [|split].
  - intros p s1 e s2 a s3 Hp Hx Ho.
    rewrite (bind_Ret _ _ _ _ _ (Hprep _ _ Hp)).
    rewrite (bind_Ret _ _ _ _ _ (Hexec _ _ _ _ Hx)).
    set (w2 := mk_world _ _ _ s2).
    assert (E2 : get_node (heap w2) this = Some n) by done.
    rewrite (call_eq Post post w2 this n _ _ E2). fold hk. cbn [heap shared trace handlers w2].
    rewrite Ho. cbn [fst snd]. by rewrite <- app_assoc.
  - intros er s1 Hp. by rewrite (bind_Throw _ _ _ _ _ (Hprep _ _ Hp)).
  - intros p s1 er s2 Hp Hx.
    rewrite (bind_Ret _ _ _ _ _ (Hprep _ _ Hp)).
    by rewrite (bind_Throw _ _ _ _ _ (Hexec _ _ _ _ Hx)).
Qed.

Lemma bind_read {A B : Type} (f : world U -> A) (k : A -> M U B) w :
  bind (read f) k w = k (f w) w.
Proof. done. Qed.

(** X8.  The public [run] warns that successors will not be run exactly
    when the node has at least one: on a node without successors it is
    [_run] and nothing more, on a node with successors it is [_run] after
    one warning. *)
Theorem BaseNode_run_warns_iff_successors (fuel : nat) w this n :
  get_node (heap w) this = Some n ->
  let m := own_entries (heap w) (VRef (successors n)) in
  (m = ∅ ->
     BaseNode_run user_class parallel_join fuel this w
     = dispatch_run user_class parallel_join (run_with user_class parallel_join fuel) this w)
  /\ (m <> ∅ ->
        BaseNode_run user_class parallel_join fuel this w
        = dispatch_run user_class parallel_join (run_with user_class parallel_join fuel) this
            (warned (Text "Node won't run successors. Use Flow.") w)).
Proof.
  intros E m. subst m. unfold BaseNode_run.
  rewrite (bind_Ret _ _ _ _ _ (this_node_ref _ w this n E)).
  rewrite bind_read.
  set (m := own_entries (heap w) (VRef (successors n))). split.
  - intros ->. by rewrite map_size_empty.
  - intros Hne.
    assert (Hs : (0 <? size m)%nat = true).
    { apply Nat.ltb_lt. destruct (size m) eqn:Hsz; [|lia]. by apply map_size_empty_iff in Hsz. }
    rewrite Hs. unfold when_, bind. by rewrite warnings_warn_eq.
Qed.

(** X9.  A Node constructed with [maxRetries <= 0] never executes: [_exec]
    calls neither exec nor execFallback, logs nothing and returns
    undefined, having only reset the attempt counter. *)
Theorem Node_exec_without_attempts w this n (p : value) :
  get_node (heap w) this = Some n ->
  cls n = Node ->
  (maxRetries n <= 0)%Z ->
  dispatch_exec user_class parallel_join this p w
  = (Ret VUndefined, with_heap (<[this := ONode (set_curRetry 0 n)]> (heap w)) w).
Proof.
  intros E Hc Hk. rewrite (dispatch_exec_Node w this n p E Hc).
  rewrite (Node_exec_unfold w this n p E).
  apply (Node_exec_loop_done _ _ this (set_curRetry 0 n)); [apply get_node_insert_same|done].
Qed.



(** X12.  Running a node, whatever its class and however long the run,
    changes no object of the heap other than the attempt counter of that
    node: its parameters, its successors and every other node and mapping
    are as before.  The same holds for its execute path alone. *)
Theorem run_changes_only_attempt_counter (fuel : nat) w this (p : value) :
  only_attempt this w (snd (run_with user_class parallel_join fuel (CRun this) w))
  /\ only_attempt this w (snd (BaseNode_run user_class parallel_join fuel this w))
  /\ only_attempt this w (snd (dispatch_exec user_class parallel_join this p w)).
Proof.
  split; [|split].
  - destruct (run_with user_class parallel_join fuel (CRun this) w) as [r w'] eqn:Hr.
    exact (preserves_run_with fuel (CRun this) _ _ _ Hr).
  - destruct (BaseNode_run user_class parallel_join fuel this w) as [r w'] eqn:Hr.
    revert Hr. unfold BaseNode_run.
    assert (Hp : preserves (only_attempt this)
                   (let* n := this_node "run" this in
                    let* h := read heap in
                    when_ (0 <? size (own_entries h (VRef (successors n))))%nat
                      (warnings_warn (Text "Node won't run successors. Use Flow.")) ;;;
                    dispatch_run user_class parallel_join (run_with user_class parallel_join fuel) this)).
    { apply preserves_bind; [apply only_attempt_trans| |intros n].
      { apply (preserves_weaken heap_kept); [apply heap_kept_only_attempt|].
        apply preserves_this_node. }
      apply preserves_bind; [apply only_attempt_trans| |intros hp].
      { apply (preserves_weaken heap_kept); [apply heap_kept_only_attempt|].
        apply preserves_read. }
      apply preserves_bind; [apply only_attempt_trans| |intros _].
      { apply preserves_when; [apply only_attempt_refl|].
        apply (preserves_weaken heap_kept); [apply heap_kept_only_attempt|].
        apply preserves_warn. }
      apply preserves_dispatch_run. apply preserves_run_with. }
    intros Hr. exact (Hp _ _ _ Hr).
  - destruct (dispatch_exec user_class parallel_join this p w) as [r w'] eqn:Hr.
    exact (preserves_dispatch_exec this p _ _ _ Hr).
Qed.

Lemma call_heap {A : Type} (ph : phase) (sel : hooks U -> hook_fn U A) this
    (args : list value) (a : A) w :
  heap (snd (call user_class ph sel this args a w)) = heap w.
Proof.
  unfold call. destruct (get_node (heap w) this) as [n|]; [|done].
  by destruct (sel (user_class (impl n)) this (heap (emit _ w)) a (shared (emit _ w))).
Qed.

(** X11.  After [_exec] the attempt counter of the node tells which attempt
    of the run was the last: [k - 1] when all [k] attempts threw, [j - 1]
    when the [j]-th attempt returned. *)
Theorem Node_exec_leaves_attempt_index w this n (p : value) (k : nat) :
  get_node (heap w) this = Some n ->
  cls n = Node ->
  maxRetries n = Z.of_nat k ->
  (1 <= k)%nat ->
  let hk := user_class (impl n) in
  let run := dispatch_exec user_class parallel_join this p w in
  let att := attempt (exec hk) (heap w) this n p (shared w) in
  ((forall i, (i < k)%nat -> throws (att i)) ->
     attempt_of (heap (snd run)) this = Some (Z.of_nat k - 1)%Z)
  /\ (forall (j : nat) (v : value),
        (1 <= j <= k)%nat ->
        (forall i, (i < j - 1)%nat -> throws (att i)) ->
        fst (att (j - 1)%nat) = Ret v ->
        attempt_of (heap (snd run)) this = Some (Z.of_nat j - 1)%Z).
Proof.
  intros E Hc Hk Hk1 hk run att.
  assert (Hrun : run = Node__exec user_class this p w).
  { unfold run. by apply (dispatch_exec_Node w this n p E Hc). }
  rewrite Hrun. clear Hrun run. split.
  - intros Hfail.
    destruct (Hfail (k - 1)%nat ltac:(lia)) as [e He].
    rewrite (Node_exec_run w this n p (k - 1) E) by (try lia; intros i Hi; apply Hfail; lia).
    fold hk att. rewrite He.
    replace (Z.of_nat (k - 1) =? maxRetries n - 1)%Z with true
      by (symmetry; apply Z.eqb_eq; lia).
    rewrite call_heap. cbn [heap]. unfold attempt_of. rewrite attempt_heap_node.
    cbn [fmap option_fmap option_map curRetry set_curRetry]. f_equal. lia.
  - intros j v Hj Hfail Hok.
    rewrite (Node_exec_run w this n p (j - 1) E) by (try lia; done).
    fold hk att. rewrite Hok. cbn [snd heap].
    unfold attempt_of. rewrite attempt_heap_node.
    cbn [fmap option_fmap option_map curRetry set_curRetry]. f_equal. lia.
Qed.

(** *** Further properties: the asynchronous retry loop *)

Lemma AsyncNode_exec_loop_done (budget : nat) w this n (p : value) :
  get_node (heap w) this = Some n ->
  (maxRetries n <= curRetry n)%Z ->
  AsyncNode__exec_loop user_class budget this p w = (Ret VUndefined, w).
Proof.
  intros E Hle. destruct budget; cbn [AsyncNode__exec_loop];
    rewrite (bind_Ret _ _ _ _ _ (this_node_ref _ w this n E));
    (destruct (curRetry n <? maxRetries n)%Z eqn:Hlt; [apply Z.ltb_lt in Hlt; lia|done]).
Qed.

Lemma AsyncNode_exec_loop_step (budget : nat) w this n (p : value) :
  get_node (heap w) this = Some n ->
  (curRetry n < maxRetries n)%Z ->
  AsyncNode__exec_loop user_class (S budget) this p w
  = let x := execAsync (user_class (impl n)) this (heap w) p (shared w) in
    let w1 := mk_world (heap w) (handlers w)
                (trace w ++ [EvCall ExecAsync this (curRetry n) [p]]) (snd x) in
    match fst x with
    | Ret v => (Ret v, w1)
    | Throw e =>
        if (curRetry n =? maxRetries n - 1)%Z
        then call user_class ExecFallbackAsync execFallbackAsync this [p] (p, e) w1
        else AsyncNode__exec_loop user_class budget this p
               (mk_world (<[this := ONode (set_curRetry (curRetry n + 1) n)]> (heap w)) (handlers w)
                  (trace w ++ EvCall ExecAsync this (curRetry n) [p] :: sleep_events (wait n))
                  (snd x))
    | Diverge => (Diverge, w1)
    end.
Proof.
  intros E Hlt. cbn [AsyncNode__exec_loop].
  rewrite (bind_Ret _ _ _ _ _ (this_node_ref _ w this n E)).
  apply Z.ltb_lt in Hlt. rewrite Hlt.
  unfold try_catch. rewrite (call_eq ExecAsync execAsync w this n _ _ E).
  destruct (execAsync (user_class (impl n)) this (heap w) p (shared w)) as [[v|e|] s'];
    cbv zeta; cbn [fst snd]; try done.
  destruct (curRetry n =? maxRetries n - 1)%Z; [done|].
  unfold sleep_events. destruct (wait n >? 0)%Z; unfold when_.
  - unfold bind at 1. unfold log, emit. cbn [heap handlers trace shared].
    unfold bind at 1. unfold update_node. cbn [heap]. rewrite E.
    unfold with_heap. cbn [heap handlers trace shared].
    by rewrite <- !app_assoc.
  - unfold bind at 1. unfold ret at 1. unfold bind at 1. unfold update_node. cbn [heap]. rewrite E.
    unfold with_heap. cbn [heap handlers trace shared]. done.
Qed.

Lemma AsyncNode_exec_unfold w this n (p : value) :
  get_node (heap w) this = Some n ->
  AsyncNode__exec user_class this p w
  = AsyncNode__exec_loop user_class (Z.to_nat (maxRetries n)) this p
      (with_heap (<[this := ONode (set_curRetry 0 n)]> (heap w)) w).
Proof.
  intros E. unfold AsyncNode__exec. unfold bind at 1. unfold update_node. rewrite E.
  set (w1 := with_heap (<[this := ONode (set_curRetry 0 n)]> (heap w)) w).
  assert (E1 : get_node (heap w1) this = Some (set_curRetry 0 n)).
  { apply get_node_insert_same. }
  by rewrite (bind_Ret _ _ _ _ _ (this_node_ref _ w1 this _ E1)).
Qed.

Lemma dispatch_exec_AsyncNode w this n (p : value) :
  get_node (heap w) this = Some n -> cls n = AsyncNode ->
  dispatch_exec user_class parallel_join this p w = AsyncNode__exec user_class this p w.
Proof.
  intros E Hc. unfold dispatch_exec.
  rewrite (bind_Ret _ _ _ _ _ (this_node_ref _ w this n E)). by rewrite Hc.
Qed.

Lemma async_failed_attempts_snoc this (p : value) (z : Z) (k : nat) :
  forall c : Z,
    async_failed_attempts this p z c k ++ EvCall ExecAsync this (c + Z.of_nat k) [p] :: sleep_events z
    = async_failed_attempts this p z c (S k).
Proof.
  induction k as [|k IHk]; intros c.
  - cbn [async_failed_attempts app]. by rewrite Z.add_0_r, app_nil_r.
  - change (async_failed_attempts this p z c (S (S k)))
      with (EvCall ExecAsync this c [p] :: sleep_events z
              ++ async_failed_attempts this p z (c + 1) (S k)).
    rewrite <- (IHk (c + 1)%Z).
    change (async_failed_attempts this p z c (S k))
      with (EvCall ExecAsync this c [p] :: sleep_events z
              ++ async_failed_attempts this p z (c + 1) k).
    replace (c + 1 + Z.of_nat k)%Z with (c + Z.of_nat (S k))%Z by lia.
    cbn [app]. by rewrite <- !app_assoc.
Qed.

(** The asynchronous loop through [d] attempts that throw, none of them
    the last one permitted. *)
Lemma AsyncNode_exec_loop_steps this (p : value) hp n (s : U) (d : nat) :
  forall (i budget : nat) wi,
    heap wi = attempt_heap hp this n (Z.of_nat i) ->
    shared wi = shared_before (execAsync (user_class (impl n))) hp this n p s i ->
    (Z.of_nat (i + d) < maxRetries n)%Z ->
    (forall i', (i <= i' < i + d)%nat ->
       throws (attempt (execAsync (user_class (impl n))) hp this n p s i')) ->
    AsyncNode__exec_loop user_class (d + budget) this p wi
    = AsyncNode__exec_loop user_class budget this p
        (mk_world (attempt_heap hp this n (Z.of_nat (i + d))) (handlers wi)
           (trace wi ++ async_failed_attempts this p (wait n) (Z.of_nat i) d)
           (shared_before (execAsync (user_class (impl n))) hp this n p s (i + d))).
Proof.
  induction d as [|d IH]; intros i budget wi Hh Hs Hlt Hfail.
  - cbn [async_failed_attempts Nat.add]. rewrite Nat.add_0_r, app_nil_r, <- Hh, <- Hs.
    by destruct wi.
  - destruct (Hfail i ltac:(lia)) as [e He].
    assert (Ei : get_node (heap wi) this = Some (set_curRetry (Z.of_nat i) n)).
    { rewrite Hh. apply attempt_heap_node. }
    cbn [Nat.add].
    rewrite (AsyncNode_exec_loop_step (d + budget) wi this _ p Ei) by (cbn; lia).
    cbn [impl curRetry maxRetries wait set_curRetry]. rewrite Hh, Hs.
    unfold attempt in He. cbv zeta.
    destruct (execAsync (user_class (impl n)) this (attempt_heap hp this n (Z.of_nat i)) p
                (shared_before (execAsync (user_class (impl n))) hp this n p s i))
      as [r s'] eqn:Hx.
    cbn [fst snd] in *. subst r.
    replace (Z.of_nat i =? maxRetries n - 1)%Z with false
      by (symmetry; apply Z.eqb_neq; lia).
    set (w2 := mk_world _ _ _ _).
    rewrite (IH (S i) budget w2).
    + cbn [handlers trace w2 async_failed_attempts].
      replace (S i + d)%nat with (i + S d)%nat by lia.
      replace (Z.of_nat (S i)) with (Z.of_nat i + 1)%Z by lia.
      rewrite <- !app_assoc. cbn [app]. by rewrite <- ?app_assoc.
    + cbn [heap w2]. unfold attempt_heap. rewrite insert_insert_eq.
      by replace (Z.of_nat (S i)) with (Z.of_nat i + 1)%Z by lia.
    + cbn [shared w2 shared_before]. by rewrite Hx.
    + lia.
    + intros i' Hi'. apply Hfail. lia.
Qed.

(** The run of the asynchronous [_exec] up to and including attempt [d],
    the earlier attempts having thrown. *)
Lemma AsyncNode_exec_run w this n (p : value) (d : nat) :
  get_node (heap w) this = Some n ->
  (Z.of_nat d < maxRetries n)%Z ->
  let hk := user_class (impl n) in
  let att := attempt (execAsync hk) (heap w) this n p (shared w) in
  (forall i, (i < d)%nat -> throws (att i)) ->
  let wd := mk_world (attempt_heap (heap w) this n (Z.of_nat d)) (handlers w)
              (trace w ++ async_failed_attempts this p (wait n) 0 d
                 ++ [EvCall ExecAsync this (Z.of_nat d) [p]])
              (snd (att d)) in
  AsyncNode__exec user_class this p w
  = match fst (att d) with
    | Ret v => (Ret v, wd)
    | Throw e =>
        if (Z.of_nat d =? maxRetries n - 1)%Z
        then call user_class ExecFallbackAsync execFallbackAsync this [p] (p, e) wd
        else AsyncNode__exec_loop user_class (Z.to_nat (maxRetries n) - S d) this p
               (mk_world (attempt_heap (heap w) this n (Z.of_nat (S d))) (handlers w)
                  (trace w ++ async_failed_attempts this p (wait n) 0 (S d))
                  (snd (att d)))
    | Diverge => (Diverge, wd)
    end.
Proof.
  intros E Hlt hk att Hfail wd.
  rewrite (AsyncNode_exec_unfold w this n p E).
  set (w1 := with_heap (<[this := ONode (set_curRetry 0 n)]> (heap w)) w).
  assert (Hb : Z.to_nat (maxRetries n) = (d + S (Z.to_nat (maxRetries n) - S d))%nat) by lia.
  rewrite Hb at 1. clear Hb.
  rewrite (AsyncNode_exec_loop_steps this p (heap w) n (shared w) d 0 _ w1); try done.
  2: { intros i' Hi'. apply Hfail. lia. }
  cbn [Nat.add handlers trace w1 with_heap].
  set (w2 := mk_world _ _ _ _).
  assert (E2 : get_node (heap w2) this = Some (set_curRetry (Z.of_nat d) n)).
  { apply attempt_heap_node. }
  rewrite (AsyncNode_exec_loop_step _ w2 this _ p E2) by (cbn; lia).
  cbn [impl curRetry maxRetries wait set_curRetry heap shared handlers trace w2].
  fold hk. change (execAsync hk this (attempt_heap (heap w) this n (Z.of_nat d)) p
                     (shared_before (execAsync hk) (heap w) this n p (shared w) d)) with (att d).
  cbv zeta. unfold wd.
  destruct (fst (att d)) as [v|e|]; rewrite <- ?app_assoc; try done.
  destruct (Z.of_nat d =? maxRetries n - 1)%Z; [done|].
  unfold attempt_heap. rewrite insert_insert_eq.
  replace (Z.of_nat (S d)) with (Z.of_nat d + 1)%Z by lia.
  pose proof (async_failed_attempts_snoc this p (wait n) d 0%Z) as Hsnoc.
  rewrite Z.add_0_l in Hsnoc. change (Z.of_nat 0) with 0%Z. by rewrite <- Hsnoc.
Qed.

(** X13.  The asynchronous retry loop, event by event, whatever execAsync
    depends on.  With [maxRetries = k >= 1], if every one of the [k]
    attempts of the run throws, the run leaves exactly: [k] calls of
    execAsync with the counter running from 0, each but the last followed,
    when [wait > 0], by one suspension of [wait * 1000] ms, then one call
    of execFallbackAsync at [k - 1]; the inherited fallback re-throws the
    error of the last attempt.  If the attempts throw until the [j]-th,
    which returns, the trace stops at that call and its value is returned.
    There is no warning and no fire-and-forget timer on this path. *)
Theorem AsyncNode_exec_retry_trace w this n (p : value) (k : nat) :
  get_node (heap w) this = Some n ->
  cls n = AsyncNode ->
  maxRetries n = Z.of_nat k ->
  (1 <= k)%nat ->
  let hk := user_class (impl n) in
  let run := dispatch_exec user_class parallel_join this p w in
  let att := attempt (execAsync hk) (heap w) this n p (shared w) in
  ((forall i, (i < k)%nat -> throws (att i)) ->
     exists e,
       fst (att (k - 1)%nat) = Throw e
       /\ trace (snd run)
          = trace w ++ async_failed_attempts this p (wait n) 0 (k - 1)
              ++ [EvCall ExecAsync this (Z.of_nat k - 1) [p];
                  EvCall ExecFallbackAsync this (Z.of_nat k - 1) [p]]
       /\ (execFallbackAsync hk = execFallbackAsync base_hooks -> fst run = Throw e))
  /\ (forall (j : nat) (v : value),
        (1 <= j <= k)%nat ->
        (forall i, (i < j - 1)%nat -> throws (att i)) ->
        fst (att (j - 1)%nat) = Ret v ->
        fst run = Ret v
        /\ trace (snd run)
           = trace w ++ async_failed_attempts this p (wait n) 0 (j - 1)
               ++ [EvCall ExecAsync this (Z.of_nat j - 1) [p]]).
Proof.
  intros E Hc Hk Hk1 hk run att.
  assert (Hrun : run = AsyncNode__exec user_class this p w).
  { unfold run. by apply (dispatch_exec_AsyncNode w this n p E Hc). }
  rewrite Hrun. clear Hrun run. split.
  - intros Hfail.
    destruct (Hfail (k - 1)%nat ltac:(lia)) as [e He]. exists e. split; [done|].
    rewrite (AsyncNode_exec_run w this n p (k - 1) E) by (try lia; intros i Hi; apply Hfail; lia).
    fold hk att. rewrite He.
    replace (Z.of_nat (k - 1) =? maxRetries n - 1)%Z with true
      by (symmetry; apply Z.eqb_eq; lia).
    set (wf := mk_world _ _ _ _).
    assert (Ef : get_node (heap wf) this = Some (set_curRetry (Z.of_nat (k - 1)) n)).
    { apply attempt_heap_node. }
    rewrite (call_eq ExecFallbackAsync execFallbackAsync wf this _ _ _ Ef).
    cbn [fst snd trace curRetry set_curRetry impl wf].
    replace (Z.of_nat (k - 1)) with (Z.of_nat k - 1)%Z by lia.
    split; [by rewrite <- !app_assoc|].
    intros Hdef. fold hk. by rewrite Hdef.
  - intros j v Hj Hfail Hok.
    rewrite (AsyncNode_exec_run w this n p (j - 1) E) by (try lia; done).
    fold hk att. rewrite Hok. cbn [fst snd trace].
    by replace (Z.of_nat (j - 1)) with (Z.of_nat j - 1)%Z by lia.
Qed.

(** *** Further properties: the asynchronous batch node *)

Lemma dispatch_exec_AsyncBatchNode w this n (items : value) :
  get_node (heap w) this = Some n -> cls n = AsyncBatchNode ->
  dispatch_exec user_class parallel_join this items w
  = AsyncBatchNode__exec user_class this items w.
Proof.
  intros E Hc. unfold dispatch_exec.
  rewrite (bind_Ret _ _ _ _ _ (this_node_ref _ w this n E)). by rewrite Hc.
Qed.

(** X14.  An AsyncBatchNode treats its input as the synchronous BatchNode
    does, over the asynchronous retry logic: an array is processed element
    by element, each element awaited before the next starts, and the
    results come back in input order; a truthy value that is not an array
    is warned about once and processed as a single element; a falsy value
    gives the empty array with no warning and no call. *)
Theorem AsyncBatchNode__exec_spec w this n (items : value) :
  get_node (heap w) this = Some n ->
  cls n = AsyncBatchNode ->
  let run := dispatch_exec user_class parallel_join this items w in
  (forall xs, items = VArr xs ->
     (forall ys w', run = (Ret (VArr ys), w')
                    <-> each_returns (AsyncNode__exec user_class this) xs ys w w')
     /\ (forall v w', run = (Ret v, w') -> exists ys, v = VArr ys /\ length ys = length xs))
  /\ (isArray items = false -> truthy items = true ->
        let w1 := warned (Text ("AsyncBatchNode expected an array but received " +:+ typeof items)) w in
        fst run = singleton_result (fst (AsyncNode__exec user_class this items w1))
        /\ snd run = snd (AsyncNode__exec user_class this items w1))
  /\ (truthy items = false -> run = (Ret (VArr []), w)).
Proof.
  intros E Hc run. subst run. rewrite (dispatch_exec_AsyncBatchNode w this n items E Hc).
  split; [|split].
  - intros xs ->. unfold AsyncBatchNode__exec. cbn [truthy negb]. repeat split.
    + intros H. apply bind_inv in H as [(ys' & w1 & Hm & H)|[(e & _ & He)|[_ He]]]; try done.
      unfold ret in H. inversion H; subst. by apply mapM_returns.
    + intros H. apply mapM_returns in H. by rewrite (bind_Ret _ _ _ _ _ H).
    + intros v w' H.
      apply bind_inv in H as [(ys' & w1 & Hm & H)|[(e & _ & He)|[_ He]]]; try done.
      unfold ret in H. inversion H; subst. exists ys'. split; [done|].
      apply mapM_returns in Hm. by apply (each_returns_length _ _ _ _ _ Hm).
  - intros Ha Ht w1. unfold AsyncBatchNode__exec. rewrite Ht. cbn [negb].
    assert (Hrun : forall k : M U value,
               (warnings_warn (Text ("AsyncBatchNode expected an array but received " +:+ typeof items));;; k) w
               = k w1).
    { intros k. unfold bind. by rewrite warnings_warn_eq. }
    destruct items; try discriminate Ha; try discriminate Ht; rewrite Hrun;
      unfold bind, ret; by destruct (AsyncNode__exec user_class this _ w1) as [[y|e|] w2].
  - intros Hf. unfold AsyncBatchNode__exec. by rewrite Hf.
Qed.

(** *** Further properties: flows *)


(** X16.  A flow without a start node does no work: its orchestration,
    synchronous or asynchronous, emits one warning and returns null; it
    runs no node, whatever the override parameters, and allocates nothing. *)
Theorem orchestrate_without_start (rec : invocation -> M U value) w this n (ov : value) :
  get_node (heap w) this = Some n ->
  truthy (startNode n) = false ->
  Flow__orchestrate rec this ov w = (Ret VNull, warned (Text "Flow has no start node") w)
  /\ AsyncFlow__orchestrateAsync rec this ov w
     = (Ret VNull, warned (Text "AsyncFlow has no start node") w).
Proof.
  intros E Hs. unfold Flow__orchestrate, AsyncFlow__orchestrateAsync.
  rewrite !(bind_Ret _ _ _ _ _ (this_node_ref _ w this n E)). rewrite Hs. cbn [negb].
  unfold bind. by rewrite !warnings_warn_eq.
Qed.

Lemma is_object_guard (p : value) :
  is_object p = true -> is_null p || negb (String.eqb (typeof p) "object") = false.
Proof. intros Hp. by rewrite setParams_guard, Hp. Qed.

Lemma is_object_truthy (p : value) : is_object p = true -> truthy p = true.
Proof. by destruct p. Qed.

Lemma merged_params_eq (n : node) (ov : value) w :
  merged_params n ov w
  = if truthy ov then (Ret ov, w)
    else (Ret (VRef (fresh (dom (heap w)))),
          with_heap (<[fresh (dom (heap w)) := OMap (own_entries (heap w) (params n))]> (heap w)) w).
Proof. unfold merged_params. destruct (truthy ov); [done|]. by rewrite bind_read. Qed.


(** One turn of an orchestration loop, once the run of the clone has
    returned the action [act]: the successor is looked up in the table of
    the original node and the loop goes on with what was found. *)
Lemma loop_turn_routes (fuel : nat) (async : bool) w (r0 : ref) n (m : gmap string value)
    (p la act : value) w1 :
  get_node (heap w) r0 = Some n ->
  heap w !! successors n = Some (OMap m) ->
  is_object p = true ->
  let rec := run_with user_class parallel_join (S fuel) in
  let r' := fresh (dom (heap w)) in
  let wc := with_heap (<[r' := ONode (set_params p n)]> (heap w)) w in
  (if async && instanceof_AsyncNode (cls n)
   then AsyncNode__runAsync user_class parallel_join r'
   else rec (CRun r')) wc = (Ret act, w1) ->
  let next := plain_get m (label_of act) in
  orchestrate_loop user_class parallel_join rec async (VRef r0) p la w
  = rec (CLoop async next p act)
      (if negb (truthy next) && (0 <? size m)%nat
       then warned (FlowEnds (label_of act) (dom m)) w1 else w1).
Proof.
  intros E Hm Hp rec r' wc Hrun next.
  destruct (orchestrate_loop_turn rec async w r0 n p la E (is_object_guard p Hp))
    as (Hfresh & E0 & _ & Heq).
  fold r' in Hfresh. fold r' wc in E0, Heq. rewrite Heq. clear Heq.
  rewrite (bind_Ret _ _ _ _ _ Hrun).
  assert (Hk : kept_except r' wc w1).
  { apply only_attempt_kept_except.
    destruct (async && instanceof_AsyncNode (cls n)).
    - exact (preserves_AsyncNode_runAsync r' _ _ _ Hrun).
    - exact (preserves_run_with (S fuel) (CRun r') _ _ _ Hrun). }
  assert (Hne : forall x o, heap w !! x = Some o -> heap w1 !! x = Some o).
  { intros x o Hx. apply Hk.
    - intros ->. congruence.
    - unfold wc. cbn [heap with_heap]. by apply insert_fresh_keeps. }
  assert (E1 : get_node (heap w1) r0 = Some n).
  { apply get_node_Some, Hne. by apply get_node_Some. }
  by rewrite (bind_Ret _ _ _ _ _ (getNextNode_plain w1 r0 n m act E1 (Hne _ _ Hm))).
Qed.

Lemma loop_ends (fuel : nat) (async : bool) w (p la : value) :
  run_with user_class parallel_join (S fuel) (CLoop async VUndefined p la) w = (Ret la, w).
Proof. done. Qed.

Lemma loop_native (fuel : nat) (async : bool) w (p la : value) (x : native) :
  run_with user_class parallel_join (S fuel) (CLoop async (VNative x) p la) w
  = (Throw (TypeError "currentNode.setParams is not a function"), w).
Proof. done. Qed.

(** C2.  Successor lookup on the table of a node, for an action that is a
    string or falsy.  A falsy action stands for [default].  A label the
    table holds yields its node and no warning, and the flow goes on with
    that node.  A label the table does not hold and that is not a member of
    [Object.prototype] yields undefined, with one warning naming the label
    and the registered labels when the table is not empty and none when it
    is; the flow then ends with the action as its result.  A label the
    table does not hold but [Object.prototype] has ([toString],
    [constructor], ...) yields that member, not undefined, and no warning
    whatever the table holds; the flow does not end but throws the
    TypeError of calling [setParams] on it. *)
Theorem getNextNode_spec (fuel : nat) (async : bool) w (r : ref) n (m : gmap string value)
    (act p la : value) :
  get_node (heap w) r = Some n ->
  heap w !! successors n = Some (OMap m) ->
  is_label act = true ->
  let label := label_of act in
  let lookup := Flow_getNextNode (VRef r) act in
  let rec := run_with user_class parallel_join (S fuel) in
  let turn := orchestrate_loop user_class parallel_join rec async (VRef r) p la w in
  let ran w1 :=
    is_object p = true
    /\ (if async && instanceof_AsyncNode (cls n)
        then AsyncNode__runAsync user_class parallel_join (fresh (dom (heap w)))
        else rec (CRun (fresh (dom (heap w)))))
         (with_heap (<[fresh (dom (heap w)) := ONode (set_params p n)]> (heap w)) w)
       = (Ret act, w1) in
  (truthy act = false -> label = "default")
  /\ (forall tgt, m !! label = Some tgt -> truthy tgt = true ->
        lookup w = (Ret tgt, w)
        /\ forall w1, ran w1 -> turn = rec (CLoop async tgt p act) w1)
  /\ (m !! label = None -> inherited label = false ->
        let ended w' := if decide (m = ∅) then w' else warned (FlowEnds label (dom m)) w' in
        lookup w = (Ret VUndefined, ended w)
        /\ forall w1, ran w1 -> turn = (Ret act, ended w1))
  /\ (m !! label = None -> inherited label = true ->
        (exists x, lookup w = (Ret (VNative x), w))
        /\ forall w1, ran w1 ->
             turn = (Throw (TypeError "currentNode.setParams is not a function"), w1)).
Proof.
  intros E Hm Hact label lookup rec turn ran.
  assert (Hlook : lookup w
            = (Ret (plain_get m label),
               if negb (truthy (plain_get m label)) && (0 <? size m)%nat
               then warned (FlowEnds label (dom m)) w else w)).
  { apply (getNextNode_plain w r n m act E Hm). }
  assert (Hturn : forall w1, ran w1 ->
            turn = rec (CLoop async (plain_get m label) p act)
                     (if negb (truthy (plain_get m label)) && (0 <? size m)%nat
                      then warned (FlowEnds label (dom m)) w1 else w1)).
  { intros w1 [Hp Hrun]. by apply (loop_turn_routes fuel async w r n m p la act w1). }
  split; [|split; [|split]].
  - intros Hf. unfold label, label_of. by rewrite Hf.
  - intros tgt Hl Ht. rewrite Hlook.
    rewrite (plain_get_own m label tgt Hl), Ht. cbn [negb andb]. split; [done|].
    intros w1 Hran. rewrite (Hturn w1 Hran).
    by rewrite (plain_get_own m label tgt Hl), Ht.
  - intros Hl Hin ended. rewrite Hlook.
    rewrite (plain_get_absent m label Hl Hin). cbn [truthy negb andb].
    assert (Hsize : forall w', (if (0 <? size m)%nat
                                then warned (FlowEnds label (dom m)) w' else w') = ended w').
    { intros w'. unfold ended. destruct (decide (m = ∅)) as [->|Hne].
      - by rewrite map_size_empty.
      - by rewrite (size_pos_nonempty m Hne). }
    rewrite Hsize. split; [done|]. intros w1 Hran. rewrite (Hturn w1 Hran).
    rewrite (plain_get_absent m label Hl Hin). cbn [truthy negb andb].
    rewrite Hsize. apply loop_ends.
  - intros Hl Hin. rewrite Hlook.
    rewrite (plain_get_inherited m label Hl Hin).
    split.
    + destruct (String.eqb label "__proto__"); by eexists.
    + intros w1 Hran. rewrite (Hturn w1 Hran).
      rewrite (plain_get_inherited m label Hl Hin).
      destruct (String.eqb label "__proto__"); apply loop_native.
Qed.

(** X17.  A flow whose start node has no successors runs the lifecycle of
    that node once, on a clone carrying the run's parameters (the override,
    or without one a copy of the flow's own), and ends there: the node's
    action, a string or a falsy value, is the result of the orchestration
    and no warning about a missing successor is emitted.  The one exception
    is an action naming a member of [Object.prototype]: the empty table
    answers to it, and the orchestration throws a TypeError.  If the node's
    run throws, the orchestration throws the same error. *)
Theorem orchestrate_single_terminal_node (fuel : nat) w this nf (r0 : ref) n (ov : value) :
  get_node (heap w) this = Some nf ->
  startNode nf = VRef r0 ->
  get_node (heap w) r0 = Some n ->
  heap w !! successors n = Some (OMap ∅) ->
  is_object ov = true \/ truthy ov = false ->
  let p := if truthy ov then ov else VRef (fresh (dom (heap w))) in
  let w0 := if truthy ov then w
            else with_heap (<[fresh (dom (heap w))
                              := OMap (own_entries (heap w) (params nf))]> (heap w)) w in
  let r' := fresh (dom (heap w0)) in
  let wc := with_heap (<[r' := ONode (set_params p n)]> (heap w0)) w0 in
  let node_run := run_with user_class parallel_join (S fuel) (CRun r') wc in
  let flow_run := Flow__orchestrate (run_with user_class parallel_join (S (S fuel))) this ov w in
  (forall a w', node_run = (Ret a, w') -> is_label a = true ->
     flow_run
     = (if inherited (label_of a)
        then Throw (TypeError "currentNode.setParams is not a function") else Ret a, w'))
  /\ (forall e w', node_run = (Throw e, w') -> flow_run = (Throw e, w')).
Proof.
  intros Ef Hst E Hsucc Hov p w0 r' wc node_run flow_run.
  assert (Hp : is_object p = true).
  { unfold p. destruct Hov as [Ho|Hf]; [by rewrite (is_object_truthy ov Ho)|by rewrite Hf]. }
  assert (Hkeep : forall x o, heap w !! x = Some o -> heap w0 !! x = Some o).
  { intros x o Hx. unfold w0. destruct (truthy ov); [done|].
    cbn [heap with_heap]. by apply insert_fresh_keeps. }
  assert (E0 : get_node (heap w0) r0 = Some n).
  { apply get_node_Some, Hkeep. by apply get_node_Some. }
  assert (Hflow : flow_run
            = orchestrate_loop user_class parallel_join
                (run_with user_class parallel_join (S fuel)) false (VRef r0) p VNull w0).
  { unfold flow_run, Flow__orchestrate.
    rewrite (bind_Ret _ _ _ _ _ (this_node_ref _ w this nf Ef)). rewrite Hst. cbn [truthy negb].
    unfold bind at 1. rewrite (merged_params_eq nf ov w). unfold p, w0.
    by destruct (truthy ov). }
  rewrite Hflow. split.
  - intros a w' Hr Ha.
    rewrite (loop_turn_routes fuel false w0 r0 n ∅ p VNull a w' E0 (Hkeep _ _ Hsucc) Hp Hr).
    rewrite map_size_empty. cbn [Nat.ltb Nat.leb andb]. rewrite andb_false_r.
    destruct (inherited (label_of a)) eqn:Hin.
    + rewrite (plain_get_inherited ∅ _ (lookup_empty _) Hin).
      destruct (String.eqb (label_of a) "__proto__"); apply loop_native.
    + rewrite (plain_get_absent ∅ _ (lookup_empty _) Hin). apply loop_ends.
  - intros e w' Hr.
    destruct (orchestrate_loop_turn (run_with user_class parallel_join (S fuel)) false w0 r0 n p
                VNull E0 (is_object_guard p Hp)) as (_ & _ & _ & Heq).
    rewrite Heq. cbn [andb]. by apply bind_Throw.
Qed.

(** X18.  The two execution models do not mix freely inside a graph.  A
    synchronous orchestration that reaches an AsyncNode (or an instance of
    one of its subclasses) throws at that turn, after cloning the node and
    before any lifecycle call.  An asynchronous flow reached as a node of
    any orchestration, synchronous or asynchronous, throws in the same way:
    it is not an instance of AsyncNode, so it is driven through [_run], and
    the [_run] it received from [applyMixins] is the throwing one. *)
Theorem orchestrate_rejects_async_members (fuel : nat) w (r0 : ref) n (p lastAction : value) :
  get_node (heap w) r0 = Some n ->
  is_object p = true ->
  let wc := with_heap (<[fresh (dom (heap w)) := ONode (set_params p n)]> (heap w)) w in
  let turn (async : bool) :=
    orchestrate_loop user_class parallel_join (run_with user_class parallel_join (S fuel))
      async (VRef r0) p lastAction w in
  (instanceof_AsyncNode (cls n) = true -> turn false = (Throw sync_run_error, wc))
  /\ (cls n = AsyncFlow \/ cls n = AsyncBatchFlow \/ cls n = AsyncParallelBatchFlow ->
        forall async, turn async = (Throw sync_run_error, wc)).
Proof.
  intros E Hp wc turn.
  assert (Hturn : forall async,
            async && instanceof_AsyncNode (cls n) = false ->
            instanceof_AsyncNode (cls n) = true \/ cls n = AsyncFlow \/ cls n = AsyncBatchFlow
              \/ cls n = AsyncParallelBatchFlow ->
            turn async = (Throw sync_run_error, wc)).
  { intros async Ha Hc. unfold turn.
    destruct (orchestrate_loop_turn (run_with user_class parallel_join (S fuel)) async w r0 n p
                lastAction E (is_object_guard p Hp)) as (_ & _ & Ec & Heq).
    rewrite Heq, Ha. fold wc in Ec |- *.
    apply bind_Throw. cbn [run_with invoke].
    apply (dispatch_run_async _ wc _ (set_params p n) Ec). exact Hc. }
  split.
  - intros Hc. apply Hturn; [done|by left].
  - intros Hc async. apply Hturn; [|by right].
    destruct Hc as [->|[->| ->]]; by destruct async.
Qed.

(** X19.  AsyncBatchFlow runs as BatchFlow does, over the asynchronous
    methods: with prepAsync returning the array [ps], one asynchronous
    orchestration per element, in order, each awaited before the next, each
    on a new mapping holding the flow's params merged with the element, the
    results ignored, and postAsync called with [ps] and null; a falsy
    result of prepAsync counts as the empty array. *)
Theorem AsyncBatchFlow_runAsync_spec (rec : invocation -> M U value) w this n (pr0 : value) (s1 : U) :
  get_node (heap w) this = Some n ->
  prepAsync (user_class (impl n)) this (heap w) tt (shared w) = (Ret pr0, s1) ->
  let run := AsyncBatchFlow__runAsync user_class rec this w in
  let orch := AsyncFlow__orchestrateAsync rec this in
  let w1 := mk_world (heap w) (handlers w) (trace w ++ [EvCall PrepAsync this (curRetry n) []]) s1 in
  (forall ps, pr0 = VArr ps ->
     (forall w2, sub_runs orch this ps w1 w2 ->
        run = call user_class PostAsync postAsync this [VArr ps; VNull] (VArr ps, VNull) w2)
     /\ (forall v w', run = (Ret v, w') ->
           exists w2, sub_runs orch this ps w1 w2
                      /\ call user_class PostAsync postAsync this [VArr ps; VNull] (VArr ps, VNull) w2
                         = (Ret v, w')))
  /\ (truthy pr0 = false ->
        run = call user_class PostAsync postAsync this [VArr []; VNull] (VArr [], VNull) w1)
  /\ (truthy pr0 = true -> isArray pr0 = false ->
        run = call user_class PostAsync postAsync this [pr0; VNull] (pr0, VNull)
                (warned (Text ("AsyncBatchFlow expected an array from prepAsync() but received "
                               +:+ typeof pr0)) w1)).
Proof.
  intros E Hp run orch w1.
  assert (Hrun : run =
    (let pr := if truthy pr0 then pr0 else VArr [] in
     match pr with
     | VArr l =>
         forEach (fun bp => let* p := batch_params this bp in orch p) l ;;;
         call user_class PostAsync postAsync this [pr; VNull] (pr, VNull)
     | _ =>
         warnings_warn (Text ("AsyncBatchFlow expected an array from prepAsync() but received "
                              +:+ typeof pr)) ;;;
         call user_class PostAsync postAsync this [pr; VNull] (pr, VNull)
     end) w1).
  { unfold run, AsyncBatchFlow__runAsync.
    unfold bind at 1. by rewrite (call_eq PrepAsync prepAsync w this n _ _ E), Hp. }
  rewrite Hrun. clear Hrun. cbv zeta.
  split; [|split].
  - intros ps ->. cbn [truthy]. split.
    + intros w2 Hs. apply forEach_sub_runs in Hs.
      by rewrite (bind_Ret _ _ _ _ _ Hs).
    + intros v w' H.
      apply bind_inv in H as [([] & w2 & Hf & H)|[(e & _ & He)|[_ He]]]; try done.
      exists w2. split; [apply forEach_sub_runs; exact Hf|exact H].
  - intros Hf. rewrite Hf. cbn [forEach]. unfold bind, ret. done.
  - intros Ht Ha. rewrite Ht.
    destruct pr0; try discriminate Ha; try discriminate Ht;
      unfold bind; by rewrite warnings_warn_eq.
Qed.

(** *** Further properties: constructors *)

Lemma construct_eq w (impl : nat) (k : ctor_call) :
  let p := fresh (dom (heap w)) in
  let hp1 := <[p := OMap ∅]> (heap w) in
  let s := fresh (dom hp1) in
  let hp2 := <[s := OMap ∅]> hp1 in
  let r := fresh (dom hp2) in
  exists n,
    construct impl k w = (Ret r, with_heap (<[r := ONode n]> hp2) w)
    /\ params n = VRef p /\ successors n = s /\ curRetry n = 0%Z
    /\ p <> s /\ p <> r /\ s <> r
    /\ heap w !! p = None /\ heap w !! s = None /\ heap w !! r = None.
Proof.
  intros p hp1 s hp2 r.
  assert (Hp : heap w !! p = None) by apply fresh_not_in_heap.
  assert (Hs : hp1 !! s = None) by apply fresh_not_in_heap.
  assert (Hr : hp2 !! r = None) by apply fresh_not_in_heap.
  assert (Hps : p <> s).
  { intros Heq. rewrite <- Heq in Hs. unfold hp1 in Hs. by rewrite lookup_insert_eq in Hs. }
  assert (Hsr : s <> r).
  { intros Heq. rewrite <- Heq in Hr. unfold hp2 in Hr. by rewrite lookup_insert_eq in Hr. }
  assert (Hpr : p <> r).
  { intros Heq. rewrite <- Heq in Hr. unfold hp2, hp1 in Hr.
    rewrite lookup_insert_ne in Hr by done. by rewrite lookup_insert_eq in Hr. }
  assert (Hs0 : heap w !! s = None).
  { unfold hp1 in Hs. by rewrite lookup_insert_ne in Hs. }
  assert (Hr0 : heap w !! r = None).
  { unfold hp2, hp1 in Hr. by rewrite !lookup_insert_ne in Hr. }
  destruct k as [|c mr wt|c st|c st]; eexists; (split; [reflexivity|]); done.
Qed.

(** X20.  The constructors of BaseNode, Node, Flow and AsyncFlow (and of
    the classes that inherit them unchanged) give the new node two mappings
    of its own.  Of two nodes constructed one after the other (by any of
    these constructors, with any arguments) each sits at a reference that
    was free before, with a [params] and a [successors] mapping that are
    new, empty and different from each other and from those of the other
    node; the second construction leaves the first node as it was, and
    neither touches an object that existed before nor emits anything. *)
Theorem constructed_nodes_share_nothing w (i1 i2 : nat) (k1 k2 : ctor_call) :
  exists (r1 r2 p1 p2 : ref) n1 n2 w1 w2,
    construct i1 k1 w = (Ret r1, w1) /\ construct i2 k2 w1 = (Ret r2, w2)
    /\ get_node (heap w2) r1 = Some n1 /\ get_node (heap w2) r2 = Some n2
    /\ get_node (heap w1) r1 = Some n1
    /\ params n1 = VRef p1 /\ params n2 = VRef p2
    /\ NoDup [r1; p1; successors n1; r2; p2; successors n2]
    /\ Forall (fun x => heap w !! x = None) [r1; p1; successors n1; r2; p2; successors n2]
    /\ Forall (fun x => heap w2 !! x = Some (OMap ∅)) [p1; successors n1; p2; successors n2]
    /\ heap_kept w w2
    /\ (handlers w2, trace w2, shared w2) = (handlers w, trace w, shared w).
Proof.
  destruct (construct_eq w i1 k1) as (n1 & E1 & Hp1 & Hs1 & _ & D1 & D2 & D3 & F1 & F2 & F3).
  set (p1 := fresh (dom (heap w))) in *.
  set (s1 := fresh (dom (<[p1 := OMap ∅]> (heap w)))) in *.
  set (r1 := fresh (dom (<[s1 := OMap ∅]> (<[p1 := OMap ∅]> (heap w))))) in *.
  set (w1 := with_heap (<[r1 := ONode n1]> (<[s1 := OMap ∅]> (<[p1 := OMap ∅]> (heap w)))) w) in *.
  destruct (construct_eq w1 i2 k2) as (n2 & E2 & Hp2 & Hs2 & _ & D4 & D5 & D6 & G1 & G2 & G3).
  set (p2 := fresh (dom (heap w1))) in *.
  set (s2 := fresh (dom (<[p2 := OMap ∅]> (heap w1)))) in *.
  set (r2 := fresh (dom (<[s2 := OMap ∅]> (<[p2 := OMap ∅]> (heap w1))))) in *.
  set (w2 := with_heap (<[r2 := ONode n2]> (<[s2 := OMap ∅]> (<[p2 := OMap ∅]> (heap w1)))) w1) in *.
  assert (Hw1 : forall x, heap w1 !! x = None -> x <> r1 /\ x <> s1 /\ x <> p1 /\ heap w !! x = None).
  { intros x Hx. unfold w1 in Hx. cbn [heap with_heap] in Hx.
    repeat split; try (intros ->; rewrite ?lookup_insert_ne in Hx by done;
                       by rewrite lookup_insert_eq in Hx).
    destruct (decide (x = r1)) as [->|N1]; [by rewrite lookup_insert_eq in Hx|].
    destruct (decide (x = s1)) as [->|N2];
      [rewrite lookup_insert_ne in Hx by done; by rewrite lookup_insert_eq in Hx|].
    destruct (decide (x = p1)) as [->|N3];
      [rewrite !lookup_insert_ne in Hx by done; by rewrite lookup_insert_eq in Hx|].
    by rewrite !lookup_insert_ne in Hx by done. }
  destruct (Hw1 _ G1) as (A1 & A2 & A3 & A4).
  destruct (Hw1 _ G2) as (B1 & B2 & B3 & B4).
  destruct (Hw1 _ G3) as (C1 & C2 & C3 & C4).
  assert (Hget : forall x o, x <> r2 -> x <> s2 -> x <> p2 ->
             heap w1 !! x = Some o -> heap w2 !! x = Some o).
  { intros x o N1 N2 N3 Hx. unfold w2. cbn [heap with_heap].
    by rewrite !lookup_insert_ne by done. }
  assert (Hr1 : heap w1 !! r1 = Some (ONode n1)).
  { unfold w1. cbn [heap with_heap]. by rewrite lookup_insert_eq. }
  assert (Hs1' : heap w1 !! s1 = Some (OMap ∅)).
  { unfold w1. cbn [heap with_heap].
    rewrite lookup_insert_ne by done. by rewrite lookup_insert_eq. }
  assert (Hp1' : heap w1 !! p1 = Some (OMap ∅)).
  { unfold w1. cbn [heap with_heap].
    rewrite !lookup_insert_ne by done. by rewrite lookup_insert_eq. }
  exists r1, r2, p1, p2, n1, n2, w1, w2. rewrite Hs1, Hs2.
  split; [exact E1|]. split; [exact E2|].
  split; [apply get_node_Some; apply Hget; auto|].
  split; [apply get_node_Some; unfold w2; cbn [heap with_heap]; by rewrite lookup_insert_eq|].
  split; [by apply get_node_Some|].
  split; [exact Hp1|]. split; [exact Hp2|].
  split.
  { repeat (apply NoDup_cons; split; [rewrite ?elem_of_cons, elem_of_nil; intuition congruence|]).
    apply NoDup_nil_2. }
  split.
  { repeat (apply Forall_cons; split; [done|]). apply Forall_nil_2. }
  split.
  { apply Forall_cons; split; [apply Hget; auto|].
    apply Forall_cons; split; [apply Hget; auto|].
    apply Forall_cons; split.
    { unfold w2. cbn [heap with_heap].
      rewrite !lookup_insert_ne by done. by rewrite lookup_insert_eq. }
    apply Forall_cons; split; [|apply Forall_nil_2].
    unfold w2. cbn [heap with_heap].
    rewrite lookup_insert_ne by done. by rewrite lookup_insert_eq. }
  split; [|done].
  intros x o Hx.
  assert (Hx1 : heap w1 !! x = Some o).
  { unfold w1. cbn [heap with_heap].
    rewrite !lookup_insert_ne by (intros ->; congruence). done. }
  apply Hget; [intros ->; congruence..|exact Hx1].
Qed.

(** *** Further properties: wiring and routing together *)

Lemma getNextNode_result w (r : ref) n (m : gmap string value) act :
  get_node (heap w) r = Some n ->
  heap w !! successors n = Some (OMap m) ->
  fst (Flow_getNextNode (VRef r) act w) = Ret (plain_get m (label_of act)).
Proof. intros E Hm. by rewrite (getNextNode_plain w r n m act E Hm). Qed.

Lemma truthy_VStr (s : string) : s <> EmptyString -> truthy (VStr s) = true.
Proof. by destruct s. Qed.

(** X21.  What [next] registers, [getNextNode] finds: after
    [a.next(tgt, s)] with a non-empty label [s], routing from [a] on the
    action [s] yields [tgt] and emits nothing, whatever the label and
    whatever the table held before.  Unless [s] is [__proto__], routing on
    an action that selects another label yields what it yielded before the
    call. *)
Theorem next_then_getNextNode w (a : ref) na (m : gmap string value) (tgt : value) (s : string) :
  get_node (heap w) a = Some na ->
  heap w !! successors na = Some (OMap m) ->
  instanceof_BaseNode (heap w) tgt = true ->
  s <> EmptyString ->
  let w1 := snd (BaseNode_next a tgt (VStr s) w) in
  Flow_getNextNode (VRef a) (VStr s) w1 = (Ret tgt, w1)
  /\ (s <> "__proto__" ->
      forall act, is_label act = true -> label_of act <> s ->
        fst (Flow_getNextNode (VRef a) act w1) = fst (Flow_getNextNode (VRef a) act w)).
Proof.
  intros Ha Hm Hi Hs w1. destruct (instanceof_ref _ _ Hi) as [p ->].
  assert (Hw1 : heap w1 = <[successors na := assigned (OMap m) s (VRef p)]> (heap w)).
  { unfold w1. by rewrite (BaseNode_next_eq w a na m (VRef p) s Ha Hm Hi). }
  assert (Ha1 : get_node (heap w1) a = Some na).
  { rewrite Hw1. by apply (get_node_insert_plain _ _ _ _ m). }
  split.
  - rewrite (getNextNode_unfold w1 a na (VStr s) Ha1). cbv zeta.
    assert (Hl : label_of (VStr s) = s).
    { unfold label_of. by rewrite (truthy_VStr s Hs). }
    rewrite Hl, Hw1, get_prop_assigned. done.
  - intros Hne act Hact Hl.
    assert (Hm1 : heap w1 !! successors na = Some (OMap (<[s := VRef p]> m))).
    { rewrite Hw1, lookup_insert_eq. by rewrite (assigned_entry m s _ (or_introl Hne)). }
    rewrite (getNextNode_result w1 a na _ act Ha1 Hm1), (getNextNode_result w a na m act Ha Hm).
    by rewrite plain_get_insert_ne.
Qed.

(** X22.  [next] accepts the empty string as a label (only the type of the
    label is checked), but a successor registered under it is never chosen
    for a string action, nor for a falsy one: the empty action is routed to
    [default], so every such routing from [a] gives what it gave before the
    call.  What the call does change is that the table is no longer empty,
    so a routing that finds nothing now emits the warning about the end of
    the flow. *)
Theorem empty_label_never_routed w (a : ref) na (m : gmap string value) (tgt : value) :
  get_node (heap w) a = Some na ->
  heap w !! successors na = Some (OMap m) ->
  instanceof_BaseNode (heap w) tgt = true ->
  exists w1,
    BaseNode_next a tgt (VStr EmptyString) w = (Ret tgt, w1)
    /\ own_entries (heap w1) (VRef (successors na)) !! EmptyString = Some tgt
    /\ (forall act, is_label act = true ->
          fst (Flow_getNextNode (VRef a) act w1) = fst (Flow_getNextNode (VRef a) act w))
    /\ (m = ∅ ->
        forall act, is_label act = true -> inherited (label_of act) = false ->
          Flow_getNextNode (VRef a) act w = (Ret VUndefined, w)
          /\ Flow_getNextNode (VRef a) act w1
             = (Ret VUndefined, warned (FlowEnds (label_of act) {[EmptyString]}) w1)).
Proof.
  intros Ha Hm Hi.
  assert (Hs : EmptyString <> "__proto__" \/ m !! EmptyString <> None) by (left; discriminate).
  eexists. split; [by apply (BaseNode_next_entry w a na m)|].
  set (w1 := mk_world _ _ _ _).
  assert (Ha1 : get_node (heap w1) a = Some na).
  { unfold w1. cbn [heap]. by apply (get_node_insert_map _ _ _ _ m). }
  assert (Hm1 : heap w1 !! successors na = Some (OMap (<[EmptyString := tgt]> m))).
  { unfold w1. cbn [heap]. by rewrite lookup_insert_eq. }
  split; [|split].
  - unfold own_entries. rewrite Hm1. by rewrite lookup_insert_eq.
  - intros act Hact.
    rewrite (getNextNode_result w1 a na _ act Ha1 Hm1), (getNextNode_result w a na m act Ha Hm).
    rewrite plain_get_insert_ne; [done|]. intros Heq. by apply (label_of_string act Hact).
  - intros -> act Hact Hin. split.
    + rewrite (getNextNode_plain w a na ∅ act Ha Hm).
      rewrite (plain_get_absent ∅ _ (lookup_empty _) Hin). by rewrite map_size_empty.
    + rewrite (getNextNode_plain w1 a na _ act Ha1 Hm1).
      assert (Hl : <[EmptyString := tgt]> (∅ : gmap string value) !! label_of act = None).
      { rewrite lookup_insert_ne; [apply lookup_empty|].
        intros Heq. by apply (label_of_string act Hact). }
      rewrite (plain_get_absent _ _ Hl Hin). cbn [truthy negb andb].
      rewrite map_size_insert_None by apply lookup_empty. cbn [Nat.ltb Nat.leb].
      by rewrite dom_insert_L, dom_empty_L, (right_id_L ∅ (∪)).
Qed.


(** *** Further properties: running a flow *)

(** X24.  The run of a flow is prep, then one orchestration without
    parameter override (so on a copy of the flow's own params), then post
    on the result of prep and the last action; the value of the run is the
    value of post, which for a flow that does not override post is the last
    action.  The flow object is the same after the orchestration, so post
    runs on the receiver prep ran on.  An error escaping the orchestration
    escapes the run, and post is not called.  The same holds of AsyncFlow
    with prepAsync, the asynchronous orchestration and postAsync. *)
Theorem Flow_run_lifecycle (fuel : nat) w this n (p0 : value) (s1 : U) :
  get_node (heap w) this = Some n ->
  let hk := user_class (impl n) in
  let rec := run_with user_class parallel_join fuel in
  let after (ph : phase) := mk_world (heap w) (handlers w)
                              (trace w ++ [EvCall ph this (curRetry n) []]) s1 in
  let finish (ph : phase) (sel : hooks U -> hook_fn U (value * value)) (o : value) (w2 : world U) :=
    (fst (sel hk this (heap w2) (p0, o) (shared w2)),
     mk_world (heap w2) (handlers w2) (trace w2 ++ [EvCall ph this (curRetry n) [p0; o]])
       (snd (sel hk this (heap w2) (p0, o) (shared w2)))) in
  (prep hk this (heap w) tt (shared w) = (Ret p0, s1) ->
     let run := Flow__run user_class rec this w in
     let orch := Flow__orchestrate rec this VNull (after Prep) in
     (forall o w2, orch = (Ret o, w2) ->
        run = finish Post post o w2 /\ (post hk = post base_hooks -> fst run = Ret o))
     /\ (forall e w2, orch = (Throw e, w2) -> run = (Throw e, w2)))
  /\ (prepAsync hk this (heap w) tt (shared w) = (Ret p0, s1) ->
        let run := AsyncFlow__runAsync user_class rec this w in
        let orch := AsyncFlow__orchestrateAsync rec this VNull (after PrepAsync) in
        (forall o w2, orch = (Ret o, w2) ->
           run = finish PostAsync postAsync o w2
           /\ (postAsync hk = postAsync base_hooks -> fst run = Ret o))
        /\ (forall e w2, orch = (Throw e, w2) -> run = (Throw e, w2))).
Proof.
  intros E hk rec after finish.
  assert (Hkept : forall (async : bool) (o : value) w2,
            (if async then AsyncFlow__orchestrateAsync rec this VNull (after PrepAsync)
             else Flow__orchestrate rec this VNull (after Prep)) = (Ret o, w2) ->
            get_node (heap w2) this = Some n).
  { intros async o w2 Ho.
    pose proof (preserves_orchestrate async fuel this VNull) as Hp.
    destruct async; apply Hp in Ho; by apply (heap_kept_node _ _ _ _ Ho). }
  split.
  - intros Hp run orch.
    assert (Hrun : run = (let* o := Flow__orchestrate rec this VNull in
                          call user_class Post post this [p0; o] (p0, o)) (after Prep)).
    { unfold run, Flow__run. unfold bind at 1.
      rewrite (call_eq Prep prep w this n _ _ E). fold hk. by rewrite Hp. }
    rewrite Hrun. clear Hrun. fold orch. split.
    + intros o w2 Ho. rewrite (bind_Ret _ _ _ _ _ Ho).
      rewrite (call_eq Post post w2 this n _ _ (Hkept false o w2 Ho)). fold hk.
      split; [done|]. intros Hpost. cbn [fst]. by rewrite Hpost.
    + intros e w2 Ho. by rewrite (bind_Throw _ _ _ _ _ Ho).
  - intros Hp run orch.
    assert (Hrun : run = (let* o := AsyncFlow__orchestrateAsync rec this VNull in
                          call user_class PostAsync postAsync this [p0; o] (p0, o))
                           (after PrepAsync)).
    { unfold run, AsyncFlow__runAsync. unfold bind at 1.
      rewrite (call_eq PrepAsync prepAsync w this n _ _ E). fold hk. by rewrite Hp. }
    rewrite Hrun. clear Hrun. fold orch. split.
    + intros o w2 Ho. rewrite (bind_Ret _ _ _ _ _ Ho).
      rewrite (call_eq PostAsync postAsync w2 this n _ _ (Hkept true o w2 Ho)). fold hk.
      split; [done|]. intros Hpost. cbn [fst]. by rewrite Hpost.
    + intros e w2 Ho. by rewrite (bind_Throw _ _ _ _ _ Ho).
Qed.

(** X25.  [runAsync] on an AsyncNode whose first attempt succeeds: after
    the warning about successors (emitted exactly when the node has some),
    prepAsync, execAsync and postAsync are each called once, in this order;
    execAsync and postAsync see the attempt counter at 0, whatever it was
    before the run; the value of postAsync is the value of the run.  An
    error in prepAsync ends the run before execAsync is called and before
    the counter is reset. *)
Theorem AsyncNode_runAsync_lifecycle w this n :
  get_node (heap w) this = Some n ->
  cls n = AsyncNode ->
  (1 <= maxRetries n)%Z ->
  let hk := user_class (impl n) in
  let run := AsyncNode_runAsync user_class parallel_join this w in
  let warning :=
    if decide (own_entries (heap w) (VRef (successors n)) = ∅) then []
    else map (fun hd => EvHandler hd (Text "Node won't run successors. Use AsyncFlow."))
           (handlers w) in
  let hp0 := <[this := ONode (set_curRetry 0 n)]> (heap w) in
  (forall p s1 e s2 a s3,
     prepAsync hk this (heap w) tt (shared w) = (Ret p, s1) ->
     execAsync hk this hp0 p s1 = (Ret e, s2) ->
     postAsync hk this hp0 (p, e) s2 = (Ret a, s3) ->
     run = (Ret a, mk_world hp0 (handlers w)
                     (trace w ++ warning
                        ++ [EvCall PrepAsync this (curRetry n) [];
                            EvCall ExecAsync this 0 [p];
                            EvCall PostAsync this 0 [p; e]]) s3))
  /\ (forall er s1,
        prepAsync hk this (heap w) tt (shared w) = (Throw er, s1) ->
        run = (Throw er, mk_world (heap w) (handlers w)
                           (trace w ++ warning ++ [EvCall PrepAsync this (curRetry n) []]) s1)).
Proof.
  intros E Hc Hk hk run warning hp0.
  set (w0 := mk_world (heap w) (handlers w) (trace w ++ warning) (shared w)).
  assert (Hrun : run = AsyncNode__runAsync user_class parallel_join this w0).
  { unfold run, AsyncNode_runAsync.
    rewrite (bind_Ret _ _ _ _ _ (this_node_ref _ w this n E)).
    rewrite bind_read. unfold w0, warning.
    set (m := own_entries (heap w) (VRef (successors n))).
    destruct (decide (m = ∅)) as [Hm|Hm].
    - rewrite Hm, map_size_empty. cbn [Nat.ltb Nat.leb when_]. unfold bind at 1, ret at 1.
      rewrite app_nil_r. by destruct w.
    - assert (Hs : (0 <? size m)%nat = true).
      { apply Nat.ltb_lt. destruct (size m) eqn:Hsz; [|lia]. by apply map_size_empty_iff in Hsz. }
      rewrite Hs. unfold when_, bind at 1. by rewrite warnings_warn_eq. }
  rewrite Hrun. clear Hrun run. unfold AsyncNode__runAsync.
  assert (E0 : get_node (heap w0) this = Some n) by exact E.
  assert (Hprep : forall x s1,
            prepAsync hk this (heap w) tt (shared w) = (x, s1) ->
            call user_class PrepAsync prepAsync this [] tt w0
            = (x, mk_world (heap w) (handlers w)
                    (trace w ++ warning ++ [EvCall PrepAsync this (curRetry n) []]) s1)).
  { intros x s1 Hp. rewrite (call_eq PrepAsync prepAsync w0 this n _ _ E0). fold hk.
    cbn [heap shared trace handlers w0]. rewrite Hp. cbn [fst snd]. by rewrite <- app_assoc. }
  split.
  - intros p s1 e s2 a s3 Hp Hx Ho.
    rewrite (bind_Ret _ _ _ _ _ (Hprep _ _ Hp)).
    set (w1 := mk_world (heap w) _ _ s1).
    assert (E1 : get_node (heap w1) this = Some n) by exact E.
    assert (Hexec : dispatch_exec user_class parallel_join this p w1
                    = (Ret e, mk_world hp0 (handlers w)
                                (trace w ++ warning
                                   ++ [EvCall PrepAsync this (curRetry n) [];
                                       EvCall ExecAsync this 0 [p]]) s2)).
    { rewrite (dispatch_exec_AsyncNode w1 this n p E1 Hc).
      rewrite (AsyncNode_exec_unfold w1 this n p E1).
      destruct (Z.to_nat (maxRetries n)) as [|budget] eqn:Hb; [lia|].
      set (w2 := with_heap _ w1).
      assert (E2 : get_node (heap w2) this = Some (set_curRetry 0 n)).
      { apply get_node_insert_same. }
      rewrite (AsyncNode_exec_loop_step budget w2 this _ p E2) by (cbn; lia).
      cbv zeta. cbn [impl set_curRetry curRetry heap shared with_heap w2 w1 handlers trace].
      fold hk. fold hp0. rewrite Hx. cbn [fst snd].
      by rewrite <- !app_assoc. }
    rewrite (bind_Ret _ _ _ _ _ Hexec).
    set (w3 := mk_world hp0 _ _ s2).
    assert (E3 : get_node (heap w3) this = Some (set_curRetry 0 n)).
    { apply get_node_insert_same. }
    rewrite (call_eq PostAsync postAsync w3 this _ _ _ E3).
    cbn [impl set_curRetry curRetry heap shared handlers trace w3]. fold hk.
    rewrite Ho. cbn [fst snd]. by rewrite <- !app_assoc.
  - intros er s1 Hp. by rewrite (bind_Throw _ _ _ _ _ (Hprep _ _ Hp)).
Qed.
End Properties.

(** ** Evaluations on concrete instances *)

(** C9, as the specification states it, fails: after clearWarningHandlers a
    warning is not written to the standard error stream. *)
Lemma warnings_after_clearHandlers_not_on_stderr :
  let w := snd (warnings_warn (Text "Flow has no start node")
                  (snd (warnings_clearHandlers world_init))) in
  ~ (EvHandler console_warn (Text "Flow has no start node") ∈ trace w)
  /\ trace w = [].
Proof.
  simpl. split; [|done]. intros H. by apply elem_of_nil in H.
Qed.

(** C8, as the specification states it, fails.  The clone of [a] holds the
    same [successors] reference as [a]; registering [b] under the label [x]
    through the clone alters the successor table of [a] itself. *)
Lemma shallowCopy_successors_not_duplicated :
  let w1 := snd (shallowCopy (VRef 0) two_nodes) in
  let w2 := snd (BaseNode_next 6 (VRef 3) (VStr "x") w1) in
  fst (shallowCopy (VRef 0) two_nodes) = Ret (VRef 6)
  /\ (successors <$> get_node (heap w1) 6) = (successors <$> get_node (heap w1) 0)
  /\ (params <$> get_node (heap w1) 6) = (params <$> get_node (heap w1) 0)
  /\ fst (BaseNode_next 6 (VRef 3) (VStr "x") w1) = Ret (VRef 3)
  /\ get_prop (heap two_nodes) (VRef 1) "x" = VUndefined
  /\ get_prop (heap w2) (VRef 1) "x" = VRef 3
  /\ own_entries (heap w2) (VRef 1) <> own_entries (heap two_nodes) (VRef 1).
Proof.
  cbv zeta. repeat split; try (vm_compute; reflexivity).
  intros H. apply (f_equal (fun m : gmap string value => m !! "x")) in H.
  vm_compute in H. discriminate H.
Qed.

(** C5, as the specification states it, fails.  [null] is not an array, yet
    a BatchNode given [null] (what the inherited prep returns) emits no
    warning, calls nothing and returns the empty array, not a one-element
    array. *)
Lemma BatchNode_exec_null_is_silent :
  let run := dispatch_exec no_overrides no_join 0 VNull one_batch_node in
  isArray VNull = false
  /\ fst run = Ret (VArr [])
  /\ trace (snd run) = []
  /\ ~ (exists y, fst run = Ret (VArr [y])).
Proof.
  cbv zeta. repeat split; try (vm_compute; reflexivity).
  intros [y Hy]. vm_compute in Hy. discriminate Hy.
Qed.

(** The flow of the scenario: [A], whose post returns the empty string,
    is followed by [C], its [default] successor; [B] is not visited, no
    warning is emitted, and the original nodes are as before. *)
Example fork_flow_goes_to_default :
  let run := Flow__orchestrate (run_with fork_classes fork_join 8) 9 VNull fork_world in
  fst run = Ret VNull
  /\ shared (snd run) = ["A"; "C"]
  /\ calls_of (trace (snd run)) = trace (snd run)
  /\ get_node (heap (snd run)) 0 = Some node_A
  /\ get_prop (heap (snd run)) (VRef 2) "mode" = VStr "original".
Proof. cbv zeta. repeat split; vm_compute; reflexivity. Qed.

(** A flow whose node ends with the action [toString].  Nothing is
    registered under that label and the table of [D] is not empty, yet the
    lookup returns a function of [Object.prototype] and emits no warning,
    and the flow, instead of ending, throws when it calls [setParams] on
    what the lookup returned. *)
Example stray_flow_throws :
  let lookup := Flow_getNextNode (VRef 0) (VStr "toString") stray_world in
  let run := Flow__orchestrate (run_with fork_classes fork_join 8) 6 VNull stray_world in
  own_entries (heap stray_world) (VRef 1) !! "toString" = None
  /\ lookup = (Ret (VNative (Builtin "toString")), stray_world)
  /\ fst run = Throw (TypeError "currentNode.setParams is not a function")
  /\ shared (snd run) = ["D"]
  /\ trace (snd run)
     = [EvCall Prep 10 0 []; EvCall Exec 10 0 [VNull]; EvCall Post 10 0 [VNull; VNull]].
Proof. cbv zeta. repeat split; vm_compute; reflexivity. Qed.

(** The batch flow of the specification: three orchestrations, in input
    order, each with [id] merged over the flow's own parameters. *)
Example batch_flow_three_runs :
  let run := dispatch_run batch_classes batch_join (run_with batch_classes batch_join 8) 3 batch_world in
  fst run = Ret VNull
  /\ shared (snd run) = [VNum 1; VNum 7; VNum 2; VNum 7; VNum 3; VNum 7]
  /\ get_prop (heap (snd run)) (VRef 5) "id" = VNum 0.
Proof. cbv zeta. repeat split; vm_compute; reflexivity. Qed.

(** Three attempts, then the fallback; with [wait = 2] each failed attempt
    but the last leaves one warning and one timer and the loop goes on. *)
Example hopeless_node_trace :
  let run := dispatch_exec retry_classes retry_join 0 (VStr "in") retry_world in
  fst run = Throw (Error "down")
  /\ shared (snd run) = 3
  /\ trace (snd run)
     = [EvCall Exec 0 0 [VStr "in"];
        EvHandler console_warn (Text sync_wait_text); EvSetTimeout 2000;
        EvCall Exec 0 1 [VStr "in"];
        EvHandler console_warn (Text sync_wait_text); EvSetTimeout 2000;
        EvCall Exec 0 2 [VStr "in"];
        EvCall ExecFallback 0 2 [VStr "in"]].
Proof. cbv zeta. repeat split; vm_compute; reflexivity. Qed.

(** ** The theorems at concrete instances *)

Lemma Node_exec_retry_count_witness :
  let down := dispatch_exec retry_classes retry_join 0 VNull retry_world in
  let up := dispatch_exec retry_classes retry_join 9 VNull retry_world in
  (get_node (heap retry_world) 0 = Some hopeless_node
   /\ get_node (heap retry_world) 9 = Some counting_node /\ (1 <= 3)%nat)
  /\ (exists evs e,
        fst down = Throw e
        /\ calls_of evs = exec_calls 0 VNull 0 3
        /\ trace (snd down) = (trace retry_world ++ evs) ++ [EvCall ExecFallback 0 2 [VNull]])
  /\ (exists evs,
        fst up = Ret (VStr "done")
        /\ trace (snd up) = trace retry_world ++ evs
        /\ calls_of evs = exec_calls 9 VNull 0 3).
Proof.
  cbv zeta. split; [split; [reflexivity|split; [reflexivity|lia]]|]. split.
  - destruct (Node_exec_retry_count retry_classes retry_join retry_world 0 hopeless_node VNull 3
                eq_refl eq_refl eq_refl ltac:(lia)) as [H _].
    destruct H as (evs & e & wf & _ & Htr & Hc & _ & _ & Htr2 & Hdef).
    { intros i _. exists (Error "down"). reflexivity. }
    exists evs, e. split; [exact (Hdef eq_refl)|]. split; [exact Hc|].
    change (Z.of_nat 3 - 1)%Z with 2%Z in Htr2. rewrite Htr2, Htr. reflexivity.
  - destruct (Node_exec_retry_count retry_classes retry_join retry_world 9 counting_node VNull 3
                eq_refl eq_refl eq_refl ltac:(lia)) as [_ H].
    apply (H 3%nat (VStr "done")).
    + lia.
    + intros i Hi. exists (Error "not yet").
      destruct i as [|[|i]]; [vm_compute; reflexivity|vm_compute; reflexivity|simpl in Hi; lia].
    + vm_compute. reflexivity.
Defined.

Lemma getNextNode_spec_witness :
  let rec := run_with fork_classes fork_join 2 in
  (get_node (heap stray_world) 0 = Some node_D
   /\ heap stray_world !! successors node_D = Some (OMap (<["done" := VRef 3]> ∅))
   /\ is_label (VStr "toString") = true)
  /\ (exists x, Flow_getNextNode (VRef 0) (VStr "toString") stray_world
                = (Ret (VNative x), stray_world))
  /\ fst (orchestrate_loop fork_classes fork_join rec false (VRef 0) (VObj ∅) VNull stray_world)
     = Throw (TypeError "currentNode.setParams is not a function")
  /\ Flow_getNextNode (VRef 0) (VStr EmptyString) fork_world = (Ret (VRef 6), fork_world).
Proof.
  cbv zeta. split; [repeat split; reflexivity|].
  destruct (getNextNode_spec fork_classes fork_join 1 false stray_world 0 node_D
              (<["done" := VRef 3]> ∅) (VStr "toString") (VObj ∅) VNull
              eq_refl eq_refl eq_refl) as (_ & _ & _ & H).
  destruct (H eq_refl eq_refl) as [Hlook Hturn].
  split; [exact Hlook|]. split.
  - destruct (run_with fork_classes fork_join 2 (CRun (fresh (dom (heap stray_world))))
                (with_heap (<[fresh (dom (heap stray_world))
                              := ONode (set_params (VObj ∅) node_D)]> (heap stray_world))
                   stray_world)) as [r w1] eqn:E.
    assert (Hr : r = Ret (VStr "toString")).
    { change r with (fst (r, w1)). rewrite <- E. vm_compute. reflexivity. }
    subst r. rewrite (Hturn w1 (conj eq_refl E)). reflexivity.
  - destruct (getNextNode_spec fork_classes fork_join 1 false fork_world 0 node_A
                (<["go" := VRef 3]> (<["default" := VRef 6]> ∅)) (VStr EmptyString) (VObj ∅) VNull
                eq_refl eq_refl eq_refl) as (_ & H2 & _).
    exact (proj1 (H2 (VRef 6) eq_refl eq_refl)).
Defined.

Lemma orchestrate_keeps_original_nodes_witness :
  let run1 := Flow__orchestrate (run_with fork_classes fork_join 8) 9
                (VObj (<["mode" := VStr "first"]> ∅)) fork_world in
  let run2 := Flow__orchestrate (run_with fork_classes fork_join 8) 9
                (VObj (<["mode" := VStr "second"]> ∅)) (with_shared ["other"] (snd run1)) in
  get_node (heap (snd run2)) 0 = Some node_A
  /\ own_entries (heap (snd run2)) (params node_A) = <["mode" := VStr "original"]> ∅.
Proof.
  cbv zeta.
  destruct (orchestrate_keeps_original_nodes fork_classes fork_join fork_world 9)
    as (_ & _ & H & _).
  destruct (H false 8 8 (VObj (<["mode" := VStr "first"]> ∅))
              (VObj (<["mode" := VStr "second"]> ∅)) ["other"] 0 node_A eq_refl) as [H1 H2].
  split; [exact H1|]. apply (H2 2); reflexivity.
Defined.

Lemma BatchFlow_run_spec_witness :
  let rec := run_with batch_classes batch_join 8 in
  let w1 := mk_world (heap batch_world) (handlers batch_world)
              (trace batch_world ++ [EvCall Prep 3 0 []]) [] in
  get_node (heap batch_world) 3 = Some batch_flow
  /\ exists w2 w',
       sub_runs (Flow__orchestrate rec 3) 3 batch_items w1 w2
       /\ call batch_classes Post post 3 [VArr batch_items; VNull] (VArr batch_items, VNull) w2
          = (Ret VNull, w').
Proof.
  cbv zeta. split; [vm_compute; reflexivity|].
  destruct (BatchFlow_run_spec batch_classes batch_join (run_with batch_classes batch_join 8)
              batch_world 3 batch_flow (VArr batch_items) [] eq_refl eq_refl eq_refl) as [H _].
  destruct (H batch_items eq_refl) as [_ Hb].
  destruct (dispatch_run batch_classes batch_join (run_with batch_classes batch_join 8) 3 batch_world)
    as [r w'] eqn:E.
  assert (Hr : r = Ret VNull).
  { change r with (fst (r, w')). rewrite <- E. vm_compute. reflexivity. }
  subst r. destruct (Hb VNull w' eq_refl) as (w2 & Hs & Hp).
  exists w2, w'. split; [exact Hs|exact Hp].
Defined.

Lemma BatchNode_exec_spec_witness :
  let run := dispatch_exec no_overrides no_join 0 (VStr "x") one_batch_node in
  let w1 := warned (Text "BatchNode expected an array but received string") one_batch_node in
  get_node (heap one_batch_node) 0 = Some (mk_node BatchNode 0 (VRef 2) 1 2 0 0 VNull)
  /\ fst run = singleton_result (fst (Node__exec no_overrides 0 (VStr "x") w1))
  /\ snd run = snd (Node__exec no_overrides 0 (VStr "x") w1)
  /\ dispatch_exec no_overrides no_join 0 (VNum 0) one_batch_node = (Ret (VArr []), one_batch_node).
Proof.
  cbv zeta. split; [reflexivity|].
  destruct (BatchNode_exec_spec no_overrides no_join one_batch_node 0
              (mk_node BatchNode 0 (VRef 2) 1 2 0 0 VNull) (VStr "x") eq_refl eq_refl)
    as (_ & H & _).
  destruct (H eq_refl eq_refl) as [H1 H2].
  split; [exact H1|]. split; [exact H2|].
  destruct (BatchNode_exec_spec no_overrides no_join one_batch_node 0
              (mk_node BatchNode 0 (VRef 2) 1 2 0 0 VNull) (VNum 0) eq_refl eq_refl)
    as (_ & _ & H0).
  by apply H0.
Defined.

Lemma Node_sync_wait_not_honoured_witness :
  let run := dispatch_exec retry_classes retry_join 0 VNull retry_world in
  let run_z := dispatch_exec retry_classes retry_join 0 VNull
                 (with_heap (rewait 0 5 (heap retry_world)) retry_world) in
  (get_node (heap retry_world) 0 = Some hopeless_node /\ wait hopeless_node = 2%Z)
  /\ (fst run_z = fst run
      /\ shared (snd run_z) = shared (snd run)
      /\ calls_of (trace (snd run_z)) = calls_of (trace (snd run)))
  /\ exists rest,
       trace (snd run)
       = [EvCall Exec 0 0 [VNull];
          EvHandler console_warn (Text sync_wait_text); EvSetTimeout 2000;
          EvCall Exec 0 1 [VNull]] ++ rest.
Proof.
  cbv zeta. split; [split; reflexivity|].
  destruct (Node_sync_wait_not_honoured retry_classes retry_join retry_world 0 hopeless_node
              VNull 5 eq_refl (or_introl eq_refl)) as (Hsame & _ & Hnode & _ & Hpos).
  - split; intros hp z a s; reflexivity.
  - split; [exact Hsame|].
    rewrite (Hnode eq_refl).
    destruct (Hpos VNull retry_world hopeless_node 1%nat eq_refl) as [rest Hrest].
    + simpl. lia.
    + intros i _. exists (Error "down"). reflexivity.
    + exists rest. rewrite Hrest. reflexivity.
Defined.

Lemma AsyncNode_run_rejects_witness :
  get_node (heap retry_world) 6 = Some async_node
  /\ run_with retry_classes retry_join 1 (CRun 6) retry_world = (Throw sync_run_error, retry_world).
Proof.
  split; [reflexivity|].
  by destruct (AsyncNode_run_rejects retry_classes retry_join 0 retry_world 6 async_node
                 eq_refl eq_refl) as [H _].
Defined.

Lemma shallowCopy_shares_mappings_witness :
  get_node (heap two_nodes) 0 = Some (mk_node Node 0 (VRef 2) 1 1 0 0 VNull)
  /\ exists (r' : ref) (w1 : world unit),
       shallowCopy (VRef 0) two_nodes = (Ret (VRef r'), w1)
       /\ heap two_nodes !! r' = None
       /\ get_node (heap w1) r' = Some (mk_node Node 0 (VRef 2) 1 1 0 0 VNull).
Proof.
  split; [reflexivity|].
  destruct (shallowCopy_shares_mappings two_nodes 0 (mk_node Node 0 (VRef 2) 1 1 0 0 VNull) eq_refl)
    as (r' & w1 & H1 & H2 & H3 & _).
  by exists r', w1.
Defined.

Lemma next_returns_successor_witness :
  get_node (heap two_nodes) 0 = Some (mk_node Node 0 (VRef 2) 1 1 0 0 VNull)
  /\ exists w1, BaseNode_next 0 (VRef 3) (VStr "go") two_nodes = (Ret (VRef 3), w1)
                /\ get_prop (heap w1) (VRef 1) "go" = VRef 3.
Proof.
  split; [reflexivity|].
  by destruct (next_returns_successor two_nodes 0 3 0
                 (mk_node Node 0 (VRef 2) 1 1 0 0 VNull) (mk_node Node 0 (VRef 5) 4 1 0 0 VNull)
                 ∅ ∅ "go" eq_refl eq_refl eq_refl eq_refl eq_refl) as [H _].
Defined.

(** ** The further properties at concrete instances *)

Lemma BaseNode_setParams_spec_witness :
  get_node (heap two_nodes) 0 = Some (mk_node Node 0 (VRef 2) 1 1 0 0 VNull)
  /\ BaseNode_setParams 0 (VStr "x") two_nodes
     = (Throw (TypeError "Parameters must be an object"), two_nodes)
  /\ BaseNode_setParams 0 (VArr []) two_nodes
     = (Ret tt, with_heap (<[0 := ONode (mk_node Node 0 (VArr []) 1 1 0 0 VNull)]> (heap two_nodes))
                  two_nodes).
Proof.
  split; [reflexivity|].
  destruct (BaseNode_setParams_spec two_nodes 0 (mk_node Node 0 (VRef 2) 1 1 0 0 VNull) (VStr "x")
              eq_refl) as [H _].
  split; [exact (H eq_refl)|].
  destruct (BaseNode_setParams_spec two_nodes 0 (mk_node Node 0 (VRef 2) 1 1 0 0 VNull) (VArr [])
              eq_refl) as [_ H2].
  exact (proj1 (H2 eq_refl)).
Defined.


Lemma next_fresh_label_silent_witness :
  (get_node (heap two_nodes) 0 = Some (mk_node Node 0 (VRef 2) 1 1 0 0 VNull)
   /\ heap two_nodes !! 1 = Some (OMap ∅))
  /\ (exists w', BaseNode_next 0 (VRef 3) (VStr "go") two_nodes = (Ret (VRef 3), w')
                 /\ trace w' = trace two_nodes
                 /\ own_entries (heap w') (VRef 1) = <["go" := VRef 3]> ∅)
  /\ (exists w', BaseNode_next 0 (VRef 3) (VStr "toString") two_nodes = (Ret (VRef 3), w')
                 /\ trace w'
                    = [EvHandler console_warn
                         (Text "Overwriting successor for action 'toString'")]).
Proof.
  split; [split; reflexivity|]. split.
  - destruct (next_fresh_label_silent two_nodes 0 (mk_node Node 0 (VRef 2) 1 1 0 0 VNull) ∅
                (VRef 3) "go" eq_refl eq_refl eq_refl eq_refl) as (w' & H1 & H2 & H3 & _).
    exists w'. split; [exact H1|]. split; [exact H2|exact H3].
  - destruct (next_fresh_label_silent two_nodes 0 (mk_node Node 0 (VRef 2) 1 1 0 0 VNull) ∅
                (VRef 3) "toString" eq_refl eq_refl eq_refl eq_refl) as (w' & H1 & H2 & _).
    exists w'. split; [exact H1|exact H2].
Defined.

Lemma next_overwrite_last_wins_witness :
  let w1 := snd (BaseNode_next 0 (VRef 3) (VStr "go") two_nodes) in
  let w2 := snd (BaseNode_next 0 (VRef 0) (VStr "go") w1) in
  (get_node (heap two_nodes) 0 = Some (mk_node Node 0 (VRef 2) 1 1 0 0 VNull)
   /\ instanceof_BaseNode (heap two_nodes) (VRef 3) = true)
  /\ get_prop (heap w2) (VRef 1) "go" = VRef 0
  /\ trace w2 = trace w1 ++ [EvHandler console_warn (Text "Overwriting successor for action 'go'")]
  /\ get_prop (heap w2) (VRef 1) "stop" = VUndefined.
Proof.
  cbv zeta. split; [split; reflexivity|].
  destruct (next_overwrite_last_wins two_nodes 0 (mk_node Node 0 (VRef 2) 1 1 0 0 VNull) ∅
              (VRef 3) (VRef 0) "go" eq_refl eq_refl eq_refl eq_refl)
    as (_ & H2 & H3 & _ & _ & H6).
  split; [exact H2|]. split; [exact H3|].
  exact (eq_trans (H6 ltac:(discriminate) "stop" ltac:(discriminate)) eq_refl).
Defined.

Lemma BaseNode_lifecycle_order_witness :
  (get_node (heap tour_world) 0 = Some plain_node /\ cls plain_node = BaseNode)
  /\ dispatch_run tour_classes tour_join (run_with tour_classes tour_join 0) 0 tour_world
     = (Ret (VStr "a"),
        mk_world (heap tour_world) (handlers tour_world)
          (trace tour_world ++ [EvCall Prep 0 0 []; EvCall Exec 0 0 [VStr "p"];
                                EvCall Post 0 0 [VStr "p"; VStr "e"]]) 1).
Proof.
  split; [split; reflexivity|].
  destruct (BaseNode_lifecycle_order tour_classes tour_join (run_with tour_classes tour_join 0)
              tour_world 0 plain_node eq_refl eq_refl) as [H _].
  exact (H (VStr "p") 1 (VStr "e") 1 (VStr "a") 1 eq_refl eq_refl eq_refl).
Defined.

Lemma BaseNode_run_warns_iff_successors_witness :
  get_node (heap fork_world) 3 = Some node_B
  /\ BaseNode_run fork_classes fork_join 2 3 fork_world
     = dispatch_run fork_classes fork_join (run_with fork_classes fork_join 2) 3 fork_world
  /\ BaseNode_run fork_classes fork_join 2 0 fork_world
     = dispatch_run fork_classes fork_join (run_with fork_classes fork_join 2) 0
         (warned (Text "Node won't run successors. Use Flow.") fork_world).
Proof.
  split; [reflexivity|].
  destruct (BaseNode_run_warns_iff_successors fork_classes fork_join 2 fork_world 3 node_B eq_refl)
    as [H _].
  split; [exact (H eq_refl)|].
  destruct (BaseNode_run_warns_iff_successors fork_classes fork_join 2 fork_world 0 node_A eq_refl)
    as [_ H2].
  apply H2. intros Hm.
  apply (f_equal (fun m : gmap string value => m !! "go")) in Hm. discriminate Hm.
Defined.

Lemma Node_exec_without_attempts_witness :
  (get_node (heap tour_world) 3 = Some idle_node /\ (maxRetries idle_node <= 0)%Z)
  /\ fst (dispatch_exec tour_classes tour_join 3 (VStr "in") tour_world) = Ret VUndefined
  /\ trace (snd (dispatch_exec tour_classes tour_join 3 (VStr "in") tour_world)) = [].
Proof.
  split; [split; [reflexivity|cbn; lia]|].
  assert (H := Node_exec_without_attempts tour_classes tour_join tour_world 3 idle_node (VStr "in")
                 eq_refl eq_refl ltac:(cbn; lia)).
  rewrite H. split; reflexivity.
Defined.


Lemma Node_exec_leaves_attempt_index_witness :
  (get_node (heap retry_world) 0 = Some hopeless_node /\ (1 <= 3)%nat)
  /\ attempt_of (heap (snd (dispatch_exec retry_classes retry_join 0 VNull retry_world))) 0
     = Some 2%Z
  /\ attempt_of (heap (snd (dispatch_exec retry_classes retry_join 9 VNull retry_world))) 9
     = Some 2%Z
  /\ attempt_of (heap (snd (dispatch_exec retry_classes retry_join 3 VNull retry_world))) 3
     = Some 1%Z.
Proof.
  split; [split; [reflexivity|lia]|]. split; [|split].
  - destruct (Node_exec_leaves_attempt_index retry_classes retry_join retry_world 0 hopeless_node
                VNull 3 eq_refl eq_refl eq_refl ltac:(lia)) as [H _].
    apply H. intros i _. exists (Error "down"). reflexivity.
  - destruct (Node_exec_leaves_attempt_index retry_classes retry_join retry_world 9 counting_node
                VNull 3 eq_refl eq_refl eq_refl ltac:(lia)) as [_ H].
    apply (H 3%nat (VStr "done")).
    + lia.
    + intros i Hi. exists (Error "not yet").
      destruct i as [|[|i]]; [vm_compute; reflexivity|vm_compute; reflexivity|simpl in Hi; lia].
    + vm_compute. reflexivity.
  - destruct (Node_exec_leaves_attempt_index retry_classes retry_join retry_world 3 flaky_node
                VNull 3 eq_refl eq_refl eq_refl ltac:(lia)) as [_ H].
    apply (H 2%nat (VStr "done")).
    + lia.
    + intros i Hi. exists (Error "transient").
      destruct i as [|i]; [vm_compute; reflexivity|simpl in Hi; lia].
    + vm_compute. reflexivity.
Defined.

Lemma AsyncNode_exec_retry_trace_witness :
  let run := dispatch_exec retry_classes retry_join 15 VNull retry_world in
  (get_node (heap retry_world) 15 = Some counting_async_node /\ (1 <= 3)%nat)
  /\ fst run = Ret (VStr "done")
  /\ trace (snd run)
     = [EvCall ExecAsync 15 0 [VNull]; EvSleep 1000;
        EvCall ExecAsync 15 1 [VNull]; EvSleep 1000;
        EvCall ExecAsync 15 2 [VNull]].
Proof.
  cbv zeta. split; [split; [reflexivity|lia]|].
  destruct (AsyncNode_exec_retry_trace retry_classes retry_join retry_world 15
              counting_async_node VNull 3 eq_refl eq_refl eq_refl ltac:(lia)) as [_ H].
  destruct (H 3%nat (VStr "done")) as [H1 H2].
  - lia.
  - intros i Hi. exists (Error "not yet").
    destruct i as [|[|i]]; [vm_compute; reflexivity|vm_compute; reflexivity|simpl in Hi; lia].
  - vm_compute. reflexivity.
  - split; [exact H1|]. rewrite H2. reflexivity.
Defined.

Lemma AsyncBatchNode__exec_spec_witness :
  let run := dispatch_exec tour_classes tour_join 6 (VNum 7) tour_world in
  let w1 := warned (Text "AsyncBatchNode expected an array but received number") tour_world in
  get_node (heap tour_world) 6 = Some async_batch_node
  /\ fst run = singleton_result (fst (AsyncNode__exec tour_classes 6 (VNum 7) w1))
  /\ dispatch_exec tour_classes tour_join 6 VNull tour_world = (Ret (VArr []), tour_world).
Proof.
  cbv zeta. split; [reflexivity|].
  destruct (AsyncBatchNode__exec_spec tour_classes tour_join tour_world 6 async_batch_node (VNum 7)
              eq_refl eq_refl) as (_ & H & _).
  split; [exact (proj1 (H eq_refl eq_refl))|].
  destruct (AsyncBatchNode__exec_spec tour_classes tour_join tour_world 6 async_batch_node VNull
              eq_refl eq_refl) as (_ & _ & H0).
  exact (H0 eq_refl).
Defined.


Lemma orchestrate_without_start_witness :
  (get_node (heap tour_world) 9 = Some empty_flow /\ truthy (startNode empty_flow) = false)
  /\ Flow__orchestrate (run_with tour_classes tour_join 5) 9 (VObj ∅) tour_world
     = (Ret VNull, warned (Text "Flow has no start node") tour_world).
Proof.
  split; [split; reflexivity|].
  exact (proj1 (orchestrate_without_start (run_with tour_classes tour_join 5) tour_world 9
                  empty_flow (VObj ∅) eq_refl eq_refl)).
Defined.

Lemma orchestrate_single_terminal_node_witness :
  (get_node (heap tour_world) 18 = Some short_flow
   /\ get_node (heap tour_world) 0 = Some plain_node
   /\ heap tour_world !! successors plain_node = Some (OMap ∅))
  /\ fst (Flow__orchestrate (run_with tour_classes tour_join 3) 18 (VObj ∅) tour_world)
     = Ret (VStr "a").
Proof.
  split; [repeat split; reflexivity|].
  destruct (orchestrate_single_terminal_node tour_classes tour_join 1 tour_world 18 short_flow 0
              plain_node (VObj ∅) eq_refl eq_refl eq_refl eq_refl (or_introl eq_refl)) as [H _].
  destruct (run_with tour_classes tour_join 2 (CRun (fresh (dom (heap tour_world))))
              (with_heap (<[fresh (dom (heap tour_world)) := ONode (set_params (VObj ∅) plain_node)]>
                            (heap tour_world)) tour_world)) as [r w'] eqn:E.
  assert (Hr : r = Ret (VStr "a")).
  { change r with (fst (r, w')). rewrite <- E. vm_compute. reflexivity. }
  subst r. rewrite (H (VStr "a") w' E eq_refl). reflexivity.
Defined.

Lemma orchestrate_rejects_async_members_witness :
  (get_node (heap tour_world) 15 = Some wired_async_node
   /\ get_node (heap tour_world) 21 = Some async_flow)
  /\ fst (orchestrate_loop tour_classes tour_join (run_with tour_classes tour_join 1)
            false (VRef 15) (VObj ∅) VNull tour_world) = Throw sync_run_error
  /\ fst (orchestrate_loop tour_classes tour_join (run_with tour_classes tour_join 1)
            true (VRef 21) (VObj ∅) VNull tour_world) = Throw sync_run_error.
Proof.
  split; [split; reflexivity|]. split.
  - destruct (orchestrate_rejects_async_members tour_classes tour_join 0 tour_world 15
                wired_async_node (VObj ∅) VNull eq_refl eq_refl) as [H _].
    rewrite (H eq_refl). reflexivity.
  - destruct (orchestrate_rejects_async_members tour_classes tour_join 0 tour_world 21
                async_flow (VObj ∅) VNull eq_refl eq_refl) as [_ H].
    rewrite (H (or_introl eq_refl) true). reflexivity.
Defined.

Lemma AsyncBatchFlow_runAsync_spec_witness :
  let rec := run_with tour_classes tour_join 4 in
  get_node (heap tour_world) 24 = Some empty_batches
  /\ AsyncBatchFlow__runAsync tour_classes rec 24 tour_world
     = call tour_classes PostAsync postAsync 24 [VArr []; VNull] (VArr [], VNull)
         (mk_world (heap tour_world) (handlers tour_world)
            (trace tour_world ++ [EvCall PrepAsync 24 0 []]) 0).
Proof.
  cbv zeta. split; [reflexivity|].
  destruct (AsyncBatchFlow_runAsync_spec tour_classes (run_with tour_classes tour_join 4)
              tour_world 24 empty_batches VNull 0 eq_refl eq_refl) as (_ & H & _).
  exact (H eq_refl).
Defined.

Lemma next_then_getNextNode_witness :
  let w1 := snd (BaseNode_next 0 (VRef 3) (VStr "go") two_nodes) in
  (get_node (heap two_nodes) 0 = Some (mk_node Node 0 (VRef 2) 1 1 0 0 VNull)
   /\ instanceof_BaseNode (heap two_nodes) (VRef 3) = true)
  /\ Flow_getNextNode (VRef 0) (VStr "go") w1 = (Ret (VRef 3), w1)
  /\ fst (Flow_getNextNode (VRef 0) (VStr "toString") w1)
     = fst (Flow_getNextNode (VRef 0) (VStr "toString") two_nodes).
Proof.
  cbv zeta. split; [split; reflexivity|].
  destruct (next_then_getNextNode two_nodes 0 (mk_node Node 0 (VRef 2) 1 1 0 0 VNull) ∅
              (VRef 3) "go" eq_refl eq_refl eq_refl ltac:(discriminate)) as [H1 H2].
  split; [exact H1|].
  exact (H2 ltac:(discriminate) (VStr "toString") eq_refl ltac:(discriminate)).
Defined.

Lemma empty_label_never_routed_witness :
  (get_node (heap two_nodes) 0 = Some (mk_node Node 0 (VRef 2) 1 1 0 0 VNull)
   /\ instanceof_BaseNode (heap two_nodes) (VRef 3) = true)
  /\ exists w1,
       BaseNode_next 0 (VRef 3) (VStr EmptyString) two_nodes = (Ret (VRef 3), w1)
       /\ fst (Flow_getNextNode (VRef 0) (VStr EmptyString) w1) = Ret VUndefined.
Proof.
  split; [split; reflexivity|].
  destruct (empty_label_never_routed two_nodes 0 (mk_node Node 0 (VRef 2) 1 1 0 0 VNull) ∅
              (VRef 3) eq_refl eq_refl eq_refl) as (w1 & H1 & _ & H3 & _).
  exists w1. split; [exact H1|].
  rewrite (H3 (VStr EmptyString) eq_refl). reflexivity.
Defined.


Lemma Flow_run_lifecycle_witness :
  get_node (heap tour_world) 18 = Some short_flow
  /\ fst (Flow__run tour_classes (run_with tour_classes tour_join 4) 18 tour_world)
     = Ret (VStr "a").
Proof.
  split; [reflexivity|].
  destruct (Flow_run_lifecycle tour_classes tour_join 4 tour_world 18 short_flow VNull 0 eq_refl)
    as [H _].
  destruct (H eq_refl) as [Hret _].
  destruct (Flow__orchestrate (run_with tour_classes tour_join 4) 18 VNull
              (mk_world (heap tour_world) (handlers tour_world)
                 (trace tour_world ++ [EvCall Prep 18 (curRetry short_flow) []]) 0))
    as [r w2] eqn:E.
  assert (Hr : r = Ret (VStr "a")).
  { change r with (fst (r, w2)). rewrite <- E. vm_compute. reflexivity. }
  subst r. destruct (Hret (VStr "a") w2 eq_refl) as [_ Hdef].
  exact (Hdef eq_refl).
Defined.

Lemma AsyncNode_runAsync_lifecycle_witness :
  (get_node (heap tour_world) 15 = Some wired_async_node /\ (1 <= maxRetries wired_async_node)%Z)
  /\ fst (AsyncNode_runAsync tour_classes tour_join 15 tour_world) = Ret VNull
  /\ trace (snd (AsyncNode_runAsync tour_classes tour_join 15 tour_world))
     = [EvHandler console_warn (Text "Node won't run successors. Use AsyncFlow.");
        EvCall PrepAsync 15 0 []; EvCall ExecAsync 15 0 [VNull];
        EvCall PostAsync 15 0 [VNull; VNull]].
Proof.
  split; [split; [reflexivity|cbn; lia]|].
  destruct (AsyncNode_runAsync_lifecycle tour_classes tour_join tour_world 15 wired_async_node
              eq_refl eq_refl ltac:(cbn; lia)) as [H _].
  rewrite (H VNull 0 VNull 0 VNull 0 eq_refl eq_refl eq_refl).
  split; [reflexivity|]. cbn [snd trace]. vm_compute. reflexivity.
Defined.
